(** * A shallow embedding of the zone store and the zone signer ([zone.go])
      and of the EDNS0 codec of the [dns] package.

    Go values are modelled as follows.
    - [uint8], [uint16], [uint32], [uint64], [int64]: [Z], with the
      wrap-around of conversions and shifts written out ([uintN], [int64]).
    - [string]: [string] (a sequence of bytes); [[]byte] and [net.IP]: [list Z]
      with every element in [0, 256); the [nil] slice is the empty list.
    - [map[uint16][]T]: [gmap Z (list T)]; a [range] over a map visits
      [map_to_list], one of the orders Go may choose.
    - pointers to records ([*RRSIG], [*DNSKEY], the [RR] interface): the
      record together with its address [ptr]; [==] on them compares the
      addresses.
    - a call that may return an error, panic or never return: [outcome]. *)

From Stdlib Require Import ZArith String Ascii List Lia Bool.
From stdpp Require Import gmap strings list sorting.

Open Scope Z_scope.

(** ** Outcomes of a call *)

Inductive error : Type :=
| ErrSoa                              (* the package variable [ErrSoa] *)
| Error_ (Err Name : string)        (* [&Error{Err: ..., Name: ...}] *)
| errors_New (msg : string)          (* [errors.New(msg)] *)
| hex_error                           (* an error of [encoding/hex] *)
| sign_error (msg : string).         (* an error of [RRSIG.Sign] *)

Inductive outcome (A : Type) : Type :=
| Ok (a : A)          (* normal return ([nil] error) *)
| Fail (e : error)    (* return with a non-nil error *)
| Panic               (* run-time panic: index or slice out of range,
                         failed type assertion *)
| Hang.               (* the call never returns *)

Arguments Ok {A} a.
Arguments Fail {A} e.
Arguments Panic {A}.
Arguments Hang {A}.

Definition bind {A B} (m : outcome A) (f : A -> outcome B) : outcome B :=
  match m with
  | Ok a => f a
  | Fail e => Fail e
  | Panic => Panic
  | Hang => Hang
  end.

Notation "'do' x <- m ; k" := (bind m (fun x => k))
  (at level 10, x pattern, m at level 100, k at level 200).

(** ** Fixed-width integers *)

Definition uint (w : Z) (x : Z) : Z := x mod 2 ^ w.
Definition uint8 := uint 8.
Definition uint16 := uint 16.
Definition uint32 := uint 32.
Definition uint64 := uint 64.
Definition byte := uint 8.

(** Two's complement [int64]. *)
Definition int64 (x : Z) : Z := (x + 2 ^ 63) mod 2 ^ 64 - 2 ^ 63.

(** [len(l)] *)
Definition len {A} (l : list A) : Z := Z.of_nat (length l).

Definition is_byte (x : Z) : Prop := 0 <= x < 256.
Definition bytes_ok (b : list Z) : Prop := Forall is_byte b.

(** ** The RR header *)

Record RR_Header : Type := mkHdr {
  Name : string;
  Rrtype : Z;     (* uint16 *)
  Class : Z;      (* uint16 *)
  Ttl : Z;        (* uint32 *)
  Rdlength : Z    (* uint16 *)
}.

Definition set_Ttl (h : RR_Header) (t : Z) : RR_Header :=
  mkHdr (Name h) (Rrtype h) (Class h) t (Rdlength h).

Definition set_Class (h : RR_Header) (c : Z) : RR_Header :=
  mkHdr (Name h) (Rrtype h) c (Ttl h) (Rdlength h).

(** * EDNS0 *)

Module Edns.

(** EDNS0 option codes. *)
Definition EDNS0LLQ : Z := 0x1.
Definition EDNS0UL : Z := 0x2.
Definition EDNS0UPDATELEASE : Z := 0x2.
Definition EDNS0NSID : Z := 0x3.
Definition EDNS0SUBNET : Z := 0x50fa.
Definition _DO : Z := Z.shiftl 1 7.

(** ** The options *)

Record EDNS0_NSID : Type := mkNSID {
  nsid_Code : Z;
  Nsid : string
}.

Record EDNS0_SUBNET : Type := mkSUBNET {
  subnet_Code : Z;
  Family : Z;          (* uint16 *)
  SourceNetmask : Z;   (* uint8 *)
  SourceScope : Z;     (* uint8 *)
  Address : list Z     (* net.IP *)
}.

Record EDNS0_UPDATE_LEASE : Type := mkUL {
  ul_Code : Z;
  Lease : Z            (* uint32 *)
}.

Record EDNS0_LLQ : Type := mkLLQ {
  llq_Code : Z;
  Version : Z;         (* uint16 *)
  LLQOpcode : Z;       (* uint16 *)
  ErrorCode : Z;       (* uint16 *)
  LLQID : Z;           (* uint64 *)
  LeaseLife : Z        (* uint32 *)
}.

(** The [EDNS0] interface: one arm per implementing type. *)
Inductive EDNS0 : Type :=
| O_NSID (e : EDNS0_NSID)
| O_SUBNET (e : EDNS0_SUBNET)
| O_UPDATE_LEASE (e : EDNS0_UPDATE_LEASE)
| O_LLQ (e : EDNS0_LLQ).

Record OPT : Type := mkOPT {
  Hdr : RR_Header;
  Option : list EDNS0
}.

(** ** OPT accessors *)

(** [uint8(rr.Hdr.Ttl & 0x00FF00FFFF)] *)
Definition OPT_Version (rr : OPT) : Z :=
  uint8 (Z.land (Ttl (Hdr rr)) 0x00FF00FFFF).

(** [rr.Hdr.Ttl = rr.Hdr.Ttl&0xFF00FFFF | uint32(v)]; [&] binds tighter
    than [|]. *)
Definition SetVersion (rr : OPT) (v : Z) : OPT :=
  mkOPT (set_Ttl (Hdr rr) (Z.lor (Z.land (Ttl (Hdr rr)) 0xFF00FFFF) (uint32 v)))
        (Option rr).

Definition UDPSize (rr : OPT) : Z := Class (Hdr rr).

Definition SetUDPSize (rr : OPT) (size : Z) : OPT :=
  mkOPT (set_Class (Hdr rr) size) (Option rr).

(** [byte(rr.Hdr.Ttl>>8)&_DO == _DO] *)
Definition Do (rr : OPT) : bool :=
  Z.land (byte (Z.shiftr (Ttl (Hdr rr)) 8)) _DO =? _DO.

Definition SetDo (rr : OPT) : OPT :=
  let ttl := Ttl (Hdr rr) in
  let b1 := byte (Z.shiftr ttl 24) in
  let b2 := byte (Z.shiftr ttl 16) in
  let b3 := byte (Z.shiftr ttl 8) in
  let b4 := byte ttl in
  let b3 := Z.lor b3 _DO in
  mkOPT (set_Ttl (Hdr rr)
           (Z.lor (Z.lor (Z.lor (uint32 (Z.shiftl (uint32 b1) 24))
                                (uint32 (Z.shiftl (uint32 b2) 16)))
                         (uint32 (Z.shiftl (uint32 b3) 8)))
                  (uint32 b4)))
        (Option rr).

(** ** Helpers of other packages *)

(** [encoding/hex]: the value of a hexadecimal digit, either case. *)
Definition fromHexChar (c : ascii) : option Z :=
  let n := Z.of_N (N_of_ascii c) in
  if (48 <=? n) && (n <=? 57) then Some (n - 48)
  else if (97 <=? n) && (n <=? 102) then Some (n - 97 + 10)
  else if (65 <=? n) && (n <=? 70) then Some (n - 65 + 10)
  else None.

(** [hex.DecodeString]: fails on an odd length or on a byte that is not a
    hexadecimal digit. *)
Fixpoint hex_DecodeString (s : string) : option (list Z) :=
  match s with
  | EmptyString => Some []
  | String p (String q rest) =>
      match fromHexChar p, fromHexChar q, hex_DecodeString rest with
      | Some a, Some b, Some t => Some (Z.lor (byte (Z.shiftl a 4)) b :: t)
      | _, _, _ => None
      end
  | String _ EmptyString => None
  end.

(** [hextable = "0123456789abcdef"] *)
Definition hextable (n : Z) : ascii :=
  ascii_of_N (Z.to_N (if n <? 10 then 48 + n else 97 + (n - 10))).

Fixpoint hex_EncodeToString (b : list Z) : string :=
  match b with
  | [] => EmptyString
  | v :: t =>
      String (hextable (Z.shiftr v 4))
        (String (hextable (Z.land v 0x0f)) (hex_EncodeToString t))
  end.

(** [net.IP]. *)
Definition IPv4len : Z := 4.
Definition IPv6len : Z := 16.
Definition v4InV6Prefix : list Z := [0; 0; 0; 0; 0; 0; 0; 0; 0; 0; 0xff; 0xff].

Definition bytesEqual (x y : list Z) : bool := bool_decide (x = y).

(** [net.IPv4(a, b, c, d)]: the 16-byte form. *)
Definition net_IPv4 (a b c d : Z) : list Z := v4InV6Prefix ++ [a; b; c; d].

(** [ip.To4()]; [nil] when [ip] is not an IPv4 address. *)
Definition To4 (ip : list Z) : list Z :=
  if len ip =? IPv4len then ip
  else if (len ip =? IPv6len) && bytesEqual (take 12 ip) v4InV6Prefix
       then drop 12 ip
       else [].

(** [net.CIDRMask(ones, bits)] *)
Fixpoint cidr_bytes (l : nat) (n : Z) : list Z :=
  match l with
  | O => []
  | S l' =>
      if 8 <=? n then 0xff :: cidr_bytes l' (n - 8)
      else byte (Z.lxor 0xff (Z.shiftr 0xff n)) :: cidr_bytes l' 0
  end.

Definition CIDRMask (ones bits : Z) : list Z :=
  if negb (bits =? 8 * IPv4len) && negb (bits =? 8 * IPv6len) then []
  else if (ones <? 0) || (bits <? ones) then []
  else cidr_bytes (Z.to_nat (bits / 8)) ones.

Definition allFF (b : list Z) : bool := forallb (fun c => c =? 0xff) b.

(** [ip.Mask(mask)] *)
Definition Mask (ip mask : list Z) : list Z :=
  let mask :=
    if (len mask =? IPv6len) && (len ip =? IPv4len) && allFF (take 12 mask)
    then drop 12 mask else mask in
  let ip :=
    if (len mask =? IPv4len) && (len ip =? IPv6len)
       && bytesEqual (take 12 ip) v4InV6Prefix
    then drop 12 ip else ip in
  if negb (len ip =? len mask) then []
  else zip_with Z.land ip mask.

(** [ip.Equal(x)]: an IPv4 address and its 16-byte form are equal. *)
Definition IP_Equal (ip x : list Z) : bool :=
  if len ip =? len x then bytesEqual ip x
  else if (len ip =? IPv4len) && (len x =? IPv6len)
       then bytesEqual (take 12 x) v4InV6Prefix && bytesEqual ip (drop 12 x)
  else if (len ip =? IPv6len) && (len x =? IPv4len)
       then bytesEqual (take 12 ip) v4InV6Prefix && bytesEqual (drop 12 ip) x
  else false.

(** Modelled from the spec: [packUint16] and [unpackUint16] are helpers of
    the message codec, which is not among the sources; the wire format of
    the spec puts 16-bit fields in big-endian order. *)
Definition packUint16 (i : Z) : Z * Z := (byte (Z.shiftr i 8), byte i).

Definition idx (b : list Z) (i : nat) : Z := nth i b 0.

Definition unpackUint16 (msg : list Z) (off : nat) : Z * nat :=
  (Z.lor (uint16 (Z.shiftl (uint16 (idx msg off)) 8)) (uint16 (idx msg (off + 1))),
   (off + 2)%nat).

(** ** pack and unpack *)

Definition NSID_pack (e : EDNS0_NSID) : outcome (list Z) :=
  match hex_DecodeString (Nsid e) with
  | None => Fail hex_error
  | Some h => Ok h
  end.

Definition NSID_unpack (e : EDNS0_NSID) (b : list Z) : outcome EDNS0_NSID :=
  Ok (mkNSID (nsid_Code e) (hex_EncodeToString b)).

(** The copy loop of [EDNS0_SUBNET.pack]:
    [for i := 0; i < n; i++ { if i+1 > len(e.Address) { break }; ip[i] = a[i] }];
    [todo] counts the iterations left. *)
Fixpoint copy_ip (todo i : nat) (addr a ip : list Z) : outcome (list Z) :=
  match todo with
  | O => Ok ip
  | S todo' =>
      if len addr <? Z.of_nat i + 1 then Ok ip
      else match a !! i with
           | None => Panic
           | Some x => copy_ip todo' (S i) addr a (<[i := x]> ip)
           end
  end.

Definition SUBNET_pack (e : EDNS0_SUBNET) : outcome (list Z) :=
  let '(b0, b1) := packUint16 (Family e) in
  let b := [b0; b1; SourceNetmask e; SourceScope e] in
  if Family e =? 1 then
    if IPv4len * 8 <? SourceNetmask e then Fail (errors_New "bad netmask")
    else
      let ip := replicate (Z.to_nat IPv4len) 0 in
      let a := Mask (To4 (Address e)) (CIDRMask (SourceNetmask e) (IPv4len * 8)) in
      do ip <- copy_ip (Z.to_nat IPv4len) 0 (Address e) a ip;
      Ok (b ++ ip)
  else if Family e =? 2 then
    if IPv6len * 8 <? SourceNetmask e then Fail (errors_New "bad netmask")
    else
      let ip := replicate (Z.to_nat IPv6len) 0 in
      let a := Mask (Address e) (CIDRMask (SourceNetmask e) (IPv6len * 8)) in
      do ip <- copy_ip (Z.to_nat IPv6len) 0 (Address e) a ip;
      Ok (b ++ ip)
  else Fail (errors_New "bad address family").

Definition SUBNET_unpack (e : EDNS0_SUBNET) (b : list Z) : outcome EDNS0_SUBNET :=
  if len b <? 8 then Ok e
  else
    let family := fst (unpackUint16 b 0) in
    let e := mkSUBNET (subnet_Code e) family (idx b 2) (idx b 3) (Address e) in
    if family =? 1 then
      if len b =? 8
      then Ok (mkSUBNET (subnet_Code e) family (idx b 2) (idx b 3)
                 (net_IPv4 (idx b 4) (idx b 5) (idx b 6) (idx b 7)))
      else Ok e
    else if family =? 2 then
      if len b =? 20
      then Ok (mkSUBNET (subnet_Code e) family (idx b 2) (idx b 3)
                 (map (fun i => idx b (4 + i)%nat) (seq 0 16)))
      else Ok e
    else Ok e.

Definition UPDATE_LEASE_pack (e : EDNS0_UPDATE_LEASE) : outcome (list Z) :=
  Ok [byte (Z.shiftr (Lease e) 24); byte (Z.shiftr (Lease e) 16);
      byte (Z.shiftr (Lease e) 8); byte (Lease e)].

(** Reading [b[i]] panics when [i] is out of range. *)
Definition at_ (b : list Z) (i : nat) : outcome Z :=
  match b !! i with
  | Some x => Ok x
  | None => Panic
  end.

(** [uint32(b[i])<<24 | ... | uint32(b[i+3])] *)
Definition be32 (b : list Z) (i : nat) : outcome Z :=
  do x0 <- at_ b i;
  do x1 <- at_ b (i + 1);
  do x2 <- at_ b (i + 2);
  do x3 <- at_ b (i + 3);
  Ok (Z.lor (Z.lor (Z.lor (uint32 (Z.shiftl (uint32 x0) 24))
                          (uint32 (Z.shiftl (uint32 x1) 16)))
                   (uint32 (Z.shiftl (uint32 x2) 8)))
            (uint32 x3)).

Definition be16 (b : list Z) (i : nat) : outcome Z :=
  do x0 <- at_ b i;
  do x1 <- at_ b (i + 1);
  Ok (Z.lor (uint16 (Z.shiftl (uint16 x0) 8)) (uint16 x1)).

Definition be64 (b : list Z) (i : nat) : outcome Z :=
  do x0 <- at_ b i;
  do x1 <- at_ b (i + 1);
  do x2 <- at_ b (i + 2);
  do x3 <- at_ b (i + 3);
  do x4 <- at_ b (i + 4);
  do x5 <- at_ b (i + 5);
  do x6 <- at_ b (i + 6);
  do x7 <- at_ b (i + 7);
  Ok (Z.lor (Z.lor (Z.lor (Z.lor (Z.lor (Z.lor (Z.lor
        (uint64 (Z.shiftl (uint64 x0) 56))
        (uint64 (Z.shiftl (uint64 x1) 48)))
        (uint64 (Z.shiftl (uint64 x2) 40)))
        (uint64 (Z.shiftl (uint64 x3) 32)))
        (uint64 (Z.shiftl (uint64 x4) 24)))
        (uint64 (Z.shiftl (uint64 x5) 16)))
        (uint64 (Z.shiftl (uint64 x6) 8)))
        (uint64 x7)).

Definition UPDATE_LEASE_unpack (e : EDNS0_UPDATE_LEASE) (b : list Z)
  : outcome EDNS0_UPDATE_LEASE :=
  do l <- be32 b 0;
  Ok (mkUL (ul_Code e) l).

Definition LLQ_pack (e : EDNS0_LLQ) : outcome (list Z) :=
  Ok [byte (Z.shiftr (Version e) 8); byte (Version e);
      byte (Z.shiftr (LLQOpcode e) 8); byte (LLQOpcode e);
      byte (Z.shiftr (ErrorCode e) 8); byte (ErrorCode e);
      byte (Z.shiftr (LLQID e) 56); byte (Z.shiftr (LLQID e) 48);
      byte (Z.shiftr (LLQID e) 40); byte (Z.shiftr (LLQID e) 32);
      byte (Z.shiftr (LLQID e) 24); byte (Z.shiftr (LLQID e) 16);
      byte (Z.shiftr (LLQID e) 8); byte (LLQID e);
      byte (Z.shiftr (LeaseLife e) 24); byte (Z.shiftr (LeaseLife e) 16);
      byte (Z.shiftr (LeaseLife e) 8); byte (LeaseLife e)].

Definition LLQ_unpack (e : EDNS0_LLQ) (b : list Z) : outcome EDNS0_LLQ :=
  do v <- be16 b 0;
  do o <- be16 b 2;
  do c <- be16 b 4;
  do i <- be64 b 6;
  do l <- be32 b 14;
  Ok (mkLLQ (llq_Code e) v o c i l).

(** Dispatch on the dynamic type, as a call through the interface does. *)
Definition pack (o : EDNS0) : outcome (list Z) :=
  match o with
  | O_NSID e => NSID_pack e
  | O_SUBNET e => SUBNET_pack e
  | O_UPDATE_LEASE e => UPDATE_LEASE_pack e
  | O_LLQ e => LLQ_pack e
  end.

(** [o.unpack(b)] updates the receiver [o] in place. *)
Definition unpack (o : EDNS0) (b : list Z) : outcome EDNS0 :=
  match o with
  | O_NSID e => do e' <- NSID_unpack e b; Ok (O_NSID e')
  | O_SUBNET e => do e' <- SUBNET_unpack e b; Ok (O_SUBNET e')
  | O_UPDATE_LEASE e => do e' <- UPDATE_LEASE_unpack e b; Ok (O_UPDATE_LEASE e')
  | O_LLQ e => do e' <- LLQ_unpack e b; Ok (O_LLQ e')
  end.

(** The option code, as the method [Option()] returns it. *)
Definition Option_code (o : EDNS0) : Z :=
  match o with
  | O_NSID _ => EDNS0NSID
  | O_SUBNET _ => EDNS0SUBNET
  | O_UPDATE_LEASE _ => EDNS0UPDATELEASE
  | O_LLQ _ => EDNS0LLQ
  end.

(** ** Values on which pack and unpack are inverse *)

Definition lower_hex (c : ascii) : bool :=
  let n := Z.of_N (N_of_ascii c) in
  ((48 <=? n) && (n <=? 57)) || ((97 <=? n) && (n <=? 102)).

(** An even number of lower-case hexadecimal digits. *)
Fixpoint lower_hex_pairs (s : string) : bool :=
  match s with
  | EmptyString => true
  | String p (String q rest) => lower_hex p && lower_hex q && lower_hex_pairs rest
  | String _ EmptyString => false
  end.

(** The fields fit their Go types. *)
Definition fits (o : EDNS0) : Prop :=
  match o with
  | O_NSID e => True
  | O_SUBNET e =>
      0 <= Family e < 2 ^ 16 /\ 0 <= SourceNetmask e < 2 ^ 8 /\
      0 <= SourceScope e < 2 ^ 8 /\ bytes_ok (Address e)
  | O_UPDATE_LEASE e => 0 <= Lease e < 2 ^ 32
  | O_LLQ e =>
      0 <= Version e < 2 ^ 16 /\ 0 <= LLQOpcode e < 2 ^ 16 /\
      0 <= ErrorCode e < 2 ^ 16 /\ 0 <= LLQID e < 2 ^ 64 /\
      0 <= LeaseLife e < 2 ^ 32
  end.

(** The values that pack and unpack reproduce: an NSID in lower-case
    hexadecimal, a SUBNET whose address has the width of its family and no
    bit set beyond the source netmask. *)
Definition canonical (o : EDNS0) : Prop :=
  match o with
  | O_NSID e => lower_hex_pairs (Nsid e) = true
  | O_SUBNET e =>
      (Family e = 1 /\ SourceNetmask e <= 32 /\
       len (To4 (Address e)) = 4 /\
       Mask (To4 (Address e)) (CIDRMask (SourceNetmask e) 32) = To4 (Address e))
      \/
      (Family e = 2 /\ SourceNetmask e <= 128 /\
       len (Address e) = 16 /\
       Mask (Address e) (CIDRMask (SourceNetmask e) 128) = Address e)
  | O_UPDATE_LEASE e => True
  | O_LLQ e => True
  end.

(** [r] is a receiver for unpacking a value like [o]: the same dynamic type
    and the same [Code], which unpack never writes. *)
Definition receiver_for (o r : EDNS0) : Prop :=
  match o, r with
  | O_NSID a, O_NSID b => nsid_Code a = nsid_Code b
  | O_SUBNET a, O_SUBNET b => subnet_Code a = subnet_Code b
  | O_UPDATE_LEASE a, O_UPDATE_LEASE b => ul_Code a = ul_Code b
  | O_LLQ a, O_LLQ b => llq_Code a = llq_Code b
  | _, _ => False
  end.

(** Equality of options, with addresses compared by [IP.Equal]. *)
Definition EDNS0_equal (x y : EDNS0) : Prop :=
  match x, y with
  | O_SUBNET a, O_SUBNET b =>
      subnet_Code a = subnet_Code b /\ Family a = Family b /\
      SourceNetmask a = SourceNetmask b /\ SourceScope a = SourceScope b /\
      IP_Equal (Address a) (Address b) = true
  | _, _ => x = y
  end.

(** The values the round-trip law of the spec ranges over: any NSID,
    UPDATE-LEASE or LLQ, and a SUBNET of family 1 or 2 whose netmask is within
    the address width of the family. *)
Definition recognized (o : EDNS0) : Prop :=
  match o with
  | O_SUBNET e =>
      (Family e = 1 /\ SourceNetmask e <= 32) \/
      (Family e = 2 /\ SourceNetmask e <= 128)
  | _ => True
  end.

(** The SUBNET option of scenario S6: 192.0.2.77/24. *)
Definition subnet_S6 : EDNS0_SUBNET :=
  mkSUBNET EDNS0SUBNET 1 24 0 (net_IPv4 192 0 2 77).

End Edns.

(** * Owner names and radix keys *)

Module Names.

Definition dot : ascii := "."%char.
Definition backslash : ascii := "\"%char.

Definition code (c : ascii) : Z := Z.of_N (N_of_ascii c).

(** [strings.ToLower] on the bytes of a name: the ASCII capitals are
    mapped to lower case, every other byte is left as it is. *)
Definition lower_byte (c : ascii) : ascii :=
  if (65 <=? code c) && (code c <=? 90)
  then ascii_of_N (Z.to_N (code c + 32)) else c.

Fixpoint ToLower (s : string) : string :=
  match s with
  | EmptyString => EmptyString
  | String c rest => String (lower_byte c) (ToLower rest)
  end.

(** [d[lo:hi]] for [lo <= hi <= len(d)]. *)
Definition slice (d : string) (lo hi : nat) : string :=
  substring lo (hi - lo) d.

(** The loop of [toRadixName]. [rest] is [d[i:]]; the result is the final
    value of [s]. A dot is a label boundary when
    [lastbyte != '\\'], or [lastbyte == '\\' && lastlastbyte == '\\']; at a
    boundary the [continue] skips the update of [lastbyte] and
    [lastlastbyte]. *)
Fixpoint radix_loop (d rest : string) (i lastdot : nat)
    (lastbyte lastlastbyte : ascii) (s : string) : string :=
  match rest with
  | EmptyString => s
  | String c rest' =>
      if Ascii.eqb c dot
         && (negb (Ascii.eqb lastbyte backslash)
             || (Ascii.eqb lastbyte backslash && Ascii.eqb lastlastbyte backslash))
      then radix_loop d rest' (S i) (S i) lastbyte lastlastbyte
             (slice d lastdot i +:+ "." +:+ s)
      else radix_loop d rest' (S i) lastdot c lastbyte s
  end.

Definition ends_with_dot (d : string) : bool :=
  match String.get (String.length d - 1) d with
  | Some c => Ascii.eqb c dot
  | None => false
  end.

(** [toRadixName]. The final [s[:len(s)-1]] panics when [s] is empty. *)
Definition toRadixName (d : string) : outcome string :=
  if String.eqb d "" || String.eqb d "." then Ok "."
  else
    let d := if ends_with_dot d then d else d +:+ "." in
    let s := radix_loop d d 0 0 Ascii.zero Ascii.zero "" in
    match String.length s with
    | O => Panic
    | S n => Ok ("." +:+ ToLower (slice s 0 n))
    end.

Fixpoint no_backslash (s : string) : bool :=
  match s with
  | EmptyString => true
  | String c rest => negb (Ascii.eqb c backslash) && no_backslash rest
  end.

Fixpoint has_dot (s : string) : bool :=
  match s with
  | EmptyString => false
  | String c rest => Ascii.eqb c dot || has_dot rest
  end.

(** ** Canonical order, as the spec words it *)

(** The labels of a name: an unescaped dot ends a label, a backslash takes
    the byte after it into the label, whatever that byte is. *)
Fixpoint labels_from (s cur : string) : list string :=
  match s with
  | EmptyString => if String.eqb cur "" then [] else [cur]
  | String c rest =>
      if Ascii.eqb c backslash then
        match rest with
        | EmptyString => [cur +:+ String c EmptyString]
        | String c' rest' =>
            labels_from rest' (cur +:+ String c (String c' EmptyString))
        end
      else if Ascii.eqb c dot then cur :: labels_from rest ""
      else labels_from rest (cur +:+ String c EmptyString)
  end.

(** The root has no label. *)
Definition labels (d : string) : list string :=
  if String.eqb d "." then [] else labels_from d "".

(** Label by label, each label as a string of bytes; a name that runs out
    of labels first sorts first. *)
Fixpoint labels_compare (x y : list string) : comparison :=
  match x, y with
  | [], [] => Eq
  | [], _ :: _ => Lt
  | _ :: _, [] => Gt
  | a :: x', b :: y' =>
      match String.compare a b with
      | Eq => labels_compare x' y'
      | c => c
      end
  end.

(** DNSSEC canonical order: the order of the label-reversed, lower-cased
    names. *)
Definition canonical_key (d : string) : list string :=
  rev (map ToLower (labels d)).

Definition canonical_lt (a b : string) : Prop :=
  labels_compare (canonical_key a) (canonical_key b) = Lt.

(** Byte-wise order of radix keys. *)
Definition key_lt (a b : string) : Prop := String.compare a b = Lt.

End Names.

(** * The zone store *)

Module Zone.
Import Names.

(** Modelled from the spec: the RR type codes, the class and the SEP flag
    are constants of the package declared outside the sources at hand; they
    have the values the DNS protocol assigns them. *)
Definition TypeNS : Z := 2.
Definition TypeSOA : Z := 6.
Definition TypeDS : Z := 43.
Definition TypeRRSIG : Z := 46.
Definition TypeNSEC : Z := 47.
Definition TypeDNSKEY : Z := 48.
Definition ClassINET : Z := 1.
Definition SEP : Z := 1.

(** Modelled from the spec: [year68], the 68-year wrap-around of the
    32-bit time stamps, in seconds. *)
Definition year68 : Z := 2 ^ 31.

(** ** Resource records *)

Definition ptr : Type := nat.

Record RRSIG : Type := mkRRSIG {
  sig_ptr : ptr;
  sig_Hdr : RR_Header;
  TypeCovered : Z;     (* uint16 *)
  sig_Algorithm : Z;   (* uint8 *)
  Labels : Z;          (* uint8 *)
  OrigTtl : Z;         (* uint32 *)
  Expiration : Z;      (* uint32 *)
  Inception : Z;       (* uint32 *)
  KeyTag : Z;          (* uint16 *)
  SignerName : string;
  Signature : string
}.

Record DNSKEY : Type := mkDNSKEY {
  key_ptr : ptr;
  key_Hdr : RR_Header;
  Flags : Z;           (* uint16 *)
  Protocol : Z;        (* uint8 *)
  Algorithm : Z;       (* uint8 *)
  PublicKey : string
}.

(** The [RR] interface: a pointer to a record of one of the RR types. Only
    the fields the zone code reads are kept. *)
Inductive RR : Type :=
| RR_SOA (p : ptr) (h : RR_Header) (Minttl : Z)
| RR_NSEC (p : ptr) (h : RR_Header) (NextDomain : string) (TypeBitMap : list Z)
| RR_DNSKEY (k : DNSKEY)
| RR_DS (p : ptr) (h : RR_Header)
| RR_RRSIG (s : RRSIG)
| RR_other (p : ptr) (h : RR_Header).

Definition Header (r : RR) : RR_Header :=
  match r with
  | RR_SOA _ h _ | RR_NSEC _ h _ _ | RR_DS _ h | RR_other _ h => h
  | RR_DNSKEY k => key_Hdr k
  | RR_RRSIG s => sig_Hdr s
  end.

Definition address (r : RR) : ptr :=
  match r with
  | RR_SOA p _ _ | RR_NSEC p _ _ _ | RR_DS p _ | RR_other p _ => p
  | RR_DNSKEY k => key_ptr k
  | RR_RRSIG s => sig_ptr s
  end.

(** The dynamic type of an interface value. *)
Definition dyntype (r : RR) : nat :=
  match r with
  | RR_SOA _ _ _ => 0
  | RR_NSEC _ _ _ _ => 1
  | RR_DNSKEY _ => 2
  | RR_DS _ _ => 3
  | RR_RRSIG _ => 4
  | RR_other _ _ => 5
  end%nat.

(** [r == zr] on interface values holding pointers: the same dynamic type
    and the same address. *)
Definition RR_eq (r zr : RR) : bool :=
  Nat.eqb (dyntype r) (dyntype zr) && Nat.eqb (address r) (address zr).

Definition PrivateKey : Type := list Z.

(** ** The node of an owner name *)

Record ZoneData : Type := mkZoneData {
  zd_Name : string;
  zd_RR : gmap Z (list RR);
  zd_Signatures : gmap Z (list RRSIG);
  zd_NonAuth : bool
}.

Definition NewZoneData (s : string) : ZoneData := mkZoneData s ∅ ∅ false.

Definition set_RR (zd : ZoneData) (m : gmap Z (list RR)) : ZoneData :=
  mkZoneData (zd_Name zd) m (zd_Signatures zd) (zd_NonAuth zd).

Definition set_Signatures (zd : ZoneData) (m : gmap Z (list RRSIG)) : ZoneData :=
  mkZoneData (zd_Name zd) (zd_RR zd) m (zd_NonAuth zd).

Definition set_NonAuth (zd : ZoneData) (b : bool) : ZoneData :=
  mkZoneData (zd_Name zd) (zd_RR zd) (zd_Signatures zd) b.

(** [m[k]] of a Go map of slices: [nil] for a missing key. *)
Definition slice_at {A} (m : gmap Z (list A)) (k : Z) : list A :=
  default [] (m !! k).

(** ** The radix tree *)

(** Modelled from the spec: the radix tree is the external package
    [github.com/miekg/radix]; by section 4.2 it is an ordered associative
    container from keys to nodes, with exact and nearest-ancestor lookup,
    insertion that keeps an existing node, removal of the exact match and an
    in-order successor that wraps around. It is kept as the list of its
    bindings in increasing order of the keys. *)
Definition RadixTree : Type := list (string * ZoneData).

Fixpoint radix_lookup (t : RadixTree) (key : string) : option ZoneData :=
  match t with
  | [] => None
  | (k, v) :: t' => if String.eqb k key then Some v else radix_lookup t' key
  end.

(** The binding with the longest key that is a prefix of [key]. *)
Fixpoint radix_ancestor (t : RadixTree) (key : string)
    (best : option (string * ZoneData)) : option (string * ZoneData) :=
  match t with
  | [] => best
  | (k, v) :: t' =>
      let longer :=
        match best with
        | None => true
        | Some (k', _) => Nat.ltb (String.length k') (String.length k)
        end in
      radix_ancestor t' key
        (if String.prefix k key && longer then Some (k, v) else best)
  end.

Definition radix_Find (t : RadixTree) (key : string)
  : option (string * ZoneData) * bool :=
  match radix_lookup t key with
  | Some v => (Some (key, v), true)
  | None => (radix_ancestor t key None, false)
  end.

Fixpoint radix_Insert (t : RadixTree) (key : string) (v : ZoneData) : RadixTree :=
  match t with
  | [] => [(key, v)]
  | (k, v') :: t' =>
      match String.compare key k with
      | Lt => (key, v) :: (k, v') :: t'
      | Eq => (k, v') :: t'
      | Gt => (k, v') :: radix_Insert t' key v
      end
  end.

Fixpoint radix_Remove (t : RadixTree) (key : string) : RadixTree :=
  match t with
  | [] => []
  | (k, v) :: t' =>
      if String.eqb k key then t' else (k, v) :: radix_Remove t' key
  end.

(** Writing through the pointer held by the node of [key]. *)
Fixpoint radix_store (t : RadixTree) (key : string) (v : ZoneData) : RadixTree :=
  match t with
  | [] => []
  | (k, v') :: t' =>
      if String.eqb k key then (k, v) :: t' else (k, v') :: radix_store t' key v
  end.

(** The in-order successor of the node of [key], the first node after
    the last one. *)
Fixpoint radix_after (t : RadixTree) (key : string) : option (string * ZoneData) :=
  match t with
  | [] => None
  | (k, v) :: t' =>
      match String.compare k key with
      | Gt => Some (k, v)
      | _ => radix_after t' key
      end
  end.

Definition radix_Next (t : RadixTree) (key : string) : option (string * ZoneData) :=
  match radix_after t key with
  | Some n => Some n
  | None => head t
  end.

(** ** The zone *)

Record Zone : Type := mkZone {
  Origin : string;
  olabels : list string;
  Wildcard : Z;            (* int *)
  expired : bool;
  ModTime : Z;             (* time.Time, in nanoseconds since the epoch *)
  Radix : RadixTree
}.

Definition set_ModTime (z : Zone) (t : Z) : Zone :=
  mkZone (Origin z) (olabels z) (Wildcard z) (expired z) t (Radix z).

Definition set_Wildcard (z : Zone) (w : Z) : Zone :=
  mkZone (Origin z) (olabels z) w (expired z) (ModTime z) (Radix z).

Definition set_Radix (z : Zone) (t : RadixTree) : Zone :=
  mkZone (Origin z) (olabels z) (Wildcard z) (expired z) (ModTime z) t.

(** ** What the zone code calls *)

(** The functions of the package and of its libraries that the zone code
    calls and whose code is not at hand. *)
Record Env : Type := mkEnv {
  SplitLabels : string -> list string;
  IsDomainName : string -> bool;
  Fqdn : string -> string;
  (* [k.KeyTag()] *)
  DNSKEY_KeyTag : DNSKEY -> Z;
  (* [s.Sign(p, rrset)]: the signature record filled in, or an error *)
  RRSIG_Sign : RRSIG -> PrivateKey -> list RR -> outcome RRSIG;
  (* the result of the [i]-th call of [rand.Intn], on argument [n] *)
  Intn : nat -> Z -> Z;
  (* [runtime.NumCPU()] *)
  NumCPU : Z
}.

(** The state threaded through a signing pass: the next free address and
    the number of calls of [rand.Intn] made so far. *)
Record World : Type := mkWorld {
  next_ptr : ptr;
  rand_calls : nat
}.

Definition NewZone (E : Env) (origin : string) (now : Z) : option Zone :=
  let origin := if String.eqb origin "" then "." else origin in
  if negb (IsDomainName E origin) then None
  else
    let o := Fqdn E (ToLower origin) in
    Some (mkZone o (SplitLabels E o) 0 false now []).

(** The loop of [compareLabelsSlice]; [x1] and [x2] run down from the last
    labels. *)
Fixpoint compareLabels_loop (fuel : nat) (l1 l2 : list string) (x1 x2 n : Z) : Z :=
  match fuel with
  | O => n
  | S fuel' =>
      if (x1 <? 0) || (x2 <? 0) then n
      else if String.eqb (nth (Z.to_nat x1) l1 "") (nth (Z.to_nat x2) l2 "")
           then compareLabels_loop fuel' l1 l2 (x1 - 1) (x2 - 1) (n + 1)
           else n
  end.

Definition compareLabelsSlice (E : Env) (l1 : list string) (s2 : string) : Z :=
  let l2 := SplitLabels E s2 in
  compareLabels_loop (S (length l1)) l1 l2 (len l1 - 1) (len l2 - 1) 0.

Definition isSubDomain (E : Env) (z : Zone) (child : string) : bool :=
  compareLabelsSlice E (olabels z) (ToLower child) =? len (olabels z).

(** [len(name) > 1 && name[0] == '*' && name[1] == '.'] *)
Definition is_wildcard (name : string) : bool :=
  match name with
  | String c0 (String c1 _) => Ascii.eqb c0 "*"%char && Ascii.eqb c1 dot
  | _ => false
  end.

(** The [switch] on the RR type that [Insert] runs on the node, new or
    found. The type assertion of [r] to [*RRSIG] panics when [r] is of
    another type. *)
Definition insert_rr (origin : string) (zd : ZoneData) (r : RR) : outcome ZoneData :=
  let t := Rrtype (Header r) in
  if t =? TypeRRSIG then
    match r with
    | RR_RRSIG sig =>
        let sigtype := TypeCovered sig in
        Ok (set_Signatures zd
              (<[sigtype := slice_at (zd_Signatures zd) sigtype ++ [sig]]>
                 (zd_Signatures zd)))
    | _ => Panic
    end
  else
    let zd := if (t =? TypeNS) && negb (String.eqb (Name (Header r)) origin)
              then set_NonAuth zd true else zd in
    Ok (set_RR zd (<[t := slice_at (zd_RR zd) t ++ [r]]> (zd_RR zd))).

Definition Insert (E : Env) (z : Zone) (r : RR) (now : Z) : outcome Zone :=
  let name := Name (Header r) in
  if negb (isSubDomain E z name)
  then Fail (Error_ "out of zone data" name)
  else
    do key <- toRadixName name;
    let z := set_ModTime z now in
    match radix_Find (Radix z) key with
    | (Some (_, zd), true) =>
        do zd' <- insert_rr (Origin z) zd r;
        Ok (set_Radix z (radix_store (Radix z) key zd'))
    | _ =>
        let z := if is_wildcard name then set_Wildcard z (Wildcard z + 1) else z in
        do zd <- insert_rr (Origin z) (NewZoneData name) r;
        Ok (set_Radix z (radix_Insert (Radix z) key zd))
    end.

(** The Go idiom
    [for i, x := range s { if P(x) { s = append(s[:i], s[i+1:]...) } }].
    The range runs over the length the slice had on entry and reads the
    shared array [arr]; [ln] is the current length of [s]. Deleting at [i]
    moves [arr[i+1:ln]] one place down inside the array and leaves the places
    from [ln-1] on as they were; [s[i+1:]] panics when [i+1 > ln]. *)
Fixpoint range_delete {A} (P : A -> bool) (todo i : nat) (arr : list A)
    (ln : nat) (removed : bool) : outcome (list A * nat * bool) :=
  match todo with
  | O => Ok (arr, ln, removed)
  | S todo' =>
      match arr !! i with
      | None => Panic
      | Some x =>
          if P x then
            if Nat.ltb ln (i + 1) then Panic
            else range_delete P todo' (S i)
                   (take i arr ++ drop (S i) (take ln arr) ++ drop (ln - 1) arr)
                   (ln - 1) true
          else range_delete P todo' (S i) arr ln removed
      end
  end.

(** The slice left by the idiom, and whether anything was deleted. *)
Definition delete_matching {A} (P : A -> bool) (s : list A) : outcome (list A * bool) :=
  do (arr, ln, removed) <- range_delete P (length s) 0 s (length s) false;
  Ok (take ln arr, removed).

Definition Remove (E : Env) (z : Zone) (r : RR) (now : Z) : outcome Zone :=
  let name := Name (Header r) in
  do key <- toRadixName name;
  let z := set_ModTime z now in
  match radix_Find (Radix z) key with
  | (Some (_, zd), true) =>
      let t := Rrtype (Header r) in
      do (zd, remove) <-
        (if t =? TypeRRSIG then
           match r with
           | RR_RRSIG sig =>
               let sigtype := TypeCovered sig in
               do (l, remove) <-
                 delete_matching (fun zr => RR_eq r (RR_RRSIG zr))
                   (slice_at (zd_Signatures zd) sigtype);
               if remove then
                 Ok (set_Signatures zd
                       (if Nat.eqb (length l) 0
                        then delete sigtype (zd_Signatures zd)
                        else <[sigtype := l]> (zd_Signatures zd)), true)
               else Ok (zd, false)
           | _ => Panic
           end
         else
           do (l, remove) <-
             delete_matching (fun zr => RR_eq r zr) (slice_at (zd_RR zd) t);
           if remove then
             Ok (set_RR zd
                   (if Nat.eqb (length l) 0
                    then delete t (zd_RR zd)
                    else <[t := l]> (zd_RR zd)), true)
           else Ok (zd, false));
      if negb remove then Ok z
      else
        let z := if is_wildcard name
                 then set_Wildcard z (Z.max 0 (Wildcard z - 1)) else z in
        if (size (zd_RR zd) =? 0)%nat && (size (zd_Signatures zd) =? 0)%nat
        then Ok (set_Radix z (radix_Remove (Radix z) key))
        else Ok (set_Radix z (radix_store (Radix z) key zd))
  | _ => Ok z
  end.

Definition RemoveName (E : Env) (z : Zone) (s : string) (now : Z) : outcome Zone :=
  do key <- toRadixName s;
  let z := set_ModTime z now in
  let z := set_Radix z (radix_Remove (Radix z) key) in
  Ok (if is_wildcard s then set_Wildcard z (Z.max 0 (Wildcard z - 1)) else z).

(** In the [default] branch the loop variable [t] shadows the parameter:
    [for t, _ := range RR { delete(RR, t) }]. *)
Definition RemoveRRset (E : Env) (z : Zone) (s : string) (t : Z) (now : Z)
  : outcome Zone :=
  let z := set_ModTime z now in
  do key <- toRadixName s;
  match radix_Find (Radix z) key with
  | (Some (_, zd), true) =>
      let zd :=
        if t =? TypeRRSIG
        then set_Signatures zd
               (foldr (fun covert m => delete covert m) (zd_Signatures zd)
                      (map fst (map_to_list (zd_Signatures zd))))
        else set_RR zd
               (foldr (fun t m => delete t m) (zd_RR zd)
                      (map fst (map_to_list (zd_RR zd)))) in
      Ok (set_Radix z (radix_store (Radix z) key zd))
  | _ => Ok z
  end.

Definition Find (z : Zone) (s : string) : outcome (option ZoneData * bool) :=
  do key <- toRadixName s;
  match radix_Find (Radix z) key with
  | (None, _) => Ok (None, false)
  | (Some (_, n), e) => Ok (Some n, e)
  end.

Definition Apex (z : Zone) : outcome (option ZoneData) :=
  do (apex, e) <- Find z (Origin z);
  if negb e then Ok None else Ok apex.

(** The number of nodes of the tree whose leftmost label is [*]. *)
Definition wildcard_nodes (z : Zone) : Z :=
  len (filter (fun kv => is_wildcard (zd_Name (snd kv)) = true) (Radix z)).

(** The mutators of the zone, for sequences of operations. *)
Inductive op : Type :=
| OpInsert (r : RR)
| OpRemove (r : RR)
| OpRemoveName (s : string)
| OpRemoveRRset (s : string) (t : Z).

Definition apply_op (E : Env) (z : Zone) (o : op) (now : Z) : outcome Zone :=
  match o with
  | OpInsert r => Insert E z r now
  | OpRemove r => Remove E z r now
  | OpRemoveName s => RemoveName E z s now
  | OpRemoveRRset s t => RemoveRRset E z s t now
  end.

(** A sequence of operations, the clock advancing by one between them. An
    operation that returns an error has not touched the zone; a panic ends
    the run. *)
Fixpoint apply_ops (E : Env) (z : Zone) (os : list op) (now : Z) : outcome Zone :=
  match os with
  | [] => Ok z
  | o :: os' =>
      match apply_op E z o now with
      | Ok z' => apply_ops E z' os' (now + 1)
      | Fail _ => apply_ops E z os' (now + 1)
      | Panic => Panic
      | Hang => Hang
      end
  end.

(** ** The signer *)

(** Durations and times are counted in nanoseconds. *)
Definition Second : Z := 1000000000.
Definition Hour : Z := 3600 * Second.

Record SignatureConfig : Type := mkConfig {
  Validity : Z;
  Refresh : Z;
  Jitter : Z;
  InceptionOffset : Z;
  HonorSepFlag : bool;
  SignerRoutines : Z;
  Minttl : Z
}.

Definition set_Minttl (c : SignatureConfig) (m : Z) : SignatureConfig :=
  mkConfig (Validity c) (Refresh c) (Jitter c) (InceptionOffset c)
           (HonorSepFlag c) (SignerRoutines c) m.

Definition set_HonorSepFlag (c : SignatureConfig) (b : bool) : SignatureConfig :=
  mkConfig (Validity c) (Refresh c) (Jitter c) (InceptionOffset c)
           b (SignerRoutines c) (Minttl c).

Definition newSignatureConfig (E : Env) : SignatureConfig :=
  mkConfig (4 * 7 * 24 * Hour) (3 * 24 * Hour) (12 * Hour) (300 * Second)
           true (NumCPU E + 1) 0.

Definition DefaultSignatureConfig (E : Env) : SignatureConfig :=
  newSignatureConfig E.

(** [t.Unix()] *)
Definition Unix (t : Z) : Z := t / Second.

(** [t.Add(d)] *)
Definition Add (t d : Z) : Z := t + d.

(** [t.Sub(u)]: the difference, kept within the range of a [Duration]. *)
Definition Sub (t u : Z) : Z :=
  Z.max (- 2 ^ 63) (Z.min (2 ^ 63 - 1) (t - u)).

(** [mod := (x / year68) - 1; if mod < 0 { mod = 0 }]; the division of Go
    truncates. *)
Definition era (x : Z) : Z :=
  let m := int64 (Z.quot x year68 - 1) in
  if m <? 0 then 0 else m.

Definition timeToUint32 (t : Z) : Z :=
  uint32 (int64 (Unix t - int64 (era (Unix t) * year68))).

(** [time.Unix(0, 0).Add(time.Duration((mod * year68) * int64(t)))], with
    [mod] taken from the clock. *)
Definition uint32ToTime (now : Z) (t : Z) : Z :=
  Add 0 (int64 (int64 (era (Unix now) * year68) * t)).

(** [rand.Intn(n)] panics when [n <= 0]. *)
Definition jitterDuration (E : Env) (w : World) (d : Z) : outcome (Z * World) :=
  if d <=? 0 then Panic
  else
    let jitter := Intn E (rand_calls w) d in
    let coin := Intn E (S (rand_calls w)) 1 in
    let w := mkWorld (next_ptr w) (S (S (rand_calls w))) in
    if coin =? 1 then Ok (jitter, w) else Ok (int64 (- jitter), w).

Fixpoint signatures_from (l : list RRSIG) (keytag : Z) (i : nat)
  : nat * option RRSIG :=
  match l with
  | [] => (O, None)
  | s :: l' =>
      if KeyTag s =? keytag then (i, Some s)
      else signatures_from l' keytag (S i)
  end.

Definition signatures (l : list RRSIG) (keytag : Z) : nat * option RRSIG :=
  signatures_from l keytag 0.

(** [keytags[k]]: the map is keyed by the address of the key; a missing key
    reads as 0. *)
Fixpoint keytag_of (keytags : list (ptr * Z)) (k : DNSKEY) : Z :=
  match keytags with
  | [] => 0
  | (p, tag) :: rest => if Nat.eqb p (key_ptr k) then tag else keytag_of rest k
  end.

(** The scan of the stored bitmap for the type [t]:
    [if v == t { found = true; break }; if v > t { found = false; break }]. *)
Fixpoint found_in (bitmap : list Z) (t : Z) : bool :=
  match bitmap with
  | [] => false
  | v :: rest =>
      if v =? t then true
      else if t <? v then false
      else found_in rest t
  end.

(** The type bitmap computed for a node whose RR map has the keys
    [types]. *)
Definition computed_bitmap (types : list Z) : list Z :=
  merge_sort Z.le
    ([TypeNSEC; TypeRRSIG]
       ++ List.filter (fun t => negb ((t =? TypeNSEC) || (t =? TypeRRSIG))) types).

(** A write through the pointer [p] to an NSEC record reaches every
    occurrence of that pointer in the RRset. *)
Definition write_NSEC (p : ptr) (next : string) (bitmap : list Z) (r : RR) : RR :=
  match r with
  | RR_NSEC p' h _ _ => if Nat.eqb p p' then RR_NSEC p' h next bitmap else r
  | _ => r
  end.

Fixpoint foldM {A S} (f : S -> A -> outcome S) (l : list A) (s : S) : outcome S :=
  match l with
  | [] => Ok s
  | a :: l' => do s' <- f s a; foldM f l' s'
  end.

Definition is_DNSKEY (r : RR) : bool :=
  match r with RR_DNSKEY _ => true | _ => false end.
Definition is_DS (r : RR) : bool :=
  match r with RR_DS _ _ => true | _ => false end.
Definition is_NSEC (r : RR) : bool :=
  match r with RR_NSEC _ _ _ _ => true | _ => false end.

(** [rrset[0]] *)
Definition first_rr (rrset : list RR) : outcome RR :=
  match rrset with
  | [] => Panic
  | r :: _ => Ok r
  end.

(** [now.Sub(uint32ToTime(s.Expiration)) < config.Refresh] *)
Definition due (config : SignatureConfig) (now : Z) (s : RRSIG) : bool :=
  Sub now (uint32ToTime now (Expiration s)) <? Refresh config.

(** The body of the two nested loops of [ZoneData.Sign], for the key [k]
    with private key [p] and the RRset [rrset] of type [t]. *)
Definition sign_rrset (E : Env) (nonauth : bool) (keytags : list (ptr * Z))
    (config : SignatureConfig) (now : Z) (k : DNSKEY) (p : PrivateKey)
    (st : gmap Z (list RRSIG) * World) (entry : Z * list RR)
  : outcome (gmap Z (list RRSIG) * World) :=
  let '(sigs, w) := st in
  let '(t, rrset) := entry in
  do skip_sep <-
    (if Z.land (Flags k) SEP =? SEP
     then do r0 <- first_rr rrset; Ok (negb (is_DNSKEY r0))
     else Ok false);
  if skip_sep then Ok st
  else
    do skip_nonauth <-
      (if nonauth
       then do r0 <- first_rr rrset; Ok (negb (is_DS r0) && negb (is_NSEC r0))
       else Ok false);
    if skip_nonauth then Ok st
    else
      let '(j, q) := signatures (slice_at sigs t) (keytag_of keytags k) in
      let stale :=
        match q with
        | None => true
        | Some q => due config now q
        end in
      if stale then
        let inception := timeToUint32 (Add now (int64 (- InceptionOffset config))) in
        do (jitter, w) <- jitterDuration E w (Jitter config);
        let expiration := timeToUint32 (Add (Add now jitter) (Validity config)) in
        let s := mkRRSIG (next_ptr w)
                   (mkHdr "" 0 ClassINET (Ttl (key_Hdr k)) 0)
                   0 (Algorithm k) 0 0 expiration inception
                   (keytag_of keytags k) (Name (key_Hdr k)) "" in
        let w := mkWorld (S (next_ptr w)) (rand_calls w) in
        do s <- RRSIG_Sign E s p rrset;
        match q with
        | Some _ => Ok (<[t := <[j := s]> (slice_at sigs t)]> sigs, w)
        | None => Ok (<[t := slice_at sigs t ++ [s]]> sigs, w)
        end
      else Ok st.

(** The last loop of [ZoneData.Sign], on one entry of the signature map. *)
Definition drop_due (config : SignatureConfig) (now : Z)
    (sigs : gmap Z (list RRSIG)) (entry : Z * list RRSIG)
  : outcome (gmap Z (list RRSIG)) :=
  let '(i, s) := entry in
  do (l, removed) <- delete_matching (due config now) s;
  Ok (if removed then <[i := l]> sigs else sigs).

(** The first part of [ZoneData.Sign]: the type bitmap is computed, and the
    NSEC of the node is checked against it and against [next], or made.
    [bitmapEqual] stays true when every key of the RR map is found in the
    stored bitmap. [n[0]] panics on an empty RRset and the type assertion
    on a record that is not an NSEC. *)
Definition update_NSEC (node : ZoneData) (next : string)
    (config : SignatureConfig) (w : World) : outcome (ZoneData * World) :=
  let types := map fst (map_to_list (zd_RR node)) in
  let bitmap := computed_bitmap types in
  match zd_RR node !! TypeNSEC with
  | Some n =>
      match n with
      | RR_NSEC p h NextDomain TypeBitMap :: _ =>
          let bitmapEqual := forallb (found_in TypeBitMap) types in
          if negb (String.eqb NextDomain next) || negb bitmapEqual
          then Ok (mkZoneData (zd_Name node)
                     (<[TypeNSEC := map (write_NSEC p next bitmap) n]> (zd_RR node))
                     (<[TypeNSEC := []]> (zd_Signatures node))
                     (zd_NonAuth node), w)
          else Ok (node, w)
      | _ => Panic
      end
  | None =>
      let nsec := RR_NSEC (next_ptr w)
                    (mkHdr (zd_Name node) TypeNSEC ClassINET (Minttl config) 0)
                    next bitmap in
      Ok (mkZoneData (zd_Name node)
            (<[TypeNSEC := [nsec]]> (zd_RR node))
            (<[TypeNSEC := []]> (zd_Signatures node))
            (zd_NonAuth node),
          mkWorld (S (next_ptr w)) (rand_calls w))
  end.

(** [ZoneData.Sign]. *)
Definition ZoneData_Sign (E : Env) (node : ZoneData) (next : string)
    (keys : list (DNSKEY * PrivateKey)) (keytags : list (ptr * Z))
    (config : SignatureConfig) (now : Z) (w : World)
  : outcome (ZoneData * World) :=
  do (node, w) <- update_NSEC node next config w;
  do (sigs, w) <-
    foldM (fun st kp =>
             foldM (sign_rrset E (zd_NonAuth node) keytags config now (fst kp) (snd kp))
                   (map_to_list (zd_RR node)) st)
          keys (zd_Signatures node, w);
  do sigs <- foldM (drop_due config now) (map_to_list sigs) sigs;
  Ok (set_Signatures node sigs, w).

(** The nodes the main loop of [Zone.Sign] hands to the workers after the
    apex: the successors of the apex, in order and wrapping around, up to
    the first node whose [Name] is the origin. [None] when no node of the
    cycle has that name: the loop never ends. *)
Fixpoint walk_until (origin : string) (cycle : list (string * ZoneData))
  : option (list string) :=
  match cycle with
  | [] => None
  | (k, zd) :: rest =>
      if String.eqb (zd_Name zd) origin then Some []
      else option_map (cons k) (walk_until origin rest)
  end.

(** The tree from the successor of [key] on, wrapped around, up to and
    including the node of [key]. *)
Fixpoint split_at (t : RadixTree) (key : string) (before : RadixTree)
  : RadixTree :=
  match t with
  | [] => rev before
  | (k, v) :: t' =>
      if String.eqb k key then t' ++ rev before ++ [(k, v)]
      else split_at t' key ((k, v) :: before)
  end.

(** One worker signing the node of [key]. *)
Definition sign_node (E : Env) (keys : list (DNSKEY * PrivateKey))
    (keytags : list (ptr * Z)) (config : SignatureConfig) (now : Z)
    (st : RadixTree * World) (key : string) : outcome (RadixTree * World) :=
  let '(t, w) := st in
  match radix_lookup t key, radix_Next t key with
  | Some data, Some (_, next) =>
      do (data, w) <- ZoneData_Sign E data (zd_Name next) keys keytags config now w;
      Ok (radix_store t key data, w)
  | _, _ => Panic
  end.

(** [Zone.Sign]. The workers are run as one, which signs the nodes in the
    order in which the main loop queues them and stops at the first error;
    every node reads the clock as [now]. A negative [SignerRoutines] makes
    [make] panic; with no worker the first send blocks for ever. *)
Definition Zone_Sign (E : Env) (z : Zone) (keys : list (DNSKEY * PrivateKey))
    (config : option SignatureConfig) (now : Z) (w : World)
  : outcome (Zone * World) :=
  let z := set_ModTime z now in
  let config := default (DefaultSignatureConfig E) config in
  let keytags := map (fun kp => (key_ptr (fst kp), DNSKEY_KeyTag E (fst kp))) keys in
  if SignerRoutines config <? 0 then Panic
  else
    do key <- toRadixName (Origin z);
    match radix_Find (Radix z) key with
    | (Some (_, apex), true) =>
        do soa <- first_rr (slice_at (zd_RR apex) TypeSOA);
        match soa with
        | RR_SOA _ _ minttl =>
            let config := set_Minttl config minttl in
            if SignerRoutines config =? 0 then Hang
            else
              match walk_until (Origin z) (split_at (Radix z) key []) with
              | None => Hang
              | Some rest =>
                  do (t, w) <- foldM (sign_node E keys keytags config now)
                                 (key :: rest) (Radix z, w);
                  Ok (set_Radix z t, w)
              end
        | _ => Panic
        end
    | _ => Fail ErrSoa
    end.

(** ** Zones, nodes and keys used in the examples *)

(** 30 October 2012, 00:00 UTC. *)
Definition now0 : Z := 1351555200 * Second.

Definition config0 : SignatureConfig :=
  mkConfig (4 * 7 * 24 * Hour) (3 * 24 * Hour) (12 * Hour) (300 * Second)
           false 2 0.

Definition w0 : World := mkWorld 100%nat 0%nat.

(** The root zone, as [NewZone] makes it: the root has no label. *)
Definition root_zone : Zone := mkZone "." [] 0 false 0 [].

Definition wild_A : RR :=
  RR_other 1%nat (mkHdr "*.example.com." 1 ClassINET 300 0).
Definition wild_AAAA : RR :=
  RR_other 2%nat (mkHdr "*.example.com." 28 ClassINET 300 0).

Definition host_A : RR :=
  RR_other 3%nat (mkHdr "a.example.com." 1 ClassINET 300 0).
Definition host_AAAA : RR :=
  RR_other 4%nat (mkHdr "a.example.com." 28 ClassINET 300 0).

(** A zone with the A and AAAA RRsets of [a.example.com.]. *)
Definition zone_host : Zone :=
  mkZone "example.com." ["example"; "com"] 0 false 0
    [(".com.example.a",
      mkZoneData "a.example.com."
        (<[1 := [host_A]]> (<[28 := [host_AAAA]]> ∅)) ∅ false)].

Definition apex_NS : RR :=
  RR_other 5%nat (mkHdr "example.com." TypeNS ClassINET 3600 0).
Definition apex_SOA : RR :=
  RR_SOA 6%nat (mkHdr "example.com." TypeSOA ClassINET 3600 0) 600.

(** A zone whose apex node holds an NS RRset and no SOA. *)
Definition zone_without_SOA : Zone :=
  mkZone "example.com." ["example"; "com"] 0 false 0
    [(".com.example",
      mkZoneData "example.com." (<[TypeNS := [apex_NS]]> ∅) ∅ false)].

(** The zone of scenario S4: SOA and NS at the apex, a TXT record at
    [a.example.com.]. *)
Definition zone_S4 : Zone :=
  mkZone "example.com." ["example"; "com"] 0 false 0
    [(".com.example",
      mkZoneData "example.com."
        (<[TypeSOA := [apex_SOA]]> (<[TypeNS := [apex_NS]]> ∅)) ∅ false);
     (".com.example.a",
      mkZoneData "a.example.com."
        (<[16 := [RR_other 9%nat (mkHdr "a.example.com." 16 ClassINET 300 0)]]> ∅)
        ∅ false)].

(** A key with the SEP flag (flags 257) and one without (flags 256). *)
Definition ksk : DNSKEY :=
  mkDNSKEY 10%nat (mkHdr "example.com." TypeDNSKEY ClassINET 3600 0) 257 3 8 "ksk".
Definition zsk : DNSKEY :=
  mkDNSKEY 11%nat (mkHdr "example.com." TypeDNSKEY ClassINET 3600 0) 256 3 8 "zsk".

(** A signature over the SOA that expired on 1 January 2012, made by a
    key of tag 4242. *)
Definition old_sig : RRSIG :=
  mkRRSIG 7%nat (mkHdr "example.com." TypeRRSIG ClassINET 3600 0)
          TypeSOA 8 2 3600 1325376000 1322697600 4242 "example.com." "old".

Definition config1 : SignatureConfig :=
  mkConfig (4 * 7 * 24 * Hour) (3 * 24 * Hour) (12 * Hour) (300 * Second)
           true 2 0.

(** A zone whose apex holds the SOA only. *)
Definition zone_SOA_bare : Zone :=
  mkZone "example.com." ["example"; "com"] 0 false 0
    [(".com.example",
      mkZoneData "example.com." (<[TypeSOA := [apex_SOA]]> ∅) ∅ false)].

(** A zone whose apex holds the SOA and that signature. *)
Definition zone_SOA : Zone :=
  mkZone "example.com." ["example"; "com"] 0 false 0
    [(".com.example",
      mkZoneData "example.com." (<[TypeSOA := [apex_SOA]]> ∅)
        (<[TypeSOA := [old_sig]]> ∅) false)].

(** The node [a.example.com.] with an A RRset and an NSEC that points to
    [b.example.com.] and still lists the type MX (15). *)
Definition host_NSEC : RR :=
  RR_NSEC 8%nat (mkHdr "a.example.com." TypeNSEC ClassINET 600 0)
          "b.example.com." [1; 15; TypeRRSIG; TypeNSEC].

(** Signatures of the key [zsk], of tag 7, over the A RRset and the NSEC
    of that node, valid until 13 November 2012. *)
Definition valid_sig_A : RRSIG :=
  mkRRSIG 22%nat (mkHdr "a.example.com." TypeRRSIG ClassINET 3600 0)
          1 8 3 300 1352764800 1350345600 7 "example.com." "sigA".
Definition valid_sig_NSEC : RRSIG :=
  mkRRSIG 23%nat (mkHdr "a.example.com." TypeRRSIG ClassINET 3600 0)
          TypeNSEC 8 3 600 1352764800 1350345600 7 "example.com." "sigN".

Definition node_stale_bitmap : ZoneData :=
  mkZoneData "a.example.com."
    (<[1 := [host_A]]> (<[TypeNSEC := [host_NSEC]]> ∅))
    (<[1 := [valid_sig_A]]> (<[TypeNSEC := [valid_sig_NSEC]]> ∅)) false.

(** Signatures of the same key that expired on 23 October 2012, a week
    before [now0]. *)
Definition sig_A : RRSIG :=
  mkRRSIG 20%nat (mkHdr "a.example.com." TypeRRSIG ClassINET 3600 0)
          1 8 3 300 1350950400 1348531200 7 "example.com." "sigA".
Definition sig_NSEC : RRSIG :=
  mkRRSIG 21%nat (mkHdr "a.example.com." TypeRRSIG ClassINET 3600 0)
          TypeNSEC 8 3 600 1350950400 1348531200 7 "example.com." "sigN".

Definition host_NSEC_ok : RR :=
  RR_NSEC 8%nat (mkHdr "a.example.com." TypeNSEC ClassINET 600 0)
          "b.example.com." [1; TypeRRSIG; TypeNSEC].

Definition node_expired_sig : ZoneData :=
  mkZoneData "a.example.com."
    (<[1 := [host_A]]> (<[TypeNSEC := [host_NSEC_ok]]> ∅))
    (<[1 := [sig_A]]> (<[TypeNSEC := [sig_NSEC]]> ∅)) false.

End Zone.

(** * Notions used by the further properties *)

Module Wire.
Import Edns.

(** The lengths of option data that [unpack] reads in full: any length for
    an NSID, 4 bytes for an UPDATE-LEASE, 18 for an LLQ. *)
Definition wire_length (o : EDNS0) (b : list Z) : Prop :=
  match o with
  | O_NSID _ => True
  | O_SUBNET _ => False
  | O_UPDATE_LEASE _ => length b = 4%nat
  | O_LLQ _ => length b = 18%nat
  end.

End Wire.

Module Store.
Import Names Zone.

(** An environment for the examples: names are split at their dots, every
    name is a domain name, every key has the tag 7, signing returns the
    signature as it was filled in, and the random numbers are 0. *)
Definition env0 : Env :=
  mkEnv labels (fun _ => true)
        (fun s => if ends_with_dot s then s else s +:+ ".")
        (fun _ => 7) (fun s _ _ => Ok s) (fun _ _ => 0) 1.

(** A record is filed under a key when the key is that of its owner
    name. *)
Definition filed_RR (k : string) (t : Z) (r : RR) : Prop :=
  Rrtype (Header r) = t /\ toRadixName (Name (Header r)) = Ok k.

Definition filed_RRSIG (k : string) (t : Z) (s : RRSIG) : Prop :=
  TypeCovered s = t /\ Rrtype (sig_Hdr s) = TypeRRSIG /\
  toRadixName (Name (sig_Hdr s)) = Ok k.

(** What holds of every binding of the tree of a zone: the key is that of
    the name of the node, the name is in the zone, no RRset has the type
    RRSIG, and every record and every signature is filed under its own type
    and under the key of its own owner name. *)
Definition node_ok (E : Env) (z : Zone) (kv : string * ZoneData) : Prop :=
  toRadixName (zd_Name (snd kv)) = Ok (fst kv) /\
  isSubDomain E z (zd_Name (snd kv)) = true /\
  zd_RR (snd kv) !! TypeRRSIG = None /\
  (forall t l, zd_RR (snd kv) !! t = Some l -> Forall (filed_RR (fst kv) t) l) /\
  (forall t l, zd_Signatures (snd kv) !! t = Some l ->
               Forall (filed_RRSIG (fst kv) t) l).

Definition keys_increasing (t : RadixTree) : Prop :=
  StronglySorted (fun a b => key_lt (fst a) (fst b)) t.

Definition well_formed (E : Env) (z : Zone) : Prop :=
  keys_increasing (Radix z) /\ Forall (node_ok E z) (Radix z).


End Store.

Module Signing.
Import Names Zone.

(** Two bindings of a tree with the same key, the same name, the same
    authority flag and, apart from the NSEC, the same RRsets. *)
Definition same_records (a b : string * ZoneData) : Prop :=
  fst a = fst b /\
  zd_Name (snd a) = zd_Name (snd b) /\
  zd_NonAuth (snd a) = zd_NonAuth (snd b) /\
  forall t, t <> TypeNSEC -> zd_RR (snd a) !! t = zd_RR (snd b) !! t.

(** The signatures of type [t] of a signature map that were made with the
    key tag [tag]. *)
Definition signed_with (sigs : gmap Z (list RRSIG)) (t tag : Z) : Prop :=
  exists s, In s (slice_at sigs t) /\ KeyTag s = tag.

(** [before] is the beginning of [after], for every type. *)
Definition grown (before after : gmap Z (list RRSIG)) : Prop :=
  forall t, exists more, slice_at after t = slice_at before t ++ more.

(** The node [a.example.com.] with an A RRset, not signed yet. *)
Definition node_A : ZoneData :=
  mkZoneData "a.example.com." (<[1 := [host_A]]> ∅) ∅ false.

(** The NSEC chain is closed: the NSEC of every node of the tree points
    to the name of the node that comes next, and that of the last node to
    the name of the first. *)
Definition chained (t : RadixTree) : Prop :=
  forall k node,
    radix_lookup t k = Some node ->
    exists k' next p h bm rest,
      radix_Next t k = Some (k', next) /\
      zd_RR node !! TypeNSEC = Some (RR_NSEC p h (zd_Name next) bm :: rest).

End Signing.

(* further notions *)

(** * Properties *)

Section NameFacts.
Import Names.

Example toRadixName_www :
  toRadixName "www.Example.com." = Ok ".com.example.www".
Proof. reflexivity. Qed.

Example toRadixName_no_final_dot :
  toRadixName "www.example.com" = Ok ".com.example.www".
Proof. reflexivity. Qed.

Example toRadixName_escaped_dot :
  toRadixName "foo\.bar.example." = Ok ".example.foo\.bar".
Proof. reflexivity. Qed.

Example labels_escaped_dot :
  labels "foo\.bar.example." = ["foo\.bar"; "example"].
Proof. reflexivity. Qed.

(** C4, at the failing input: [b.a.example.] precedes [a-b.example.] in
    canonical order, the label [a] being a proper prefix of [a-b], but the
    radix key of [a-b.example.] is the smaller one, the byte [-] being
    smaller than the dot that separates labels in a key. *)
Theorem toRadixName_hyphen_order :
  toRadixName "b.a.example." = Ok ".example.a.b" /\
  toRadixName "a-b.example." = Ok ".example.a-b" /\
  canonical_lt "b.a.example." "a-b.example." /\
  key_lt ".example.a-b" ".example.a.b" /\
  ~ key_lt ".example.a.b" ".example.a-b".
Proof.
  repeat split; try reflexivity.
  unfold key_lt. vm_compute. discriminate.
Qed.

(** A name without backslash always has a key: every dot is a label
    boundary, and a dot is appended to a name that does not end with one. *)
Lemma radix_loop_nonempty d : forall rest i lastdot lb llb s,
  s <> "" -> radix_loop d rest i lastdot lb llb s <> "".
Proof.
  induction rest as [| c rest IH]; intros i lastdot lb llb s Hs;
    cbn [radix_loop]; [exact Hs |].
  destruct (_ && _); apply IH; [| exact Hs].
  destruct (slice d lastdot i); discriminate.
Qed.

Lemma radix_loop_dot d : forall rest i lastdot lb llb s,
  no_backslash rest = true -> has_dot rest = true -> lb <> backslash ->
  radix_loop d rest i lastdot lb llb s <> "".
Proof.
  induction rest as [| c rest IH]; intros i lastdot lb llb s Hnb Hd Hlb;
    cbn [radix_loop no_backslash has_dot] in *; [discriminate Hd |].
  apply andb_prop in Hnb as [Hc Hnb].
  destruct (Ascii.eqb_spec lb backslash) as [? | _]; [contradiction |].
  cbn [negb orb andb]. rewrite andb_true_r.
  destruct (Ascii.eqb_spec c dot) as [-> | Hcd].
  - apply radix_loop_nonempty. destruct (slice d lastdot i); discriminate.
  - cbn [orb] in Hd. apply IH; try assumption.
    destruct (Ascii.eqb_spec c backslash); [discriminate Hc | assumption].
Qed.

Lemma get_dot_has_dot d : forall n,
  String.get n d = Some dot -> has_dot d = true.
Proof.
  induction d as [| c d IH]; intros n H; cbn [String.get has_dot] in *;
    [discriminate H |].
  destruct n as [| n].
  - injection H as ->. reflexivity.
  - rewrite (IH n H). apply orb_true_r.
Qed.

Lemma has_dot_app_dot d : has_dot (d +:+ ".") = true.
Proof.
  induction d as [| c d IH]; [reflexivity |].
  change (String c d +:+ ".") with (String c (d +:+ ".")).
  cbn [has_dot]. rewrite IH. apply orb_true_r.
Qed.

Lemma no_backslash_app_dot d :
  no_backslash (d +:+ ".") = no_backslash d.
Proof.
  induction d as [| c d IH]; [reflexivity |].
  change (String c d +:+ ".") with (String c (d +:+ ".")).
  cbn [no_backslash]. now rewrite IH.
Qed.

(** On a name without backslash [toRadixName] returns a key. *)
Lemma toRadixName_total_without_backslash d :
  no_backslash d = true -> exists key, toRadixName d = Ok key.
Proof.
  intros Hnb. unfold toRadixName.
  destruct (String.eqb d "" || String.eqb d "."); [now eexists |].
  set (d' := if ends_with_dot d then d else d +:+ ".").
  assert (Hd' : no_backslash d' = true /\ has_dot d' = true).
  { subst d'. unfold ends_with_dot.
    destruct (String.get (String.length d - 1) d) as [c |] eqn:Hg.
    - destruct (Ascii.eqb_spec c dot) as [-> | _].
      + split; [assumption | eapply get_dot_has_dot; eassumption].
      + rewrite no_backslash_app_dot, has_dot_app_dot. now split.
    - rewrite no_backslash_app_dot, has_dot_app_dot. now split. }
  destruct Hd' as [Hnb' Hdot'].
  pose proof (radix_loop_dot d' d' 0 0 Ascii.zero Ascii.zero ""
                Hnb' Hdot' ltac:(discriminate)) as Hne.
  destruct (radix_loop d' d' 0 0 Ascii.zero Ascii.zero "") as [| c s];
    [contradiction |].
  cbn [String.length]. now eexists.
Qed.

End NameFacts.

(** ** The zone store *)

Section ZoneFacts.
Import Names Zone.

Context (E : Env).

Lemma foldr_delete_lookup {A} (ks : list Z) (m : gmap Z A) (i : Z) :
  foldr (fun k m => delete k m) m ks !! i
  = if bool_decide (i ∈ ks) then None else m !! i.
Proof.
  induction ks as [| k ks IH]; cbn [foldr].
  - rewrite bool_decide_eq_false_2 by apply not_elem_of_nil. reflexivity.
  - destruct (decide (k = i)) as [-> | Hne].
    + rewrite lookup_delete_eq, bool_decide_eq_true_2
        by (apply elem_of_cons; now left).
      reflexivity.
    + rewrite lookup_delete_ne by assumption. rewrite IH.
      destruct (decide (i ∈ ks)) as [Hin | Hnin].
      * rewrite !bool_decide_eq_true_2; auto. apply elem_of_cons. now right.
      * rewrite !bool_decide_eq_false_2; auto.
        intros [? | ?]%elem_of_cons; congruence.
Qed.

(** Deleting every key met by a [range] over the map empties it. *)
Lemma delete_all_keys {A} (m : gmap Z A) :
  foldr (fun k m => delete k m) m (map fst (map_to_list m)) = ∅.
Proof.
  apply map_eq. intros i. rewrite foldr_delete_lookup, lookup_empty.
  destruct (m !! i) as [x |] eqn:Hi.
  - rewrite bool_decide_eq_true_2; [reflexivity |].
    apply list_elem_of_In, in_map_iff. exists (i, x). split; [reflexivity |].
    apply list_elem_of_In, elem_of_map_to_list. exact Hi.
  - destruct (bool_decide _); reflexivity.
Qed.

Lemma radix_lookup_store t key key' v :
  radix_lookup (radix_store t key v) key'
  = if String.eqb key key'
    then option_map (fun _ => v) (radix_lookup t key')
    else radix_lookup t key'.
Proof.
  induction t as [| [k v'] t IH]; cbn [radix_store radix_lookup].
  - destruct (String.eqb key key'); reflexivity.
  - destruct (String.eqb_spec k key) as [-> | Hk]; cbn [radix_lookup].
    + destruct (String.eqb_spec key key') as [-> | Hk'].
      * rewrite ?String.eqb_refl. reflexivity.
      * reflexivity.
    + destruct (String.eqb_spec k key') as [-> | Hk'].
      * destruct (String.eqb_spec key key'); [congruence | reflexivity].
      * exact IH.
Qed.

(** What [RemoveRRset] does on a node that exists: for the type RRSIG it
    empties the signature map, for every other type it empties the whole RR
    map; it keeps the node and returns no error. *)
Lemma RemoveRRset_found z s t now key zd :
  toRadixName s = Ok key ->
  radix_lookup (Radix z) key = Some zd ->
  exists z',
    RemoveRRset E z s t now = Ok z' /\
    radix_lookup (Radix z') key
    = Some (if t =? TypeRRSIG then set_Signatures zd ∅ else set_RR zd ∅).
Proof.
  intros Hkey Hzd. unfold RemoveRRset. rewrite Hkey. cbn [bind].
  unfold radix_Find. cbn [Radix set_ModTime]. rewrite Hzd.
  eexists. split; [reflexivity |].
  cbn [Radix set_Radix]. rewrite radix_lookup_store, String.eqb_refl, Hzd.
  cbn [option_map]. rewrite !delete_all_keys. reflexivity.
Qed.

(** C6, at the failing input: on a node that holds an A and an AAAA RRset,
    [RemoveRRset] of the type A (1) returns no error and keeps the node, but
    the AAAA RRset (28) is gone too. *)
Theorem RemoveRRset_clears_other_types :
  exists z' zd zd',
    radix_lookup (Radix zone_host) ".com.example.a" = Some zd /\
    zd_RR zd !! 28 = Some [host_AAAA] /\
    RemoveRRset E zone_host "a.example.com." 1 9 = Ok z' /\
    radix_lookup (Radix z') ".com.example.a" = Some zd' /\
    zd_RR zd' !! 1 = None /\
    zd_RR zd' !! 28 = None.
Proof.
  destruct (RemoveRRset_found zone_host "a.example.com." 1 9 ".com.example.a"
              (mkZoneData "a.example.com."
                 (<[1 := [host_A]]> (<[28 := [host_AAAA]]> ∅)) ∅ false))
    as (z' & Hz' & Hl); [reflexivity | reflexivity |].
  eexists z', _, _.
  split; [reflexivity |]. split; [reflexivity |].
  split; [exact Hz' |]. split; [exact Hl |]. split; reflexivity.
Qed.

(** Scenario S1, in the root zone: after the insertion of an A record at
    [www.example.com.], [Find] of that name is exact and [Find] of a name
    below it returns the same node, not as an exact match. *)
Example Insert_Find :
  exists z node,
    Insert E root_zone (RR_other 1%nat (mkHdr "www.example.com." 1 ClassINET 300 0)) 1
    = Ok z /\
    Find z "www.example.com." = Ok (Some node, true) /\
    Find z "sub.www.example.com." = Ok (Some node, false) /\
    length (slice_at (zd_RR node) 1) = 1%nat.
Proof.
  eexists _, _. split; [vm_compute; reflexivity |].
  repeat split; reflexivity.
Qed.

(** *** The wildcard counter *)

(** Scenario S3, in the root zone. *)
Example Wildcard_S3 :
  exists z1 z2,
    apply_ops E root_zone [OpInsert wild_A; OpInsert wild_AAAA] 1 = Ok z1 /\
    Wildcard z1 = 1 /\
    apply_ops E z1 [OpRemove wild_A; OpRemove wild_AAAA] 3 = Ok z2 /\
    Wildcard z2 = 0 /\ Radix z2 = [].
Proof.
  eexists _, _. split; [vm_compute; reflexivity |].
  split; [reflexivity |]. split; [vm_compute; reflexivity |].
  split; reflexivity.
Qed.




(** C5, at the failing input: in the root zone, after inserting an A and
    an AAAA record at [*.example.com.] and removing the A record, the node
    is still in the tree and the counter is 0. *)
Theorem Wildcard_undercounts :
  exists z,
    apply_ops E root_zone
      [OpInsert wild_A; OpInsert wild_AAAA; OpRemove wild_A] 1 = Ok z /\
    Wildcard z = 0 /\
    wildcard_nodes z = 1.
Proof. eexists. split; [vm_compute; reflexivity |]. split; reflexivity. Qed.

(** The same after [RemoveName] of a wildcard name that the zone does not
    hold. *)
Lemma Wildcard_undercounts_RemoveName :
  exists z,
    apply_ops E root_zone
      [OpInsert wild_A; OpRemoveName "*.example.org."] 1 = Ok z /\
    Wildcard z = 0 /\
    wildcard_nodes z = 1.
Proof. eexists. split; [vm_compute; reflexivity |]. split; reflexivity. Qed.

Lemma apply_ops_cons_Ok z o os now z' :
  apply_op E z o now = Ok z' ->
  apply_ops E z (o :: os) now = apply_ops E z' os (now + 1).
Proof. intros H. cbn [apply_ops]. now rewrite H. Qed.

(** The same in any zone with an empty tree that [*.example.com.] belongs
    to, such as the zone [example.com.] of scenario S3. *)
Lemma Wildcard_undercounts_in_zone z :
  Radix z = [] -> Wildcard z = 0 ->
  isSubDomain E z "*.example.com." = true ->
  exists z',
    apply_ops E z
      [OpInsert wild_A; OpInsert wild_AAAA; OpRemove wild_A] 1 = Ok z' /\
    Wildcard z' = 0 /\
    wildcard_nodes z' = 1.
Proof.
  destruct z as [origin ol wc ex mt t]. cbn [Radix Wildcard].
  intros -> -> Hsub.
  assert (Hs : forall z', olabels z' = ol ->
                          isSubDomain E z' "*.example.com." = true).
  { intros z' Hz'. unfold isSubDomain in *. cbn [olabels] in Hsub.
    rewrite Hz'. exact Hsub. }
  erewrite apply_ops_cons_Ok.
  2:{ unfold apply_op, Insert. change (Name (Header wild_A)) with "*.example.com.".
      rewrite Hs by reflexivity. vm_compute. reflexivity. }
  erewrite apply_ops_cons_Ok.
  2:{ unfold apply_op, Insert. change (Name (Header wild_AAAA)) with "*.example.com.".
      rewrite Hs by reflexivity. vm_compute. reflexivity. }
  eexists. split; [vm_compute; reflexivity |]. split; reflexivity.
Qed.

(** C10, at the failing input: on the name [a\.], whose only dot is
    escaped, no label boundary is found, [s] stays empty and
    [s[:len(s)-1]] panics; so do [Remove], [RemoveName], [RemoveRRset] and
    [Find] on that name in any zone, and [Insert] in the root zone. *)
Theorem toRadixName_panics_on_escaped_final_dot :
  toRadixName "a\." = Panic /\
  radix_loop "a\." "a\." 0 0 Ascii.zero Ascii.zero "" = "" /\
  (forall z now, Remove E z (RR_other 1%nat (mkHdr "a\." 1 ClassINET 300 0)) now = Panic) /\
  (forall z now, RemoveName E z "a\." now = Panic) /\
  (forall z t now, RemoveRRset E z "a\." t now = Panic) /\
  (forall z, Find z "a\." = Panic) /\
  (forall now, Insert E root_zone (RR_other 1%nat (mkHdr "a\." 1 ClassINET 300 0)) now = Panic).
Proof. repeat split. Qed.

(** ** The signer *)


(** C7, at the failing input: on a zone whose apex node holds an NS RRset
    and no SOA, [Sign] does not return [ErrSoa]: indexing the missing SOA
    RRset panics, whatever the keys and the config. *)
Theorem Sign_panics_without_SOA :
  exists apex,
    radix_lookup (Radix zone_without_SOA) ".com.example" = Some apex /\
    zd_RR apex !! TypeSOA = None /\
    forall keys config now w,
      Zone_Sign E zone_without_SOA keys config now w = Panic.
Proof.
  eexists. split; [reflexivity |]. split; [reflexivity |].
  intros keys config now w. unfold Zone_Sign.
  destruct (SignerRoutines (default (DefaultSignatureConfig E) config) <? 0);
    reflexivity.
Qed.

(** Scenario S4, with no key: [Sign] chains the apex to [a.example.com.]
    and back, with the bitmaps of the types present. *)
Example Sign_S4_chain :
  exists z w apex a,
    Zone_Sign E zone_S4 [] (Some config0) now0 w0 = Ok (z, w) /\
    radix_lookup (Radix z) ".com.example" = Some apex /\
    radix_lookup (Radix z) ".com.example.a" = Some a /\
    zd_RR apex !! TypeNSEC
    = Some [RR_NSEC 100%nat (mkHdr "example.com." TypeNSEC ClassINET 600 0)
              "a.example.com." [TypeNS; TypeSOA; TypeRRSIG; TypeNSEC]] /\
    zd_RR a !! TypeNSEC
    = Some [RR_NSEC 101%nat (mkHdr "a.example.com." TypeNSEC ClassINET 600 0)
              "example.com." [16; TypeRRSIG; TypeNSEC]].
Proof.
  eexists _, _, _, _. split; [vm_compute; reflexivity |].
  repeat split; reflexivity.
Qed.

(** Until the year 2106 [mod] is 0, [uint32ToTime] returns the epoch, and
    the test of [Sign] on a signature does not depend on its expiration. *)
Lemma due_ignores_Expiration config now s :
  0 <= now -> Unix now < 2 * year68 ->
  uint32ToTime now (Expiration s) = 0 /\
  due config now s = (now <? Refresh config).
Proof.
  intros Hnow Hu.
  assert (H0 : 0 <= Unix now) by (unfold Unix, Second; apply Z.div_pos; lia).
  assert (Hera : era (Unix now) = 0).
  { unfold era.
    assert (Hq : Z.quot (Unix now) year68 = 0 \/ Z.quot (Unix now) year68 = 1).
    { unfold year68 in *. change (2 ^ 31) with 2147483648 in *.
      rewrite Z.quot_div_nonneg by lia.
      assert (0 <= Unix now / 2147483648 < 2); [| lia].
      split; [apply Z.div_pos; lia | apply Z.div_lt_upper_bound; lia]. }
    destruct Hq as [-> | ->]; reflexivity. }
  assert (Ht : uint32ToTime now (Expiration s) = 0).
  { unfold uint32ToTime. rewrite Hera. reflexivity. }
  split; [exact Ht |].
  unfold due. rewrite Ht. unfold Sub.
  assert (now < 2 ^ 63).
  { unfold Unix, Second, year68 in Hu.
    change (2 ^ 31) with 2147483648 in Hu.
    change (2 ^ 63) with 9223372036854775808.
    pose proof (Z.div_mod now 1000000000).
    pose proof (Z.mod_pos_bound now 1000000000). lia. }
  change (2 ^ 63) with 9223372036854775808 in *.
  rewrite Z.sub_0_r, Z.min_r, Z.max_r by lia. reflexivity.
Qed.

(** Hence, once the clock is past [Refresh] (and before 2106), a
    signature found for the key is never replaced. *)
Lemma sign_rrset_keeps_existing nonauth keytags config now k p sigs w t r0 rrset j q :
  0 <= now -> Unix now < 2 * year68 -> Refresh config <= now ->
  signatures (slice_at sigs t) (keytag_of keytags k) = (j, Some q) ->
  sign_rrset E nonauth keytags config now k p (sigs, w) (t, r0 :: rrset)
  = Ok (sigs, w).
Proof.
  intros Hnow Hu Hr Hq. unfold sign_rrset. cbn [first_rr bind].
  destruct (Z.land (Flags k) SEP =? SEP); cbn [bind];
    [destruct (negb (is_DNSKEY r0)); [reflexivity |] |];
    (destruct nonauth; cbn [bind];
     [destruct (negb (is_DS r0) && negb (is_NSEC r0)); [reflexivity |] |]);
    rewrite Hq;
    destruct (due_ignores_Expiration config now q Hnow Hu) as [_ ->];
    (destruct (Z.ltb_spec now (Refresh config)); [lia | reflexivity]).
Qed.

(** [Sign] never reads [HonorSepFlag]. *)
Lemma Sign_ignores_HonorSepFlag node next keys keytags config now w b :
  ZoneData_Sign E node next keys keytags (set_HonorSepFlag config b) now w
  = ZoneData_Sign E node next keys keytags config now w.
Proof. destruct config. reflexivity. Qed.

(** The NSEC of a node is left alone as soon as it points to [next] and
    every key of the RR map is found in its bitmap. *)
Lemma update_NSEC_kept node next config w p h bm rest :
  zd_RR node !! TypeNSEC = Some (RR_NSEC p h next bm :: rest) ->
  forallb (found_in bm) (map fst (map_to_list (zd_RR node))) = true ->
  update_NSEC node next config w = Ok (node, w).
Proof.
  intros Hn Hf. unfold update_NSEC. rewrite Hn, Hf, String.eqb_refl.
  reflexivity.
Qed.

(** It is overwritten, and the signatures over it dropped, when it points
    elsewhere or some key of the RR map is not found in its bitmap. *)
Lemma update_NSEC_overwritten node next config w p h nd bm rest :
  zd_RR node !! TypeNSEC = Some (RR_NSEC p h nd bm :: rest) ->
  nd <> next \/ forallb (found_in bm) (map fst (map_to_list (zd_RR node))) = false ->
  update_NSEC node next config w
  = Ok (mkZoneData (zd_Name node)
          (<[TypeNSEC := map (write_NSEC p next
                               (computed_bitmap (map fst (map_to_list (zd_RR node)))))
                             (RR_NSEC p h nd bm :: rest)]> (zd_RR node))
          (<[TypeNSEC := []]> (zd_Signatures node))
          (zd_NonAuth node), w).
Proof.
  intros Hn Hc. unfold update_NSEC. rewrite Hn.
  destruct Hc as [Hne | Hf].
  - destruct (String.eqb_spec nd next); [contradiction | reflexivity].
  - rewrite Hf, orb_true_r. reflexivity.
Qed.

(** C3, at the failing input: the node holds an A RRset and an NSEC whose
    bitmap still lists MX; the computed bitmap is [A, RRSIG, NSEC], so the
    stored one differs from it, but [Sign] leaves the NSEC and the
    signature over it as they are. *)
Theorem Sign_keeps_stale_bitmap :
  zd_RR node_stale_bitmap !! TypeNSEC = Some [host_NSEC] /\
  computed_bitmap (map fst (map_to_list (zd_RR node_stale_bitmap)))
  = [1; TypeRRSIG; TypeNSEC] /\
  [1; 15; TypeRRSIG; TypeNSEC] <> [1; TypeRRSIG; TypeNSEC] /\
  ZoneData_Sign E node_stale_bitmap "b.example.com." [(zsk, [])]
    [(key_ptr zsk, 7)] config0 now0 w0
  = Ok (node_stale_bitmap, w0).
Proof.
  split; [reflexivity |]. split; [reflexivity |].
  split; [discriminate | reflexivity].
Qed.

(** C2, at the failing input: the signature of the key over the A RRset
    expired a week before the signing time, so its remaining lifetime is
    below [Refresh], but [Sign] keeps it and makes no new one. *)
Theorem Sign_keeps_expired_signature :
  zd_Signatures node_expired_sig !! 1 = Some [sig_A] /\
  KeyTag sig_A = 7 /\
  Expiration sig_A - Unix now0 < 0 /\
  (Expiration sig_A - Unix now0) * Second < Refresh config0 /\
  ZoneData_Sign E node_expired_sig "b.example.com." [(zsk, [])]
    [(key_ptr zsk, 7)] config0 now0 w0
  = Ok (node_expired_sig, w0).
Proof.
  split; [reflexivity |]. split; [reflexivity |].
  split; [reflexivity |]. split; reflexivity.
Qed.

(** C1, at the failing inputs. With [HonorSepFlag] unset, a key with the
    SEP flag still signs nothing but key sets: after [Sign] the SOA of the
    apex has no signature. And a signature that expired before the signing
    time, made by a key that is not among the signing keys, is still at the
    apex after [Sign]. *)
Theorem Sign_leaves_SOA_unsigned :
  HonorSepFlag config0 = false /\
  (exists z w apex,
     Zone_Sign E zone_SOA_bare [(ksk, [])] (Some config0) now0 w0 = Ok (z, w) /\
     radix_lookup (Radix z) ".com.example" = Some apex /\
     zd_RR apex !! TypeSOA = Some [apex_SOA] /\
     zd_Signatures apex !! TypeSOA = None) /\
  (exists z w apex,
     Zone_Sign E zone_SOA [(ksk, [])] (Some config1) now0 w0 = Ok (z, w) /\
     radix_lookup (Radix z) ".com.example" = Some apex /\
     zd_Signatures apex !! TypeSOA = Some [old_sig] /\
     Expiration old_sig <= Unix now0).
Proof.
  split; [reflexivity |].
  split; eexists _, _, _;
    (split; [vm_compute; reflexivity |]);
    (split; [reflexivity |]); split; try reflexivity.
  vm_compute. discriminate.
Qed.

End ZoneFacts.

Section EdnsFacts.
Import Edns.

Lemma testbit_uint w x n :
  0 <= w -> Z.testbit (uint w x) n = (n <? w) && Z.testbit x n.
Proof. intros Hw. unfold uint. now apply Z.testbit_mod_pow2. Qed.

(** The byte of [x] at bit offset [k], put back at offset [k] in a word of
    [w] bits. *)
Lemma testbit_byte_at w x k n :
  0 <= k -> 0 <= n -> k + 8 <= w ->
  Z.testbit (uint w (Z.shiftl (uint w (byte (Z.shiftr x k))) k)) n
  = Z.testbit x n && (k <=? n) && (n <? k + 8).
Proof.
  intros Hk Hn Hw. unfold byte.
  rewrite testbit_uint by lia.
  rewrite Z.shiftl_spec by lia.
  destruct (Z.leb_spec k n) as [Hkn | Hkn].
  - rewrite !testbit_uint by lia. rewrite Z.shiftr_spec by lia.
    replace (n - k + k) with n by lia.
    destruct (Z.ltb_spec n (k + 8)), (Z.ltb_spec (n - k) 8),
      (Z.ltb_spec (n - k) w), (Z.ltb_spec n w);
      try lia; destruct (Z.testbit x n); reflexivity.
  - rewrite (Z.testbit_neg_r _ (n - k)) by lia.
    rewrite !andb_false_r. reflexivity.
Qed.

Lemma testbit_byte_0 w x n :
  0 <= n -> 8 <= w ->
  Z.testbit (uint w (byte x)) n = Z.testbit x n && (n <? 8).
Proof.
  intros Hn Hw. unfold byte. rewrite !testbit_uint by lia.
  destruct (Z.ltb_spec n 8), (Z.ltb_spec n w); try lia;
    destruct (Z.testbit x n); reflexivity.
Qed.

Lemma testbit_above w x n :
  0 <= x < 2 ^ w -> 0 <= w -> w <= n -> Z.testbit x n = false.
Proof.
  intros Hx Hw Hn.
  rewrite <- (Z.mod_small x (2 ^ w)) by lia.
  apply Z.mod_pow2_bits_high. lia.
Qed.

(** Split on the comparisons of the bit index, closing a contradictory
    branch as soon as it appears. *)
Ltac bits_cases n :=
  repeat match goal with
  | |- context [ (?a <=? n) ] => destruct (Z.leb_spec a n); try lia
  | |- context [ (n <? ?a) ] => destruct (Z.ltb_spec n a); try lia
  end.

Lemma be16_bits x :
  0 <= x < 2 ^ 16 ->
  Z.lor (uint16 (Z.shiftl (uint16 (byte (Z.shiftr x 8))) 8)) (uint16 (byte x)) = x.
Proof.
  intros Hx. apply Z.bits_inj'. intros n Hn. unfold uint16.
  rewrite !Z.lor_spec, !testbit_byte_at, testbit_byte_0 by lia.
  destruct (Z.ltb_spec n 16) as [H16 | H16].
  - bits_cases n; destruct (Z.testbit x n); reflexivity.
  - rewrite (testbit_above 16 x n) by lia. reflexivity.
Qed.

Lemma be32_bits x :
  0 <= x < 2 ^ 32 ->
  Z.lor (Z.lor (Z.lor (uint32 (Z.shiftl (uint32 (byte (Z.shiftr x 24))) 24))
                      (uint32 (Z.shiftl (uint32 (byte (Z.shiftr x 16))) 16)))
               (uint32 (Z.shiftl (uint32 (byte (Z.shiftr x 8))) 8)))
        (uint32 (byte x)) = x.
Proof.
  intros Hx. apply Z.bits_inj'. intros n Hn. unfold uint32.
  rewrite !Z.lor_spec, !testbit_byte_at, testbit_byte_0 by lia.
  destruct (Z.ltb_spec n 32) as [H32 | H32].
  - bits_cases n; destruct (Z.testbit x n); reflexivity.
  - rewrite (testbit_above 32 x n) by lia. reflexivity.
Qed.

Lemma be64_bits x :
  0 <= x < 2 ^ 64 ->
  Z.lor (Z.lor (Z.lor (Z.lor (Z.lor (Z.lor (Z.lor
    (uint64 (Z.shiftl (uint64 (byte (Z.shiftr x 56))) 56))
    (uint64 (Z.shiftl (uint64 (byte (Z.shiftr x 48))) 48)))
    (uint64 (Z.shiftl (uint64 (byte (Z.shiftr x 40))) 40)))
    (uint64 (Z.shiftl (uint64 (byte (Z.shiftr x 32))) 32)))
    (uint64 (Z.shiftl (uint64 (byte (Z.shiftr x 24))) 24)))
    (uint64 (Z.shiftl (uint64 (byte (Z.shiftr x 16))) 16)))
    (uint64 (Z.shiftl (uint64 (byte (Z.shiftr x 8))) 8)))
    (uint64 (byte x)) = x.
Proof.
  intros Hx. apply Z.bits_inj'. intros n Hn. unfold uint64.
  rewrite !Z.lor_spec, !testbit_byte_at, testbit_byte_0 by lia.
  destruct (Z.ltb_spec n 64) as [H64 | H64].
  - bits_cases n; destruct (Z.testbit x n); reflexivity.
  - rewrite (testbit_above 64 x n) by lia. reflexivity.
Qed.

(** *** The DO bit and the version byte *)

(** Scenario S5: on ttl 0, [SetDo] yields 0x8000, the version is still 0
    and a second [SetDo] changes nothing. *)
Example SetDo_S5 :
  let rr := mkOPT (mkHdr "." 41 4096 0 0) [] in
  Ttl (Hdr (SetDo rr)) = 0x8000 /\
  Do (SetDo rr) = true /\
  OPT_Version (SetDo rr) = 0 /\
  SetDo (SetDo rr) = SetDo rr.
Proof. repeat split. Qed.

Lemma SetDo_Ttl rr :
  0 <= Ttl (Hdr rr) < 2 ^ 32 ->
  Ttl (Hdr (SetDo rr)) = Z.lor (Ttl (Hdr rr)) (Z.shiftl 1 15).
Proof.
  intros Hx. unfold SetDo. cbn [Hdr Ttl set_Ttl]. set (x := Ttl (Hdr rr)) in *.
  apply Z.bits_inj'. intros n Hn.
  assert (H3 : Z.testbit (uint32 (Z.shiftl (uint32 (Z.lor (byte (Z.shiftr x 8)) _DO)) 8)) n
               = (Z.testbit x n && (8 <=? n) && (n <? 16)) || (n =? 15)).
  { unfold uint32. rewrite testbit_uint by lia. rewrite Z.shiftl_spec by lia.
    destruct (Z.leb_spec 8 n) as [H8 | H8].
    - rewrite testbit_uint by lia. rewrite Z.lor_spec. unfold byte.
      rewrite testbit_uint by lia. rewrite Z.shiftr_spec by lia.
      replace (n - 8 + 8) with n by lia.
      unfold _DO. rewrite Z.shiftl_1_l, Z.pow2_bits_eqb by lia.
      destruct (Z.eqb_spec 7 (n - 8)), (Z.eqb_spec n 15); try lia;
        bits_cases n; bits_cases (n - 8);
        destruct (Z.testbit x n); reflexivity.
    - rewrite (Z.testbit_neg_r _ (n - 8)) by lia.
      destruct (Z.eqb_spec n 15); try lia;
        rewrite !andb_false_r; reflexivity. }
  rewrite !Z.lor_spec, H3. unfold uint32.
  rewrite !testbit_byte_at, testbit_byte_0 by lia.
  rewrite Z.shiftl_1_l, Z.pow2_bits_eqb by lia.
  destruct (Z.ltb_spec n 32) as [H32 | H32].
  - destruct (Z.eqb_spec n 15), (Z.eqb_spec 15 n); try lia;
      bits_cases n; destruct (Z.testbit x n); reflexivity.
  - rewrite (testbit_above 32 x n) by lia.
    destruct (Z.eqb_spec n 15), (Z.eqb_spec 15 n); try lia; reflexivity.
Qed.

(** X1: [SetDo] sets bit 15 of the ttl and leaves every other bit, the other
    header fields and the options as they were. *)
Lemma SetDo_frame rr :
  0 <= Ttl (Hdr rr) < 2 ^ 32 ->
  Z.testbit (Ttl (Hdr (SetDo rr))) 15 = true /\
  (forall n, n <> 15 ->
     Z.testbit (Ttl (Hdr (SetDo rr))) n = Z.testbit (Ttl (Hdr rr)) n) /\
  Name (Hdr (SetDo rr)) = Name (Hdr rr) /\
  Rrtype (Hdr (SetDo rr)) = Rrtype (Hdr rr) /\
  Class (Hdr (SetDo rr)) = Class (Hdr rr) /\
  Rdlength (Hdr (SetDo rr)) = Rdlength (Hdr rr) /\
  Option (SetDo rr) = Option rr.
Proof.
  intros Hx. rewrite (SetDo_Ttl rr Hx).
  split; [| split; [| repeat split]].
  - rewrite Z.lor_spec, Z.shiftl_1_l, Z.pow2_bits_eqb by lia.
    apply orb_true_r.
  - intros n Hn. destruct (Z.ltb_spec n 0) as [Hneg | Hpos].
    + rewrite !Z.testbit_neg_r by lia. reflexivity.
    + rewrite Z.lor_spec, Z.shiftl_1_l, Z.pow2_bits_eqb by lia.
      destruct (Z.eqb_spec 15 n); try lia. apply orb_false_r.
Qed.

(** What [SetVersion] does to each bit: it clears bits 16-23 and ors [v]
    into bits 0-7. *)
Lemma SetVersion_bits rr v n :
  0 <= n -> 0 <= v < 2 ^ 8 ->
  Z.testbit (Ttl (Hdr (SetVersion rr v))) n
  = if (16 <=? n) && (n <? 24) then false
    else Z.testbit (Ttl (Hdr rr)) n && (n <? 32) || Z.testbit v n.
Proof.
  intros Hn Hv. unfold SetVersion. cbn [Hdr Ttl set_Ttl].
  rewrite Z.lor_spec, Z.land_spec.
  replace (Z.testbit (uint32 v) n) with (Z.testbit v n).
  2:{ unfold uint32, uint. rewrite Z.mod_small by lia. reflexivity. }
  assert (Hm : Z.testbit 0xFF00FFFF n
               = ((n <? 16) || (24 <=? n)) && (n <? 32)).
  { change 0xFF00FFFF with (Z.lor (Z.ones 16) (Z.shiftl (Z.ones 8) 24)).
    rewrite Z.lor_spec, Z.shiftl_spec, Z.testbit_ones_nonneg by lia.
    destruct (Z.leb_spec 24 n).
    - rewrite Z.testbit_ones_nonneg by lia. bits_cases n; reflexivity.
    - rewrite (Z.testbit_neg_r _ (n - 24)) by lia. bits_cases n; reflexivity. }
  rewrite Hm.
  destruct (Z.leb_spec 16 n), (Z.ltb_spec n 24); cbn [andb];
    bits_cases n; rewrite ?(testbit_above 8 v n) by lia;
    destruct (Z.testbit (Ttl (Hdr rr)) n), (Z.testbit v n); reflexivity.
Qed.

(** C9, at the failing input: on an OPT record whose ttl is 0,
    [SetVersion 1] yields ttl 1: bit 0 of the flags is set and the
    version byte (bits 16-23) still holds 0, so [SetVersion] does not
    overwrite only the version byte. *)
Theorem SetVersion_writes_flags_byte :
  let rr := mkOPT (mkHdr "." 41 4096 0 0) [] in
  Ttl (Hdr (SetVersion rr 1)) = 1 /\
  Z.testbit (Ttl (Hdr (SetVersion rr 1))) 0 = true /\
  Z.testbit (Ttl (Hdr rr)) 0 = false /\
  Z.land (Z.shiftr (Ttl (Hdr (SetVersion rr 1))) 16) 0xff = 0.
Proof. cbv zeta. repeat split; reflexivity. Qed.

(** *** pack and unpack *)

(** Scenario S6. *)
Example SUBNET_S6 :
  pack (O_SUBNET subnet_S6) = Ok [0; 1; 24; 0; 192; 0; 2; 0] /\
  unpack (O_SUBNET subnet_S6) [0; 1; 24; 0; 192; 0; 2; 0]
  = Ok (O_SUBNET (mkSUBNET EDNS0SUBNET 1 24 0 (net_IPv4 192 0 2 0))).
Proof. split; reflexivity. Qed.

Example SUBNET_bad_netmask :
  pack (O_SUBNET (mkSUBNET EDNS0SUBNET 1 33 0 [192; 0; 2; 0]))
  = Fail (errors_New "bad netmask").
Proof. reflexivity. Qed.

Example SUBNET_bad_family :
  pack (O_SUBNET (mkSUBNET EDNS0SUBNET 3 0 0 []))
  = Fail (errors_New "bad address family").
Proof. reflexivity. Qed.

Lemma lower_hex_char c :
  lower_hex c = true ->
  exists v, fromHexChar c = Some v /\ 0 <= v < 16 /\ hextable v = c.
Proof.
  destruct c as [[] [] [] [] [] [] [] []]; intros H;
    try discriminate H;
    (eexists; split; [vm_compute; reflexivity | split; [lia | reflexivity]]).
Qed.

Lemma nibbles a b :
  0 <= a < 16 -> 0 <= b < 16 ->
  Z.shiftr (Z.lor (byte (Z.shiftl a 4)) b) 4 = a /\
  Z.land (Z.lor (byte (Z.shiftl a 4)) b) 0x0f = b.
Proof.
  intros Ha Hb. unfold byte. split; apply Z.bits_inj'; intros n Hn.
  - rewrite Z.shiftr_spec, Z.lor_spec, testbit_uint, Z.shiftl_spec by lia.
    replace (n + 4 - 4) with n by lia.
    rewrite (testbit_above 4 b (n + 4)) by lia.
    destruct (Z.ltb_spec (n + 4) 8).
    + cbn [andb]. apply orb_false_r.
    + rewrite (testbit_above 4 a n) by lia. reflexivity.
  - change 0x0f with (Z.ones 4).
    rewrite Z.land_spec, Z.lor_spec, testbit_uint, Z.shiftl_spec,
      Z.testbit_ones_nonneg by lia.
    destruct (Z.ltb_spec n 4).
    + rewrite (Z.testbit_neg_r _ (n - 4)) by lia.
      rewrite andb_false_r, andb_true_r. reflexivity.
    + rewrite (testbit_above 4 b n) by lia. apply andb_false_r.
Qed.

Lemma hex_round_trip s :
  lower_hex_pairs s = true ->
  exists b, hex_DecodeString s = Some b /\ hex_EncodeToString b = s.
Proof.
  revert s. fix IH 1. intros [| p [| q rest]]; intros H.
  - exists []. split; reflexivity.
  - discriminate H.
  - cbn [lower_hex_pairs] in H.
    apply andb_prop in H as [H Hrest]. apply andb_prop in H as [Hp Hq].
    destruct (lower_hex_char p Hp) as (a & Ea & Ra & Ta).
    destruct (lower_hex_char q Hq) as (b & Eb & Rb & Tb).
    destruct (IH rest Hrest) as (t & Et & Tt).
    exists (Z.lor (byte (Z.shiftl a 4)) b :: t).
    cbn [hex_DecodeString hex_EncodeToString]. rewrite Ea, Eb, Et.
    destruct (nibbles a b Ra Rb) as [-> ->].
    rewrite Ta, Tb, Tt. split; reflexivity.
Qed.

Lemma copy_ip_all addr a :
  forall todo i ip,
    length ip = length a ->
    (i + todo = length a)%nat ->
    (length a <= length addr)%nat ->
    take i ip = take i a ->
    copy_ip todo i addr a ip = Ok a.
Proof.
  induction todo as [| todo IH]; intros i ip Hlen Hi Haddr Htake.
  - cbn [copy_ip]. rewrite !take_ge in Htake by lia. now subst.
  - cbn [copy_ip]. unfold len.
    destruct (Z.ltb_spec (Z.of_nat (length addr)) (Z.of_nat i + 1)); [lia |].
    destruct (lookup_lt_is_Some_2 a i) as [x Hx]; [lia |].
    rewrite Hx. apply IH.
    + now rewrite length_insert.
    + lia.
    + assumption.
    + rewrite (take_S_r a i x Hx).
      rewrite (take_S_r (<[i:=x]> ip) i x).
      * rewrite take_insert_ge by lia. now rewrite Htake.
      * apply list_lookup_insert_eq. lia.
Qed.

Ltac list_len l :=
  unfold len in *;
  repeat (destruct l as [| ? l]; cbn [length] in *; try lia).

Lemma To4_len4 ip :
  len (To4 ip) = 4 ->
  ip = To4 ip \/ ip = v4InV6Prefix ++ To4 ip.
Proof.
  unfold To4, IPv4len, IPv6len.
  destruct (Z.eqb_spec (len ip) 4); [now left |].
  destruct (Z.eqb_spec (len ip) 16); cbn [andb].
  - unfold bytesEqual. case_bool_decide as Hp; [| discriminate].
    intros _. right. rewrite <- Hp. now rewrite take_drop.
  - discriminate.
Qed.

Lemma IP_Equal_IPv4 x0 x1 x2 x3 :
  IP_Equal (net_IPv4 x0 x1 x2 x3) [x0; x1; x2; x3] = true /\
  IP_Equal (net_IPv4 x0 x1 x2 x3) (v4InV6Prefix ++ [x0; x1; x2; x3]) = true.
Proof.
  unfold IP_Equal, bytesEqual, net_IPv4, v4InV6Prefix, len, IPv4len, IPv6len.
  cbn [app length take drop].
  rewrite !(bool_decide_eq_true_2 (_ = _) eq_refl). split; reflexivity.
Qed.

Lemma SUBNET_round_trip e r :
  fits (O_SUBNET e) -> canonical (O_SUBNET e) ->
  subnet_Code e = subnet_Code r ->
  exists b e', SUBNET_pack e = Ok b /\ SUBNET_unpack r b = Ok e' /\
               EDNS0_equal (O_SUBNET e') (O_SUBNET e).
Proof.
  destruct e as [code fam nm sc addr], r as [rcode rfam rnm rsc raddr].
  cbn [fits canonical EDNS0_equal subnet_Code Family SourceNetmask
       SourceScope Address].
  intros (Hfam & Hnm & Hsc & Hbytes) Hcan Hcode. subst rcode.
  destruct Hcan as [(-> & Hle & Hl4 & Hmask) | (-> & Hle & Hl16 & Hmask)].
  - (* IPv4 *)
    unfold SUBNET_pack.
    cbn [Family SourceNetmask SourceScope Address packUint16].
    change (1 =? 1) with true. cbv iota.
    change (IPv4len * 8) with 32.
    destruct (Z.ltb_spec 32 nm); [lia |].
    rewrite Hmask.
    assert (Hcopy : copy_ip (Z.to_nat IPv4len) 0 addr (To4 addr)
                      (replicate (Z.to_nat IPv4len) 0) = Ok (To4 addr)).
    { apply copy_ip_all.
      - rewrite length_replicate. unfold len, IPv4len in *. lia.
      - unfold len, IPv4len in *. lia.
      - destruct (To4_len4 addr Hl4) as [E | E]; rewrite E at 2;
          rewrite ?length_app; lia.
      - reflexivity. }
    rewrite Hcopy. cbn [bind].
    pose proof (To4_len4 addr Hl4) as Haddr.
    remember (To4 addr) as a4 eqn:Ea4.
    assert (Hl : length a4 = 4%nat) by (unfold len in Hl4; lia).
    destruct a4 as [| x0 [| x1 [| x2 [| x3 [| ? ?]]]]]; try discriminate Hl.
    eexists. eexists. split; [reflexivity |].
    split; [reflexivity |].
    cbn [subnet_Code Family SourceNetmask SourceScope Address idx nth].
    repeat split.
    destruct Haddr as [-> | ->]; apply IP_Equal_IPv4.
  - (* IPv6 *)
    unfold SUBNET_pack.
    cbn [Family SourceNetmask SourceScope Address packUint16].
    change (2 =? 1) with false. change (2 =? 2) with true. cbv iota.
    change (IPv6len * 8) with 128.
    destruct (Z.ltb_spec 128 nm); [lia |].
    rewrite Hmask.
    assert (Hcopy : copy_ip (Z.to_nat IPv6len) 0 addr addr
                      (replicate (Z.to_nat IPv6len) 0) = Ok addr).
    { apply copy_ip_all.
      - rewrite length_replicate. unfold len, IPv6len in *. lia.
      - unfold len, IPv6len in *. lia.
      - lia.
      - reflexivity. }
    rewrite Hcopy. cbn [bind].
    assert (Hl : length addr = 16%nat) by (unfold len in Hl16; lia).
    do 16 (destruct addr as [| ? addr]; [discriminate Hl |]).
    destruct addr; [| discriminate Hl].
    eexists. eexists. split; [reflexivity |].
    split; [reflexivity |].
    cbn [subnet_Code Family SourceNetmask SourceScope Address idx nth].
    repeat split.
    unfold IP_Equal, bytesEqual. cbn.
    rewrite bool_decide_eq_true_2 by reflexivity. reflexivity.
Qed.

Lemma UPDATE_LEASE_round_trip e r :
  fits (O_UPDATE_LEASE e) -> ul_Code e = ul_Code r ->
  exists b, UPDATE_LEASE_pack e = Ok b /\ UPDATE_LEASE_unpack r b = Ok e.
Proof.
  destruct e as [code l], r as [rcode rl]. cbn [fits ul_Code Lease].
  intros Hl <-. eexists. split; [reflexivity |].
  unfold UPDATE_LEASE_unpack, be32, at_.
  cbn -[byte uint16 uint32 uint64 Z.shiftr Z.shiftl Z.lor].
  now rewrite be32_bits.
Qed.

Lemma LLQ_round_trip e r :
  fits (O_LLQ e) -> llq_Code e = llq_Code r ->
  exists b, LLQ_pack e = Ok b /\ LLQ_unpack r b = Ok e.
Proof.
  destruct e as [code v o c i l], r as [rcode rv ro rc ri rl].
  cbn [fits llq_Code Version LLQOpcode ErrorCode LLQID LeaseLife].
  intros (Hv & Ho & Hc & Hi & Hl) <-. eexists. split; [reflexivity |].
  unfold LLQ_unpack, be16, be32, be64, at_.
  cbn -[byte uint16 uint32 uint64 Z.shiftr Z.shiftl Z.lor].
  now rewrite !be16_bits, be64_bits, be32_bits.
Qed.

(** C8, as amended: for an UPDATE-LEASE or LLQ option, an NSID whose text
    is an even number of lower-case hexadecimal digits, and a SUBNET of
    family 1 (an IPv4 address) or 2 (a 16-byte address) whose netmask is within
    the address width and whose address has no bit set beyond the netmask,
    pack succeeds and unpacking its bytes into a receiver of the same type
    and [Code] yields the original option, addresses being compared as
    [net.IP.Equal] compares them. *)
Theorem pack_unpack_canonical o r :
  fits o -> canonical o -> receiver_for o r ->
  exists b o', pack o = Ok b /\ unpack r b = Ok o' /\ EDNS0_equal o' o.
Proof.
  destruct o as [e | e | e | e], r as [r | r | r | r];
    intros Hfits Hcan Hrecv; try contradiction Hrecv;
    cbn [receiver_for] in Hrecv; cbn [pack unpack].
  - destruct e as [code s], r as [rcode rs].
    cbn [canonical Nsid nsid_Code] in *. subst rcode.
    destruct (hex_round_trip s Hcan) as (b & Hd & He).
    exists b, (O_NSID (mkNSID code s)).
    unfold NSID_pack, NSID_unpack. cbn [Nsid nsid_Code bind].
    rewrite Hd, He. repeat split.
  - destruct (SUBNET_round_trip e r Hfits Hcan Hrecv) as (b & e' & Hp & Hu & Heq).
    exists b, (O_SUBNET e'). rewrite Hp, Hu.
    split; [reflexivity | split; [reflexivity | exact Heq]].
  - destruct (UPDATE_LEASE_round_trip e r Hfits Hrecv) as (b & Hp & Hu).
    exists b, (O_UPDATE_LEASE e). rewrite Hp, Hu. repeat split.
  - destruct (LLQ_round_trip e r Hfits Hrecv) as (b & Hp & Hu).
    exists b, (O_LLQ e). rewrite Hp, Hu. repeat split.
Qed.

(** The law at the SUBNET 192.0.2.0/24, the masked form of scenario S6. *)
Lemma pack_unpack_canonical_witness :
  let o := O_SUBNET (mkSUBNET EDNS0SUBNET 1 24 0 [192; 0; 2; 0]) in
  exists b o', pack o = Ok b /\ unpack o b = Ok o' /\ EDNS0_equal o' o.
Proof.
  apply (pack_unpack_canonical
           (O_SUBNET (mkSUBNET EDNS0SUBNET 1 24 0 [192; 0; 2; 0]))
           (O_SUBNET (mkSUBNET EDNS0SUBNET 1 24 0 [192; 0; 2; 0]))).
  - cbn. repeat split; try lia. repeat constructor; unfold is_byte; lia.
  - left. repeat split; try (cbn; lia); reflexivity.
  - reflexivity.
Defined.

(** C8, as stated, fails: packing the SUBNET of scenario S6
    (192.0.2.77/24) masks the address, and unpacking yields 192.0.2.0. *)
Lemma pack_unpack_S6_differs :
  ~ (forall o r b,
       fits o -> recognized o -> receiver_for o r -> pack o = Ok b ->
       exists o', unpack r b = Ok o' /\ EDNS0_equal o' o).
Proof.
  intros H.
  destruct (H (O_SUBNET subnet_S6) (O_SUBNET subnet_S6)
              [0; 1; 24; 0; 192; 0; 2; 0]) as (o' & Hu & Heq).
  - cbn. repeat split; try lia. repeat constructor; unfold is_byte; lia.
  - left. cbn. lia.
  - reflexivity.
  - reflexivity.
  - vm_compute in Hu. injection Hu as <-.
    cbn [EDNS0_equal Address] in Heq.
    destruct Heq as (_ & _ & _ & _ & Hip). vm_compute in Hip. discriminate Hip.
Qed.

(** The same for an NSID in upper case: ["AB"] comes back as ["ab"]. *)
Lemma pack_unpack_NSID_upper_case :
  pack (O_NSID (mkNSID EDNS0NSID "AB")) = Ok [0xab] /\
  unpack (O_NSID (mkNSID EDNS0NSID "AB")) [0xab]
  = Ok (O_NSID (mkNSID EDNS0NSID "ab")).
Proof. split; reflexivity. Qed.

End EdnsFacts.

(** * Further properties *)

(** ** The OPT accessors *)

Section OptLaws.
Import Edns.

Ltac split_index n :=
  repeat match goal with
  | |- context [ (?a <=? n) ] => destruct (Z.leb_spec a n); try lia
  | |- context [ (n <? ?a) ] => destruct (Z.ltb_spec n a); try lia
  | |- context [ (?a =? n) ] => destruct (Z.eqb_spec a n); try lia
  | |- context [ (n =? ?a) ] => destruct (Z.eqb_spec n a); try lia
  end.

Lemma mask_version_bits n :
  0 <= n ->
  Z.testbit 0xFF00FFFF n = ((n <? 16) || (24 <=? n)) && (n <? 32).
Proof.
  intros Hn.
  change 0xFF00FFFF with (Z.lor (Z.ones 16) (Z.shiftl (Z.ones 8) 24)).
  rewrite Z.lor_spec, Z.shiftl_spec, Z.testbit_ones_nonneg by lia.
  destruct (Z.leb_spec 24 n).
  - rewrite Z.testbit_ones_nonneg by lia. split_index n; reflexivity.
  - rewrite (Z.testbit_neg_r _ (n - 24)) by lia. split_index n; reflexivity.
Qed.

(** [Version] reads the low byte of the ttl. *)
Lemma OPT_Version_low rr : OPT_Version rr = Ttl (Hdr rr) mod 2 ^ 8.
Proof.
  unfold OPT_Version, uint8, uint. apply Z.bits_inj'. intros n Hn.
  rewrite !Z.testbit_mod_pow2, Z.land_spec, mask_version_bits by lia.
  split_index n; cbn; rewrite ?andb_true_r; reflexivity.
Qed.

Lemma Do_bit rr : Do rr = Z.testbit (Ttl (Hdr rr)) 15.
Proof.
  unfold Do, _DO. change (Z.shiftl 1 7) with (2 ^ 7).
  set (x := Ttl (Hdr rr)).
  assert (H : Z.land (byte (Z.shiftr x 8)) (2 ^ 7)
              = if Z.testbit x 15 then 2 ^ 7 else 0).
  { apply Z.bits_inj'. intros n Hn.
    rewrite Z.land_spec, Z.pow2_bits_eqb by lia. unfold byte.
    rewrite testbit_uint, Z.shiftr_spec by lia.
    destruct (Z.eqb_spec 7 n) as [<- | Hne].
    - cbn [Z.add]. change (7 + 8) with 15.
      destruct (Z.testbit x 15); reflexivity.
    - rewrite andb_false_r.
      destruct (Z.testbit x 15).
      + rewrite Z.pow2_bits_eqb by lia.
        destruct (Z.eqb_spec 7 n); [contradiction | reflexivity].
      + rewrite Z.bits_0. reflexivity. }
  rewrite H. destruct (Z.testbit x 15); reflexivity.
Qed.

Lemma lor_bound w a b :
  0 <= w -> 0 <= a < 2 ^ w -> 0 <= b < 2 ^ w -> 0 <= Z.lor a b < 2 ^ w.
Proof.
  intros Hw Ha Hb.
  assert (H : Z.lor a b = Z.lor a b mod 2 ^ w).
  { apply Z.bits_inj'. intros n Hn.
    rewrite Z.testbit_mod_pow2, Z.lor_spec by lia.
    destruct (Z.ltb_spec n w); [reflexivity |].
    rewrite (testbit_above w a n), (testbit_above w b n) by lia. reflexivity. }
  rewrite H. apply Z.mod_pos_bound. apply Z.pow_pos_nonneg; lia.
Qed.

Lemma SetDo_eq rr :
  0 <= Ttl (Hdr rr) < 2 ^ 32 ->
  SetDo rr
  = mkOPT (set_Ttl (Hdr rr) (Z.lor (Ttl (Hdr rr)) (Z.shiftl 1 15))) (Option rr).
Proof.
  intros Hx. pose proof (SetDo_Ttl rr Hx) as H.
  unfold SetDo in *. cbn [Hdr Ttl set_Ttl] in H.
  unfold set_Ttl at 1. rewrite H. reflexivity.
Qed.

(** X2: After [SetDo], [Do] is true, [Version] and [UDPSize] read as before,
    and a second [SetDo] changes nothing. *)
Theorem SetDo_read_back rr :
  0 <= Ttl (Hdr rr) < 2 ^ 32 ->
  Do (SetDo rr) = true /\
  OPT_Version (SetDo rr) = OPT_Version rr /\
  UDPSize (SetDo rr) = UDPSize rr /\
  SetDo (SetDo rr) = SetDo rr.
Proof.
  intros Hx.
  assert (Hb : 0 <= Z.lor (Ttl (Hdr rr)) (Z.shiftl 1 15) < 2 ^ 32).
  { apply lor_bound; [lia | assumption |]. change (Z.shiftl 1 15) with 32768.
    change (2 ^ 32) with 4294967296. lia. }
  split; [| split; [| split]].
  - rewrite Do_bit, (SetDo_Ttl rr Hx), Z.lor_spec, Z.shiftl_1_l,
      Z.pow2_bits_eqb by lia.
    apply orb_true_r.
  - rewrite !OPT_Version_low, (SetDo_Ttl rr Hx).
    apply Z.bits_inj'. intros n Hn.
    rewrite !Z.testbit_mod_pow2, Z.lor_spec, Z.shiftl_1_l,
      Z.pow2_bits_eqb by lia.
    split_index n; cbn; rewrite ?orb_false_r; reflexivity.
  - rewrite (SetDo_eq rr Hx). reflexivity.
  - rewrite (SetDo_eq rr Hx).
    rewrite SetDo_eq by (cbn [Hdr Ttl set_Ttl]; exact Hb).
    cbn [Hdr Ttl set_Ttl Option Name Rrtype Class Rdlength].
    rewrite <- Z.lor_assoc, Z.lor_diag. reflexivity.
Qed.

Lemma SetDo_read_back_witness :
  let rr := mkOPT (mkHdr "." 41 4096 0x00010001 0) [] in
  Do (SetDo rr) = true /\
  OPT_Version (SetDo rr) = OPT_Version rr /\
  UDPSize (SetDo rr) = UDPSize rr /\
  SetDo (SetDo rr) = SetDo rr.
Proof.
  apply (SetDo_read_back (mkOPT (mkHdr "." 41 4096 0x00010001 0) [])).
  cbn. lia.
Defined.

Lemma SetDo_frame_witness :
  let rr := mkOPT (mkHdr "." 41 4096 0x12345678 0) [] in
  Z.testbit (Ttl (Hdr (SetDo rr))) 15 = true /\
  (forall n, n <> 15 ->
     Z.testbit (Ttl (Hdr (SetDo rr))) n = Z.testbit (Ttl (Hdr rr)) n) /\
  Name (Hdr (SetDo rr)) = Name (Hdr rr) /\
  Rrtype (Hdr (SetDo rr)) = Rrtype (Hdr rr) /\
  Class (Hdr (SetDo rr)) = Class (Hdr rr) /\
  Rdlength (Hdr (SetDo rr)) = Rdlength (Hdr rr) /\
  Option (SetDo rr) = Option rr.
Proof.
  apply (SetDo_frame (mkOPT (mkHdr "." 41 4096 0x12345678 0) [])).
  cbn. lia.
Defined.

(** X3: [Version] after [SetVersion v] is the old low byte of the ttl or-ed
    with [v]; [SetVersion] leaves the DO bit and the UDP size alone. *)
Theorem SetVersion_read_back rr v :
  0 <= v < 2 ^ 8 ->
  OPT_Version (SetVersion rr v) = Z.lor (OPT_Version rr) v /\
  Do (SetVersion rr v) = Do rr /\
  UDPSize (SetVersion rr v) = UDPSize rr.
Proof.
  intros Hv. split; [| split].
  - rewrite !OPT_Version_low. apply Z.bits_inj'. intros n Hn.
    rewrite Z.lor_spec, !Z.testbit_mod_pow2, SetVersion_bits by lia.
    destruct (Z.ltb_spec n 8).
    + split_index n; cbn; rewrite ?andb_true_r; reflexivity.
    + rewrite (testbit_above 8 v n) by lia. reflexivity.
  - rewrite !Do_bit, SetVersion_bits by lia.
    rewrite (testbit_above 8 v 15) by lia.
    cbn. rewrite andb_true_r, orb_false_r. reflexivity.
  - reflexivity.
Qed.

Lemma SetVersion_read_back_witness :
  let rr := mkOPT (mkHdr "." 41 4096 0x00008003 0) [] in
  OPT_Version (SetVersion rr 4) = Z.lor (OPT_Version rr) 4 /\
  Do (SetVersion rr 4) = Do rr /\
  UDPSize (SetVersion rr 4) = UDPSize rr.
Proof.
  apply (SetVersion_read_back (mkOPT (mkHdr "." 41 4096 0x00008003 0) []) 4).
  lia.
Defined.

End OptLaws.

(** ** The option codecs *)

Section CodecLaws.
Import Edns.

Lemma copy_ip_not_Fail err : forall todo i addr a ip,
  copy_ip todo i addr a ip <> Fail err.
Proof.
  induction todo as [| todo IH]; intros i addr a ip; cbn [copy_ip];
    [discriminate |].
  destruct (len addr <? Z.of_nat i + 1); [discriminate |].
  destruct (a !! i); [apply IH | discriminate].
Qed.


Lemma SUBNET_pack_cases e :
  (Family e = 1 /\ 32 < SourceNetmask e /\
   SUBNET_pack e = Fail (errors_New "bad netmask")) \/
  (Family e = 1 /\ SourceNetmask e <= 32 /\
   forall err, SUBNET_pack e <> Fail err) \/
  (Family e = 2 /\ 128 < SourceNetmask e /\
   SUBNET_pack e = Fail (errors_New "bad netmask")) \/
  (Family e = 2 /\ SourceNetmask e <= 128 /\
   forall err, SUBNET_pack e <> Fail err) \/
  (Family e <> 1 /\ Family e <> 2 /\
   SUBNET_pack e = Fail (errors_New "bad address family")).
Proof.
  unfold SUBNET_pack. cbn [packUint16].
  change (IPv4len * 8) with 32. change (IPv6len * 8) with 128.
  destruct (Z.eqb_spec (Family e) 1) as [H1 | H1].
  - destruct (Z.ltb_spec 32 (SourceNetmask e)).
    + left. auto.
    + right. left. split; [assumption |]. split; [assumption |].
      intros err.
      match goal with
      | |- context [copy_ip ?t ?i ?ad ?a ?ip] =>
          pose proof (copy_ip_not_Fail err t i ad a ip);
          destruct (copy_ip t i ad a ip); cbn [bind]; congruence
      end.
  - destruct (Z.eqb_spec (Family e) 2) as [H2 | H2].
    + destruct (Z.ltb_spec 128 (SourceNetmask e)).
      * right. right. left. auto.
      * right. right. right. left. split; [assumption |].
        split; [assumption |]. intros err.
        match goal with
        | |- context [copy_ip ?t ?i ?ad ?a ?ip] =>
            pose proof (copy_ip_not_Fail err t i ad a ip);
            destruct (copy_ip t i ad a ip); cbn [bind]; congruence
        end.
    + right. right. right. right. auto.
Qed.

(** X4: The two errors of [EDNS0_SUBNET.pack], and when each is returned. *)
Theorem SUBNET_pack_errors e :
  (SUBNET_pack e = Fail (errors_New "bad address family")
   <-> Family e <> 1 /\ Family e <> 2) /\
  (SUBNET_pack e = Fail (errors_New "bad netmask")
   <-> (Family e = 1 /\ 32 < SourceNetmask e)
       \/ (Family e = 2 /\ 128 < SourceNetmask e)) /\
  (forall err, SUBNET_pack e = Fail err ->
     err = errors_New "bad address family" \/ err = errors_New "bad netmask").
Proof.
  destruct (SUBNET_pack_cases e)
    as [(Hf & Hn & Hp) | [(Hf & Hn & Hp) | [(Hf & Hn & Hp)
         | [(Hf & Hn & Hp) | (Hf & Hn & Hp)]]]].
  - rewrite Hp. split; [| split].
    + split; [discriminate | intros [? ?]; congruence].
    + split; [intros _; left; auto | reflexivity].
    + intros err [= <-]. now right.
  - split; [| split].
    + split; [intros H; now apply Hp in H | intros [? ?]; congruence].
    + split; [intros H; now apply Hp in H | intros [[? ?] | [? ?]]; [lia | congruence]].
    + intros err H. now apply Hp in H.
  - rewrite Hp. split; [| split].
    + split; [discriminate | intros [? ?]; congruence].
    + split; [intros _; right; auto | reflexivity].
    + intros err [= <-]. now right.
  - split; [| split].
    + split; [intros H; now apply Hp in H | intros [? ?]; congruence].
    + split; [intros H; now apply Hp in H | intros [[? ?] | [? ?]]; [congruence | lia]].
    + intros err H. now apply Hp in H.
  - rewrite Hp. split; [| split].
    + split; [auto | reflexivity].
    + split; [discriminate | intros [[? ?] | [? ?]]; congruence].
    + intros err [= <-]. now left.
Qed.



Lemma cidr_bytes_length : forall l n, length (cidr_bytes l n) = l.
Proof.
  induction l as [| l IH]; intros n; cbn [cidr_bytes]; [reflexivity |].
  destruct (8 <=? n); cbn [length]; now rewrite IH.
Qed.

(** X6: With family 1 and an address that is not an IPv4 address, [pack] sends
    the zero address when the address is [nil] and panics otherwise: the
    masked address is [nil] and the copy loop indexes it. *)
Theorem SUBNET_pack_not_IPv4 e :
  Family e = 1 -> 0 <= SourceNetmask e <= 32 -> To4 (Address e) = [] ->
  SUBNET_pack e
  = match Address e with
    | [] => Ok [0; 1; SourceNetmask e; SourceScope e; 0; 0; 0; 0]
    | _ :: _ => Panic
    end.
Proof.
  intros Hf Hnm H4. unfold SUBNET_pack. rewrite Hf, H4.
  cbn [packUint16]. change (1 =? 1) with true. cbv iota.
  change (IPv4len * 8) with 32.
  destruct (Z.ltb_spec 32 (SourceNetmask e)); [lia |].
  assert (Hc : exists m, CIDRMask (SourceNetmask e) 32 = m /\ length m = 4%nat).
  { unfold CIDRMask. change (8 * IPv4len) with 32.
    change (32 =? 32) with true. cbn [negb andb].
    destruct (Z.ltb_spec (SourceNetmask e) 0); [lia |].
    destruct (Z.ltb_spec 32 (SourceNetmask e)); [lia |]. cbn [orb].
    eexists. split; [reflexivity |]. rewrite cidr_bytes_length. reflexivity. }
  destruct Hc as (m & -> & Hl).
  assert (Hm : Mask [] m = []).
  { destruct m as [| m0 [| m1 [| m2 [| m3 [| ? ?]]]]]; try discriminate Hl.
    reflexivity. }
  rewrite Hm. destruct (Address e) as [| a0 addr]; [reflexivity |].
  change (Z.to_nat IPv4len) with 4%nat. cbn [copy_ip].
  destruct (Z.ltb_spec (len (a0 :: addr)) (Z.of_nat 0 + 1)) as [Hlt | _].
  - unfold len in Hlt. cbn [length] in Hlt. lia.
  - reflexivity.
Qed.

Lemma SUBNET_pack_not_IPv4_witness :
  SUBNET_pack (mkSUBNET EDNS0SUBNET 1 24 0
                 [0x20; 0x01; 0x0d; 0xb8; 0; 0; 0; 0; 0; 0; 0; 0; 0; 0; 0; 1])
  = Panic.
Proof.
  apply (SUBNET_pack_not_IPv4
           (mkSUBNET EDNS0SUBNET 1 24 0
              [0x20; 0x01; 0x0d; 0xb8; 0; 0; 0; 0; 0; 0; 0; 0; 0; 0; 0; 1]));
    [reflexivity | cbn; lia | reflexivity].
Defined.

(** X7: [unpack] of an UPDATE-LEASE panics exactly on fewer than 4 bytes, of an
    LLQ on fewer than 18; that of an NSID or a SUBNET never panics. None
    returns an error. *)
Theorem unpack_panics_on_short_input b :
  (forall e, UPDATE_LEASE_unpack e b = Panic <-> (length b < 4)%nat) /\
  (forall e, LLQ_unpack e b = Panic <-> (length b < 18)%nat) /\
  (forall e, exists e', NSID_unpack e b = Ok e') /\
  (forall e, exists e', SUBNET_unpack e b = Ok e') /\
  (forall o err, unpack o b <> Fail err).
Proof.
  assert (HU : forall e, UPDATE_LEASE_unpack e b = Panic <-> (length b < 4)%nat).
  { intros e. unfold UPDATE_LEASE_unpack, be32, at_.
    do 4 (destruct b as [| ? b];
          [split; [intros _; cbn [length]; lia | reflexivity] |]).
    cbn -[uint32 Z.shiftl Z.lor].
    split; [discriminate | cbn [length]; lia]. }
  assert (HL : forall e, LLQ_unpack e b = Panic <-> (length b < 18)%nat).
  { intros e. unfold LLQ_unpack, be16, be32, be64, at_.
    do 18 (destruct b as [| ? b];
           [split; [intros _; cbn [length]; lia
                   | intros _; cbn -[uint16 uint32 uint64 Z.shiftl Z.lor];
                     reflexivity] |]).
    cbn -[uint16 uint32 uint64 Z.shiftl Z.lor].
    split; [discriminate | cbn [length]; lia]. }
  assert (HS : forall e, exists e', SUBNET_unpack e b = Ok e').
  { intros e. unfold SUBNET_unpack.
    repeat match goal with
           | |- context [if ?c then _ else _] => destruct c
           end; eexists; reflexivity. }
  split; [exact HU |]. split; [exact HL |].
  split; [intros e; eexists; reflexivity |]. split; [exact HS |].
  intros [e | e | e | e] err; cbn [unpack].
  - discriminate.
  - destruct (HS e) as [e' ->]. discriminate.
  - unfold UPDATE_LEASE_unpack, be32, at_.
    repeat (destruct (_ !! _); cbn [bind]; try discriminate).
  - unfold LLQ_unpack, be16, be32, be64, at_.
    repeat (destruct (_ !! _); cbn [bind]; try discriminate).
Qed.

End CodecLaws.

(** ** From the wire and back *)

Section WireLaws.
Import Edns.

Lemma testbit_shifted_byte w x s n :
  0 <= x < 2 ^ 8 -> 0 <= s -> s + 8 <= w -> 0 <= n ->
  Z.testbit (uint w (Z.shiftl (uint w x) s)) n = Z.testbit x (n - s).
Proof.
  intros Hx Hs Hw Hn.
  rewrite testbit_uint, Z.shiftl_spec, testbit_uint by lia.
  destruct (Z.ltb_spec (n - s) 0).
  - rewrite (Z.testbit_neg_r x (n - s)) by lia. now rewrite !andb_false_r.
  - destruct (Z.ltb_spec (n - s) 8).
    + destruct (Z.ltb_spec n w); [| lia].
      destruct (Z.ltb_spec (n - s) w); [| lia]. reflexivity.
    + rewrite (testbit_above 8 x (n - s)) by lia. now rewrite !andb_false_r.
Qed.

Lemma testbit_uint_byte w x n :
  0 <= x < 2 ^ 8 -> 8 <= w -> 0 <= n ->
  Z.testbit (uint w x) n = Z.testbit x n.
Proof.
  intros Hx Hw Hn. rewrite testbit_uint by lia.
  destruct (Z.ltb_spec n w); [reflexivity |].
  now rewrite (testbit_above 8 x n) by lia.
Qed.

(** Every bit read at an index other than [n] is read outside its byte, or
    at an index equal to [n]. *)
Ltac settle_bits n :=
  repeat match goal with
  | |- context [Z.testbit ?x ?m] =>
      lazymatch m with
      | n => fail
      | _ => first [ replace m with n by lia
                   | rewrite (testbit_above 8 x m) by lia
                   | rewrite (Z.testbit_neg_r x m) by lia ]
      end
  end.

Ltac byte_of_word n :=
  unfold byte, uint16, uint32, uint64;
  apply Z.bits_inj'; intros n ?;
  rewrite testbit_uint by lia;
  rewrite ?Z.shiftr_spec by lia;
  rewrite !Z.lor_spec;
  rewrite !testbit_shifted_byte, ?testbit_uint_byte by lia;
  destruct (Z.ltb_spec n 8);
  [ settle_bits n; cbn [andb orb]; rewrite ?orb_false_r; reflexivity
  | cbn [andb];
    match goal with
    | |- false = Z.testbit ?x n => now rewrite (testbit_above 8 x n) by lia
    end ].

Lemma bytes_of_be16 x0 x1 :
  is_byte x0 -> is_byte x1 ->
  let v := Z.lor (uint16 (Z.shiftl (uint16 x0) 8)) (uint16 x1) in
  byte (Z.shiftr v 8) = x0 /\ byte v = x1.
Proof.
  unfold is_byte. change 256 with (2 ^ 8). cbv zeta. intros H0 H1.
  split; byte_of_word n.
Qed.

Lemma bytes_of_be32 x0 x1 x2 x3 :
  is_byte x0 -> is_byte x1 -> is_byte x2 -> is_byte x3 ->
  let v := Z.lor (Z.lor (Z.lor (uint32 (Z.shiftl (uint32 x0) 24))
                               (uint32 (Z.shiftl (uint32 x1) 16)))
                        (uint32 (Z.shiftl (uint32 x2) 8)))
                 (uint32 x3) in
  byte (Z.shiftr v 24) = x0 /\ byte (Z.shiftr v 16) = x1 /\
  byte (Z.shiftr v 8) = x2 /\ byte v = x3.
Proof.
  unfold is_byte. change 256 with (2 ^ 8). cbv zeta. intros H0 H1 H2 H3.
  repeat split; byte_of_word n.
Qed.

Lemma bytes_of_be64 x0 x1 x2 x3 x4 x5 x6 x7 :
  is_byte x0 -> is_byte x1 -> is_byte x2 -> is_byte x3 ->
  is_byte x4 -> is_byte x5 -> is_byte x6 -> is_byte x7 ->
  let v := Z.lor (Z.lor (Z.lor (Z.lor (Z.lor (Z.lor (Z.lor
             (uint64 (Z.shiftl (uint64 x0) 56))
             (uint64 (Z.shiftl (uint64 x1) 48)))
             (uint64 (Z.shiftl (uint64 x2) 40)))
             (uint64 (Z.shiftl (uint64 x3) 32)))
             (uint64 (Z.shiftl (uint64 x4) 24)))
             (uint64 (Z.shiftl (uint64 x5) 16)))
             (uint64 (Z.shiftl (uint64 x6) 8)))
             (uint64 x7) in
  byte (Z.shiftr v 56) = x0 /\ byte (Z.shiftr v 48) = x1 /\
  byte (Z.shiftr v 40) = x2 /\ byte (Z.shiftr v 32) = x3 /\
  byte (Z.shiftr v 24) = x4 /\ byte (Z.shiftr v 16) = x5 /\
  byte (Z.shiftr v 8) = x6 /\ byte v = x7.
Proof.
  unfold is_byte. change 256 with (2 ^ 8).
  cbv zeta. intros H0 H1 H2 H3 H4 H5 H6 H7.
  repeat split; byte_of_word n.
Qed.

Lemma hex_digit n : 0 <= n < 16 ->
  fromHexChar (hextable n) = Some n /\ lower_hex (hextable n) = true.
Proof.
  intros Hn.
  assert (H : In n [0; 1; 2; 3; 4; 5; 6; 7; 8; 9; 10; 11; 12; 13; 14; 15])
    by (cbn [In]; lia).
  cbn [In] in H.
  repeat (destruct H as [<- | H]; [split; reflexivity |]). contradiction.
Qed.

Lemma nibbles_of_byte v :
  is_byte v ->
  0 <= Z.shiftr v 4 < 16 /\ 0 <= Z.land v 0x0f < 16 /\
  Z.lor (byte (Z.shiftl (Z.shiftr v 4) 4)) (Z.land v 0x0f) = v.
Proof.
  unfold is_byte. intros Hv. split; [| split].
  - rewrite Z.shiftr_div_pow2 by lia. change (2 ^ 4) with 16.
    split; [apply Z.div_pos; lia | apply Z.div_lt_upper_bound; lia].
  - change 0x0f with (Z.ones 4). rewrite Z.land_ones by lia.
    apply Z.mod_pos_bound. reflexivity.
  - apply Z.bits_inj'. intros n Hn. unfold byte.
    change 0x0f with (Z.ones 4).
    rewrite Z.lor_spec, testbit_uint, Z.shiftl_spec, Z.land_spec,
      Z.testbit_ones_nonneg by lia.
    destruct (Z.ltb_spec n 4).
    + rewrite (Z.testbit_neg_r _ (n - 4)) by lia.
      rewrite andb_false_r, andb_true_r. reflexivity.
    + rewrite Z.shiftr_spec by lia. replace (n - 4 + 4) with n by lia.
      rewrite andb_false_r, orb_false_r.
      destruct (Z.ltb_spec n 8); [reflexivity |].
      change 256 with (2 ^ 8) in Hv.
      now rewrite (testbit_above 8 v n) by lia.
Qed.

(** [hex.DecodeString] undoes [hex.EncodeToString], whose output is in
    lower case. *)
Lemma hex_decode_encode b :
  bytes_ok b ->
  hex_DecodeString (hex_EncodeToString b) = Some b /\
  lower_hex_pairs (hex_EncodeToString b) = true.
Proof.
  induction 1 as [| v b Hv Hb [IHd IHl]]; [split; reflexivity |].
  destruct (nibbles_of_byte v Hv) as (Hh & Hl & Hv').
  destruct (hex_digit _ Hh) as [Eh Lh]. destruct (hex_digit _ Hl) as [El Ll].
  cbn [hex_EncodeToString hex_DecodeString lower_hex_pairs].
  rewrite Eh, El, IHd, Hv', Lh, Ll, IHl. split; reflexivity.
Qed.

(** X8: Option data read by [unpack] and written again by [pack] comes back
    byte for byte: for an NSID of any length, an UPDATE-LEASE of 4 bytes and
    an LLQ of 18 bytes. *)
Theorem unpack_pack_wire o b :
  bytes_ok b -> Wire.wire_length o b ->
  exists o', unpack o b = Ok o' /\ pack o' = Ok b.
Proof.
  intros Hb Hl. destruct o as [e | e | e | e]; cbn [Wire.wire_length] in Hl.
  - eexists. split; [reflexivity |]. cbn [pack]. unfold NSID_pack.
    cbn [Nsid]. destruct (hex_decode_encode b Hb) as [-> _]. reflexivity.
  - contradiction.
  - destruct b as [| x0 [| x1 [| x2 [| x3 [| ? ?]]]]]; try discriminate Hl.
    apply Forall_cons in Hb as [H0 Hb]. apply Forall_cons in Hb as [H1 Hb].
    apply Forall_cons in Hb as [H2 Hb]. apply Forall_cons in Hb as [H3 _].
    unfold unpack, UPDATE_LEASE_unpack, be32, at_.
    cbn -[uint32 Z.shiftl Z.lor].
    eexists. split; [reflexivity |].
    cbn [pack]. unfold UPDATE_LEASE_pack. cbn [Lease].
    destruct (bytes_of_be32 x0 x1 x2 x3 H0 H1 H2 H3) as (-> & -> & -> & ->).
    reflexivity.
  - do 18 (destruct b as [| ? b]; [discriminate Hl |]).
    destruct b; [| discriminate Hl].
    unfold bytes_ok in Hb.
    repeat match goal with
           | H : Forall _ (_ :: _) |- _ => apply Forall_cons in H as [? H]
           end.
    unfold unpack, LLQ_unpack, be16, be32, be64, at_.
    cbn -[uint16 uint32 uint64 Z.shiftl Z.lor].
    eexists. split; [reflexivity |].
    cbn [pack]. unfold LLQ_pack.
    cbn [Version LLQOpcode ErrorCode LLQID LeaseLife].
    repeat match goal with
           | |- context [byte (Z.shiftr (Z.lor (uint16 (Z.shiftl (uint16 ?a) 8)) (uint16 ?b)) 8)] =>
               destruct (bytes_of_be16 a b) as (-> & ->); [assumption | assumption |]
           end.
    match goal with
    | |- context [uint64 (Z.shiftl (uint64 ?a0) 56)] =>
        match goal with
        | |- context [Z.lor (Z.lor (Z.lor (Z.lor (Z.lor (Z.lor (Z.lor
                        (uint64 (Z.shiftl (uint64 a0) 56))
                        (uint64 (Z.shiftl (uint64 ?a1) 48)))
                        (uint64 (Z.shiftl (uint64 ?a2) 40)))
                        (uint64 (Z.shiftl (uint64 ?a3) 32)))
                        (uint64 (Z.shiftl (uint64 ?a4) 24)))
                        (uint64 (Z.shiftl (uint64 ?a5) 16)))
                        (uint64 (Z.shiftl (uint64 ?a6) 8)))
                        (uint64 ?a7)] =>
            destruct (bytes_of_be64 a0 a1 a2 a3 a4 a5 a6 a7)
              as (-> & -> & -> & -> & -> & -> & -> & ->); try assumption
        end
    end.
    match goal with
    | |- context [Z.lor (Z.lor (Z.lor (uint32 (Z.shiftl (uint32 ?a0) 24))
                                      (uint32 (Z.shiftl (uint32 ?a1) 16)))
                               (uint32 (Z.shiftl (uint32 ?a2) 8)))
                        (uint32 ?a3)] =>
        destruct (bytes_of_be32 a0 a1 a2 a3) as (-> & -> & -> & ->);
          try assumption
    end.
    reflexivity.
Qed.

Lemma unpack_pack_wire_witness :
  exists o',
    unpack (O_LLQ (mkLLQ EDNS0LLQ 0 0 0 0 0))
      [0; 1; 0; 2; 0; 0; 1; 2; 3; 4; 5; 6; 7; 8; 0; 0; 14; 16] = Ok o' /\
    pack o' = Ok [0; 1; 0; 2; 0; 0; 1; 2; 3; 4; 5; 6; 7; 8; 0; 0; 14; 16].
Proof.
  apply (unpack_pack_wire (O_LLQ (mkLLQ EDNS0LLQ 0 0 0 0 0))
           [0; 1; 0; 2; 0; 0; 1; 2; 3; 4; 5; 6; 7; 8; 0; 0; 14; 16]).
  - repeat constructor; unfold is_byte; lia.
  - reflexivity.
Defined.

End WireLaws.

(** ** Radix keys *)

Section KeyLaws.
Import Names.





























End KeyLaws.

(** ** The zone store *)

Section StoreLaws.
Import Names Zone Store.

Context (E : Env).

(** *** The tree *)

Lemma radix_lookup_Insert_same t key v :
  radix_lookup t key = None ->
  radix_lookup (radix_Insert t key v) key = Some v.
Proof.
  induction t as [| [k v'] t IH]; cbn [radix_lookup radix_Insert]; intros H.
  - now rewrite String.eqb_refl.
  - destruct (String.eqb_spec k key) as [-> | Hk]; [discriminate H |].
    destruct (String.compare key k) eqn:Hc; cbn [radix_lookup].
    + apply String.compare_eq_iff in Hc. congruence.
    + now rewrite String.eqb_refl.
    + destruct (String.eqb_spec k key); [contradiction | auto].
Qed.


Lemma radix_Remove_Insert t key v :
  radix_lookup t key = None ->
  radix_Remove (radix_Insert t key v) key = t.
Proof.
  induction t as [| [k v'] t IH]; cbn [radix_lookup radix_Insert]; intros H.
  - cbn [radix_Remove]. now rewrite String.eqb_refl.
  - destruct (String.eqb_spec k key) as [-> | Hk]; [discriminate H |].
    destruct (String.compare key k) eqn:Hc; cbn [radix_Remove].
    + apply String.compare_eq_iff in Hc. congruence.
    + now rewrite String.eqb_refl.
    + destruct (String.eqb_spec k key); [contradiction |]. now rewrite IH.
Qed.


Lemma radix_lookup_Some t key v :
  radix_lookup t key = Some v -> In (key, v) t.
Proof.
  induction t as [| [k v'] t IH]; cbn [radix_lookup]; [discriminate |].
  destruct (String.eqb_spec k key) as [-> | Hk].
  - intros [= ->]. now left.
  - intros H. right. auto.
Qed.


Lemma compare_Lt_trans : forall a b c,
  String.compare a b = Lt -> String.compare b c = Lt -> String.compare a c = Lt.
Proof.
  induction a as [| x a IH]; intros [| y b] [| z c]; cbn [String.compare];
    try discriminate; try reflexivity.
  destruct (Ascii.compare x y) eqn:Hxy; try discriminate;
    destruct (Ascii.compare y z) eqn:Hyz; try discriminate; intros H1 H2.
  - apply Ascii.compare_eq_iff in Hxy, Hyz. subst.
    unfold Ascii.compare. rewrite N.compare_refl. eauto.
  - apply Ascii.compare_eq_iff in Hxy. subst. now rewrite Hyz.
  - apply Ascii.compare_eq_iff in Hyz. subst. now rewrite Hxy.
  - assert (Hxz : Ascii.compare x z = Lt); [| now rewrite Hxz].
    unfold Ascii.compare in *. apply N.compare_lt_iff.
    apply N.compare_lt_iff in Hxy, Hyz. eapply N.lt_trans; eauto.
Qed.

Lemma compare_refl a : String.compare a a = Eq.
Proof.
  induction a as [| x a IH]; cbn [String.compare]; [reflexivity |].
  unfold Ascii.compare. now rewrite N.compare_refl.
Qed.

Lemma compare_Lt_irrefl a : String.compare a a <> Lt.
Proof.
  rewrite compare_refl. discriminate.
Qed.



(** *** Deleting from a slice while ranging over it *)

Lemma range_delete_skip {A} (P : A -> bool) k : forall todo i arr ln rem,
  (forall j x, (i <= j < i + k)%nat -> arr !! j = Some x -> P x = false) ->
  (i + k <= length arr)%nat ->
  range_delete P (k + todo) i arr ln rem
  = range_delete P todo (i + k) arr ln rem.
Proof.
  induction k as [| k IH]; intros todo i arr ln rem Hf Hlen.
  - now rewrite Nat.add_0_r.
  - cbn [Nat.add range_delete].
    destruct (lookup_lt_is_Some_2 arr i ltac:(lia)) as [x Hx]. rewrite Hx.
    rewrite (Hf i x ltac:(lia) Hx).
    rewrite IH; [f_equal; lia | | lia].
    intros j y Hj. apply Hf. lia.
Qed.

Lemma range_delete_none {A} (P : A -> bool) todo : forall i arr ln rem,
  (forall j x, (i <= j < i + todo)%nat -> arr !! j = Some x -> P x = false) ->
  (i + todo <= length arr)%nat ->
  range_delete P todo i arr ln rem = Ok (arr, ln, rem).
Proof.
  intros i arr ln rem Hf Hlen.
  rewrite <- (Nat.add_0_r todo), range_delete_skip by assumption.
  reflexivity.
Qed.

(** When no element matches, the slice is left as it is. *)
Lemma delete_matching_none {A} (P : A -> bool) s :
  Forall (fun x => P x = false) s -> delete_matching P s = Ok (s, false).
Proof.
  intros Hf. unfold delete_matching.
  rewrite range_delete_none; cbn [bind].
  - now rewrite firstn_all.
  - intros j x _ Hx. rewrite Forall_forall in Hf. apply Hf.
    eapply list_elem_of_lookup_2; eauto.
  - lia.
Qed.

(** When one element matches, it is taken out. *)
Lemma delete_matching_once {A} (P : A -> bool) l1 x l2 :
  Forall (fun y => P y = false) l1 -> P x = true ->
  Forall (fun y => P y = false) l2 ->
  delete_matching P (l1 ++ x :: l2) = Ok (l1 ++ l2, true).
Proof.
  intros H1 Hx H2. unfold delete_matching.
  set (arr := l1 ++ x :: l2).
  assert (Hn : length arr = (length l1 + S (length l2))%nat)
    by (subst arr; rewrite length_app; reflexivity).
  rewrite Hn at 1.
  rewrite range_delete_skip; cycle 1.
  { intros j y Hj Hy. subst arr. rewrite lookup_app_l in Hy by lia.
    rewrite Forall_forall in H1. apply H1. eapply list_elem_of_lookup_2; eauto. }
  { lia. }
  cbn [Nat.add range_delete].
  assert (Hi : arr !! length l1 = Some x) by (subst arr; apply list_lookup_middle; reflexivity).
  rewrite Hi, Hx.
  destruct (Nat.ltb_spec (length arr) (length l1 + 1)); [lia |].
  rewrite (firstn_all arr).
  assert (Ht : take (length l1) arr = l1) by (subst arr; apply take_app_length).
  assert (Hd : drop (S (length l1)) arr = l2).
  { subst arr. rewrite (cons_middle x l1 l2), app_assoc.
    apply drop_app_length'. rewrite length_app. cbn [length]. lia. }
  assert (Hl : drop (length arr - 1) arr = drop (length l2) (x :: l2)).
  { subst arr. replace (length (l1 ++ x :: l2) - 1)%nat
      with (length l1 + length l2)%nat by (rewrite length_app; cbn [length]; lia).
    now rewrite drop_app_add'. }
  rewrite Ht, Hd, Hl.
  rewrite range_delete_none; cbn [bind].
  - f_equal. f_equal. rewrite app_assoc. apply take_app_length'.
    rewrite length_app. lia.
  - intros j y Hj Hy. rewrite lookup_app_r in Hy by lia.
    assert (Hin : y ∈ l2).
    { destruct (decide (j - length l1 < length l2)%nat) as [Hlt | Hge].
      - rewrite lookup_app_l in Hy by lia. eapply list_elem_of_lookup_2; eauto.
      - rewrite lookup_app_r in Hy by lia. rewrite lookup_drop in Hy.
        replace (length l2 + (j - length l1 - length l2))%nat
          with (S (j - length l1 - 1)) in Hy by lia.
        cbn [lookup] in Hy. eapply list_elem_of_lookup_2; eauto. }
    rewrite Forall_forall in H2. now apply H2.
  - rewrite !length_app, length_drop. cbn [length]. lia.
Qed.

(** The elements left are elements of the slice. *)
Lemma range_delete_Forall {A} (P : A -> bool) (Q : A -> Prop) todo :
  forall i arr ln rem arr' ln' rem',
  Forall Q arr ->
  range_delete P todo i arr ln rem = Ok (arr', ln', rem') -> Forall Q arr'.
Proof.
  induction todo as [| todo IH]; intros i arr ln rem arr' ln' rem' HQ H;
    cbn [range_delete] in H.
  - now injection H as <- _ _.
  - destruct (arr !! i) as [x |]; [| discriminate H].
    destruct (P x).
    + destruct (Nat.ltb ln (i + 1)); [discriminate H |].
      eapply IH; [| exact H].
      repeat apply Forall_app_2;
        auto using Forall_take, Forall_drop.
    + eapply IH; eauto.
Qed.

Lemma delete_matching_Forall {A} (P : A -> bool) (Q : A -> Prop) s l b :
  Forall Q s -> delete_matching P s = Ok (l, b) -> Forall Q l.
Proof.
  intros HQ H. unfold delete_matching in H.
  destruct (range_delete P (length s) 0 s (length s) false)
    as [[[arr ln] rem] | | |] eqn:Hr; cbn [bind] in H; try discriminate H.
  injection H as <- _. apply Forall_take.
  eapply range_delete_Forall; eauto.
Qed.

(** Once an element has been deleted, a match at the last place of the
    slice is read from the array but lies beyond the slice: [s[i+1:]]
    panics. *)
Lemma range_delete_last {A} (P : A -> bool) x n todo :
  forall i arr ln rem,
  length arr = n -> (i + todo = n)%nat -> (1 <= todo)%nat ->
  arr !! (n - 1)%nat = Some x -> P x = true -> (ln <= n)%nat ->
  (ln < n)%nat \/
    (exists j y, (i <= j < n - 1)%nat /\ arr !! j = Some y /\ P y = true) ->
  range_delete P todo i arr ln rem = Panic.
Proof.
  induction todo as [| todo IH]; intros i arr ln rem Hlen Hi Htodo Hx HP Hln Hc;
    [lia |].
  cbn [range_delete].
  destruct (lookup_lt_is_Some_2 arr i ltac:(lia)) as [y Hy]. rewrite Hy.
  destruct (P y) eqn:HPy.
  - destruct (Nat.ltb_spec ln (i + 1)); [reflexivity |].
    apply IH.
    + rewrite !length_app, length_take, !length_drop, length_take. lia.
    + lia.
    + destruct todo; [| lia]. exfalso.
      destruct Hc as [? | (j & ? & ? & _)]; lia.
    + rewrite lookup_app_r by (rewrite length_take; lia).
      rewrite lookup_app_r by (rewrite length_take, length_drop, length_take; lia).
      rewrite lookup_drop. rewrite <- Hx. f_equal.
      rewrite length_take, length_drop, length_take. lia.
    + exact HP.
    + lia.
    + left. lia.
  - assert (Htodo' : (1 <= todo)%nat).
    { destruct todo; [| lia]. exfalso.
      replace i with (n - 1)%nat in Hy by lia. congruence. }
    apply IH; try assumption; try lia.
    destruct Hc as [Hc | (j & y' & Hj & Hy' & HPy')]; [now left |].
    right. exists j, y'. split; [| now split].
    destruct (decide (j = i)) as [-> | Hne]; [congruence | lia].
Qed.

(** A match at the last place after an earlier match: the deletion panics. *)
Lemma delete_matching_duplicate {A} (P : A -> bool) l x :
  Exists (fun y => P y = true) l -> P x = true ->
  delete_matching P (l ++ [x]) = Panic.
Proof.
  intros He Hx. unfold delete_matching.
  rewrite (range_delete_last P x (length (l ++ [x]))); try reflexivity.
  - rewrite length_app. cbn [length]. lia.
  - rewrite length_app. cbn [length].
    replace (length l + 1 - 1)%nat with (length l) by lia.
    now rewrite list_lookup_middle.
  - exact Hx.
  - right. apply Exists_exists in He as (y & Hin & Hy).
    apply list_elem_of_lookup_1 in Hin as [j Hj].
    exists j, y. pose proof (lookup_lt_Some _ _ _ Hj).
    rewrite length_app. cbn [length].
    split; [lia |]. split; [| exact Hy]. now rewrite lookup_app_l.
Qed.

(** *** Insert *)



(** X12: The outcomes of [Insert]: it returns an error exactly for a name that
    is not in the zone, and the error is then [out of zone data]; it panics
    exactly for a name of the zone on which [toRadixName] panics, and for a
    record of the type RRSIG that is not an RRSIG record. *)
Theorem Insert_outcomes z r now :
  (forall e, Insert E z r now = Fail e <->
     isSubDomain E z (Name (Header r)) = false /\
     e = Error_ "out of zone data" (Name (Header r))) /\
  (Insert E z r now = Panic <->
     isSubDomain E z (Name (Header r)) = true /\
     (toRadixName (Name (Header r)) = Panic \/
      Rrtype (Header r) = TypeRRSIG /\ dyntype r <> 4%nat)).
Proof.
  assert (Hk : forall d, toRadixName d = Panic \/ exists k, toRadixName d = Ok k).
  { intros d. unfold toRadixName. destruct (_ || _); [eauto |].
    cbv zeta. destruct (String.length _); eauto. }
  assert (Hi : forall origin zd,
             (exists zd', insert_rr origin zd r = Ok zd' /\
                (Rrtype (Header r) = TypeRRSIG -> dyntype r = 4%nat)) \/
             (insert_rr origin zd r = Panic /\
                Rrtype (Header r) = TypeRRSIG /\ dyntype r <> 4%nat)).
  { intros origin zd. unfold insert_rr.
    destruct (Z.eqb_spec (Rrtype (Header r)) TypeRRSIG) as [Heq | Hne].
    - destruct r; cbn [dyntype]; (left; eexists; split; [reflexivity | reflexivity])
        || (right; split; [reflexivity | split; [assumption | discriminate]]).
    - left. eexists. split; [reflexivity | contradiction]. }
  unfold Insert.
  destruct (isSubDomain E z (Name (Header r))); cbn [negb].
  2:{ split; [intros e | ]; split; try discriminate.
      - intros [= <-]. now split.
      - now intros [_ ->].
      - intros [? _]. discriminate. }
  destruct (Hk (Name (Header r))) as [-> | [key ->]]; cbn [bind].
  { split; [intros e | ]; split; try discriminate;
      try (intros [? _]; discriminate); try (intros _; reflexivity).
    intros _. split; [reflexivity | now left]. }
  cbv zeta.
  destruct (radix_Find (Radix (set_ModTime z now)) key) as [[[k zd] |] []];
    match goal with
    | |- context [insert_rr ?o ?d r] =>
        destruct (Hi o d) as [(zd' & -> & Hty) | (-> & Hty & Hdyn)]
    end; cbn [bind];
    (split; [intros e | ]; split; try discriminate;
     try (intros [? _]; discriminate); try (intros _; reflexivity));
    first [ intros [_ [? | [H1 H2]]]; [discriminate | now apply Hty in H1]
          | intros _; split; [reflexivity | now right] ].
Qed.

(** *** Remove *)



(** X15: "Remove will remove all duplicates": it does not. When the record is
    the last of its RRset and occurs in it before, the second deletion
    slices beyond the shortened RRset and [Remove] panics. *)
Theorem Remove_panics_on_duplicate z r now key zd l r' :
  toRadixName (Name (Header r)) = Ok key ->
  Rrtype (Header r) <> TypeRRSIG ->
  radix_lookup (Radix z) key = Some zd ->
  slice_at (zd_RR zd) (Rrtype (Header r)) = l ++ [r'] ->
  RR_eq r r' = true ->
  Exists (fun zr => RR_eq r zr = true) l ->
  Remove E z r now = Panic.
Proof.
  intros Hkey Ht Hl Hset Heq Hex. unfold Remove. rewrite Hkey. cbn [bind].
  unfold radix_Find. cbn [Radix set_ModTime]. rewrite Hl.
  destruct (Z.eqb_spec (Rrtype (Header r)) TypeRRSIG); [contradiction |].
  rewrite Hset, delete_matching_duplicate by assumption. reflexivity.
Qed.

Lemma RR_eq_refl r : RR_eq r r = true.
Proof. unfold RR_eq. now rewrite !Nat.eqb_refl. Qed.

Lemma Remove_only_record z r now key zd :
  toRadixName (Name (Header r)) = Ok key ->
  Rrtype (Header r) <> TypeRRSIG ->
  radix_lookup (Radix z) key = Some zd ->
  zd_RR zd = <[Rrtype (Header r) := [r]]> ∅ ->
  zd_Signatures zd = ∅ ->
  Remove E z r now
  = Ok (set_Radix
          (if is_wildcard (Name (Header r))
           then set_Wildcard (set_ModTime z now) (Z.max 0 (Wildcard z - 1))
           else set_ModTime z now)
          (radix_Remove (Radix z) key)).
Proof.
  intros Hkey Ht Hl Hrr Hsig. unfold Remove. rewrite Hkey. cbn [bind].
  unfold radix_Find. cbn [Radix set_ModTime]. rewrite Hl.
  destruct (Z.eqb_spec (Rrtype (Header r)) TypeRRSIG); [contradiction |].
  unfold slice_at. rewrite Hrr, lookup_insert_eq.
  change (default [] (Some [r])) with [r].
  pose proof (delete_matching_once (fun zr => RR_eq r zr) [] r []
                (Forall_nil_2 _) (RR_eq_refl r) (Forall_nil_2 _)) as Hd.
  change ([] ++ [r]) with [r] in Hd. change ([] ++ []) with (@nil RR) in Hd.
  rewrite Hd.
  cbn [bind app length Nat.eqb negb zd_RR set_RR zd_Signatures].
  rewrite delete_insert_eq, delete_empty, Hsig, !map_size_empty.
  cbn [Nat.eqb andb Wildcard].
  destruct (is_wildcard (Name (Header r))); reflexivity.
Qed.

(** X16: [Insert] of a record at a name that has no node, then [Remove] of the
    record: the zone is as it was, but for the modification time. *)
Theorem Insert_Remove_round_trip z r now now' key :
  isSubDomain E z (Name (Header r)) = true ->
  toRadixName (Name (Header r)) = Ok key ->
  Rrtype (Header r) <> TypeRRSIG ->
  radix_lookup (Radix z) key = None ->
  0 <= Wildcard z ->
  exists z1,
    Insert E z r now = Ok z1 /\
    Remove E z1 r now' = Ok (set_ModTime z now').
Proof.
  intros Hsub Hkey Ht Hl Hw. unfold Insert.
  rewrite Hsub. cbn [negb]. rewrite Hkey. cbn [bind].
  unfold radix_Find. cbn [Radix set_ModTime]. rewrite Hl.
  unfold insert_rr.
  destruct (Z.eqb_spec (Rrtype (Header r)) TypeRRSIG); [contradiction |].
  eexists. split.
  { destruct (radix_ancestor (Radix z) key None) as [[? ?] |]; reflexivity. }
  cbv zeta. cbn [bind].
  erewrite Remove_only_record; [| exact Hkey | exact Ht | | | ].
  - destruct z as [o ol wc ex mt tr]. cbn [Radix Wildcard] in *.
    destruct (is_wildcard (Name (Header r)));
      unfold set_Radix, set_Wildcard, set_ModTime;
      cbn [Radix Origin olabels Wildcard expired ModTime];
      rewrite radix_Remove_Insert by assumption; [| reflexivity].
    do 2 f_equal. lia.
  - destruct (is_wildcard (Name (Header r)));
      cbn [Radix set_Radix set_ModTime set_Wildcard];
      apply radix_lookup_Insert_same; assumption.
  - destruct (is_wildcard (Name (Header r))); destruct (_ && _); reflexivity.
  - destruct (is_wildcard (Name (Header r))); destruct (_ && _); reflexivity.
Qed.

(** *** RemoveName *)


(** *** What every sequence of operations keeps *)

Lemma Forall_radix_store (Q : string * ZoneData -> Prop) t key v :
  Forall Q t -> (forall v0, In (key, v0) t -> Q (key, v)) ->
  Forall Q (radix_store t key v).
Proof.
  induction t as [| [k v'] t IH]; cbn [radix_store]; intros Ht Hq; [constructor |].
  apply Forall_cons in Ht as [Hh Ht].
  destruct (String.eqb_spec k key) as [-> | Hk].
  - constructor; [| assumption]. apply (Hq v'). now left.
  - constructor; [assumption |]. apply IH; [assumption |].
    intros v0 Hin. apply (Hq v0). now right.
Qed.

Lemma Forall_radix_Remove (Q : string * ZoneData -> Prop) t key :
  Forall Q t -> Forall Q (radix_Remove t key).
Proof.
  induction t as [| [k v'] t IH]; cbn [radix_Remove]; intros Ht; [constructor |].
  apply Forall_cons in Ht as [Hh Ht].
  destruct (String.eqb k key); [assumption |]. constructor; auto.
Qed.

Lemma Forall_radix_Insert (Q : string * ZoneData -> Prop) t key v :
  Forall Q t -> Q (key, v) -> Forall Q (radix_Insert t key v).
Proof.
  induction t as [| [k v'] t IH]; cbn [radix_Insert]; intros Ht Hq.
  - now repeat constructor.
  - pose proof Ht as Ht'. apply Forall_cons in Ht' as [Hh Ht'].
    destruct (String.compare key k); [assumption | now constructor |].
    constructor; auto.
Qed.

Lemma keys_increasing_store t key v :
  keys_increasing t -> keys_increasing (radix_store t key v).
Proof.
  unfold keys_increasing.
  induction t as [| [k v'] t IH]; cbn [radix_store]; intros Hs; [constructor |].
  apply StronglySorted_inv in Hs as [Hs Hall].
  destruct (String.eqb_spec k key) as [-> | Hk].
  - now constructor.
  - constructor; [auto |]. apply Forall_radix_store; [assumption |].
    intros v0 Hin. rewrite Forall_forall in Hall.
    apply (Hall (key, v0)). now apply list_elem_of_In.
Qed.

Lemma keys_increasing_Remove t key :
  keys_increasing t -> keys_increasing (radix_Remove t key).
Proof.
  unfold keys_increasing.
  induction t as [| [k v'] t IH]; cbn [radix_Remove]; intros Hs; [constructor |].
  apply StronglySorted_inv in Hs as [Hs Hall].
  destruct (String.eqb k key); [assumption |].
  constructor; [auto |]. now apply Forall_radix_Remove.
Qed.

Lemma keys_increasing_Insert t key v :
  keys_increasing t -> keys_increasing (radix_Insert t key v).
Proof.
  unfold keys_increasing.
  induction t as [| [k v'] t IH]; cbn [radix_Insert]; intros Hs.
  - repeat constructor.
  - pose proof Hs as Hs'. apply StronglySorted_inv in Hs' as [Hs' Hall].
    destruct (String.compare key k) eqn:Hc; [assumption | |].
    + constructor; [assumption |]. constructor; [exact Hc |].
      eapply Forall_impl; [exact Hall |]. intros [k' ?]. cbn [fst].
      unfold key_lt. now apply compare_Lt_trans.
    + constructor; [auto |]. apply Forall_radix_Insert; [assumption |].
      cbn [fst]. unfold key_lt. rewrite String.compare_antisym, Hc. reflexivity.
Qed.

Lemma filed_slice_at {A} (Q : Z -> A -> Prop) (m : gmap Z (list A)) t :
  (forall t l, m !! t = Some l -> Forall (Q t) l) -> Forall (Q t) (slice_at m t).
Proof.
  intros H. unfold slice_at. destruct (m !! t) as [l |] eqn:Hl; cbn [default].
  - eauto.
  - constructor.
Qed.

Lemma filed_insert {A} (Q : Z -> A -> Prop) (m : gmap Z (list A)) t0 l0 :
  (forall t l, m !! t = Some l -> Forall (Q t) l) -> Forall (Q t0) l0 ->
  forall t l, <[t0 := l0]> m !! t = Some l -> Forall (Q t) l.
Proof.
  intros H H0 t l. destruct (decide (t0 = t)) as [-> | Hne].
  - rewrite lookup_insert_eq. now intros [= <-].
  - rewrite lookup_insert_ne by assumption. apply H.
Qed.

Lemma filed_delete {A} (Q : Z -> A -> Prop) (m : gmap Z (list A)) t0 :
  (forall t l, m !! t = Some l -> Forall (Q t) l) ->
  forall t l, delete t0 m !! t = Some l -> Forall (Q t) l.
Proof.
  intros H t l. destruct (decide (t0 = t)) as [-> | Hne].
  - rewrite lookup_delete_eq. discriminate.
  - rewrite lookup_delete_ne by assumption. apply H.
Qed.

Lemma node_ok_olabels z z' kv :
  olabels z' = olabels z -> node_ok E z kv -> node_ok E z' kv.
Proof.
  intros Ho (H1 & H2 & H3). split; [assumption |]. split; [| assumption].
  unfold isSubDomain in *. now rewrite Ho.
Qed.

Lemma node_ok_new z name key :
  toRadixName name = Ok key -> isSubDomain E z name = true ->
  node_ok E z (key, NewZoneData name).
Proof.
  intros Hk Hs. repeat split; try assumption; cbn [snd zd_RR zd_Signatures NewZoneData];
    try apply lookup_empty; intros t l; rewrite lookup_empty; discriminate.
Qed.

Lemma node_ok_insert_rr z origin key zd r zd' :
  node_ok E z (key, zd) ->
  toRadixName (Name (Header r)) = Ok key ->
  insert_rr origin zd r = Ok zd' ->
  node_ok E z (key, zd').
Proof.
  intros (H1 & H2 & H3 & H4 & H5) Hk Hi. cbn [fst snd] in *.
  unfold insert_rr in Hi.
  destruct (Z.eqb_spec (Rrtype (Header r)) TypeRRSIG) as [Ht | Ht].
  - destruct r as [| | | | sig |]; try discriminate Hi. injection Hi as <-.
    cbn [Header] in *.
    repeat split; cbn [fst snd zd_Name zd_RR zd_Signatures set_Signatures];
      try assumption.
    apply filed_insert; [assumption |].
    apply Forall_app_2; [now apply filed_slice_at |].
    repeat constructor; assumption.
  - injection Hi as <-.
    destruct (_ && _);
      (repeat split; cbn [fst snd zd_Name zd_RR zd_Signatures set_RR set_NonAuth];
       try assumption;
       [ now rewrite lookup_insert_ne
       | apply filed_insert; [assumption |];
         apply Forall_app_2; [now apply filed_slice_at |];
         repeat constructor; assumption ]).
Qed.

Lemma node_ok_set_RR z key zd m :
  node_ok E z (key, zd) ->
  m !! TypeRRSIG = None ->
  (forall t l, m !! t = Some l -> Forall (filed_RR key t) l) ->
  node_ok E z (key, set_RR zd m).
Proof. intros (H1 & H2 & H3 & H4 & H5) Hm1 Hm2. repeat split; assumption. Qed.

Lemma node_ok_set_Signatures z key zd m :
  node_ok E z (key, zd) ->
  (forall t l, m !! t = Some l -> Forall (filed_RRSIG key t) l) ->
  node_ok E z (key, set_Signatures zd m).
Proof. intros (H1 & H2 & H3 & H4 & H5) Hm. repeat split; assumption. Qed.

Lemma well_formed_step z z' :
  well_formed E z -> olabels z' = olabels z ->
  Radix z' = Radix z \/
  (exists key, Radix z' = radix_Remove (Radix z) key) \/
  (exists key zd, Radix z' = radix_store (Radix z) key zd /\ node_ok E z (key, zd)) \/
  (exists key zd, Radix z' = radix_Insert (Radix z) key zd /\ node_ok E z (key, zd)) ->
  well_formed E z'.
Proof.
  intros [Hs Hn] Ho Hc. unfold well_formed.
  assert (Hn' : Forall (node_ok E z') (Radix z)).
  { eapply Forall_impl; [exact Hn |]. intros kv. now apply node_ok_olabels. }
  destruct Hc as [-> | [[key ->] | [(key & zd & -> & Hzd) | (key & zd & -> & Hzd)]]].
  - now split.
  - split; [now apply keys_increasing_Remove | now apply Forall_radix_Remove].
  - split; [now apply keys_increasing_store |].
    apply Forall_radix_store; [assumption |]. intros _ _.
    now apply (node_ok_olabels z).
  - split; [now apply keys_increasing_Insert |].
    apply Forall_radix_Insert; [assumption |]. now apply (node_ok_olabels z).
Qed.

Lemma well_formed_lookup z key zd :
  well_formed E z -> radix_lookup (Radix z) key = Some zd -> node_ok E z (key, zd).
Proof.
  intros [_ Hn] Hl. rewrite Forall_forall in Hn. apply Hn.
  apply list_elem_of_In. now apply radix_lookup_Some.
Qed.

Lemma radix_Find_exact t key k zd :
  radix_Find t key = (Some (k, zd), true) -> radix_lookup t key = Some zd.
Proof.
  unfold radix_Find. destruct (radix_lookup t key); [| discriminate].
  now intros [= _ ->].
Qed.

Lemma well_formed_Insert z r now z' :
  well_formed E z -> Insert E z r now = Ok z' -> well_formed E z'.
Proof.
  intros Hw H. unfold Insert in H.
  destruct (isSubDomain E z (Name (Header r))) eqn:Hsub; [| discriminate H].
  cbn [negb] in H.
  destruct (toRadixName (Name (Header r))) as [key | | |] eqn:Hkey;
    cbn [bind] in H; try discriminate H.
  destruct (radix_Find (Radix (set_ModTime z now)) key) as [[[k zd] |] []] eqn:Hf.
  - apply radix_Find_exact in Hf.
    destruct (insert_rr _ zd r) as [zd' | | |] eqn:Hi; cbn [bind] in H;
      try discriminate H.
    injection H as <-. apply (well_formed_step z); [assumption | reflexivity |].
    right. right. left. exists key, zd'. split; [reflexivity |].
    eapply node_ok_insert_rr; [| exact Hkey | exact Hi].
    now apply well_formed_lookup.
  - cbv zeta in H.
    destruct (insert_rr _ _ r) as [zd' | | |] eqn:Hi; cbn [bind] in H;
      try discriminate H.
    injection H as <-. apply (well_formed_step z); [assumption | |].
    + destruct (is_wildcard _); reflexivity.
    + right. right. right. exists key, zd'.
      split; [destruct (is_wildcard _); reflexivity |].
      eapply node_ok_insert_rr; [| exact Hkey | exact Hi].
      now apply node_ok_new.
  - cbv zeta in H.
    destruct (insert_rr _ _ r) as [zd' | | |] eqn:Hi; cbn [bind] in H;
      try discriminate H.
    injection H as <-. apply (well_formed_step z); [assumption | |].
    + destruct (is_wildcard _); reflexivity.
    + right. right. right. exists key, zd'.
      split; [destruct (is_wildcard _); reflexivity |].
      eapply node_ok_insert_rr; [| exact Hkey | exact Hi].
      now apply node_ok_new.
  - cbv zeta in H.
    destruct (insert_rr _ _ r) as [zd' | | |] eqn:Hi; cbn [bind] in H;
      try discriminate H.
    injection H as <-. apply (well_formed_step z); [assumption | |].
    + destruct (is_wildcard _); reflexivity.
    + right. right. right. exists key, zd'.
      split; [destruct (is_wildcard _); reflexivity |].
      eapply node_ok_insert_rr; [| exact Hkey | exact Hi].
      now apply node_ok_new.
Qed.

Lemma node_ok_Remove z key zd r zd1 remove :
  node_ok E z (key, zd) ->
  (if Rrtype (Header r) =? TypeRRSIG then
     match r with
     | RR_RRSIG sig =>
         do (l, remove) <-
           delete_matching (fun zr => RR_eq r (RR_RRSIG zr))
             (slice_at (zd_Signatures zd) (TypeCovered sig));
         if remove then
           Ok (set_Signatures zd
                 (if Nat.eqb (length l) 0
                  then delete (TypeCovered sig) (zd_Signatures zd)
                  else <[TypeCovered sig := l]> (zd_Signatures zd)), true)
         else Ok (zd, false)
     | _ => Panic
     end
   else
     do (l, remove) <-
       delete_matching (fun zr => RR_eq r zr)
         (slice_at (zd_RR zd) (Rrtype (Header r)));
     if remove then
       Ok (set_RR zd
             (if Nat.eqb (length l) 0
              then delete (Rrtype (Header r)) (zd_RR zd)
              else <[Rrtype (Header r) := l]> (zd_RR zd)), true)
     else Ok (zd, false)) = Ok (zd1, remove) ->
  node_ok E z (key, zd1).
Proof.
  intros Hzd H. pose proof Hzd as (H1 & H2 & H3 & H4 & H5). cbn [fst snd] in *.
  destruct (Z.eqb_spec (Rrtype (Header r)) TypeRRSIG) as [Ht | Ht].
  - destruct r as [| | | | sig |]; try discriminate H.
    destruct (delete_matching _ _) as [[l b] | | |] eqn:Hd; cbn [bind] in H;
      try discriminate H.
    assert (Hl : Forall (filed_RRSIG key (TypeCovered sig)) l).
    { eapply delete_matching_Forall; [| exact Hd]. now apply filed_slice_at. }
    destruct b; injection H as <- <-; [| assumption].
    apply node_ok_set_Signatures; [assumption |].
    destruct (Nat.eqb _ _); [now apply filed_delete | now apply filed_insert].
  - destruct (delete_matching _ _) as [[l b] | | |] eqn:Hd; cbn [bind] in H;
      try discriminate H.
    assert (Hl : Forall (filed_RR key (Rrtype (Header r))) l).
    { eapply delete_matching_Forall; [| exact Hd]. now apply filed_slice_at. }
    destruct b; injection H as <- <-; [| assumption].
    apply node_ok_set_RR; [assumption | |].
    + destruct (Nat.eqb _ _).
      * now rewrite lookup_delete_ne.
      * now rewrite lookup_insert_ne.
    + destruct (Nat.eqb _ _); [now apply filed_delete | now apply filed_insert].
Qed.

Lemma well_formed_Remove z r now z' :
  well_formed E z -> Remove E z r now = Ok z' -> well_formed E z'.
Proof.
  intros Hw H. unfold Remove in H.
  destruct (toRadixName (Name (Header r))) as [key | | |] eqn:Hkey;
    cbn [bind] in H; try discriminate H.
  destruct (radix_Find (Radix (set_ModTime z now)) key) as [[[k zd] |] []] eqn:Hf;
    try (injection H as <-; apply (well_formed_step z);
         [assumption | reflexivity | now left]).
  apply radix_Find_exact in Hf.
  match type of H with
  | bind ?m _ = _ => destruct m as [[zd1 remove] | | |] eqn:Hm
  end; cbn [bind] in H; try discriminate H.
  apply (node_ok_Remove z key zd r zd1 remove) in Hm;
    [| now apply well_formed_lookup].
  destruct remove; cbn [negb] in H.
  - cbv zeta in H. destruct (_ && _); injection H as <-;
      (apply (well_formed_step z);
       [assumption | destruct (is_wildcard _); reflexivity |]).
    + right. left. exists key. destruct (is_wildcard _); reflexivity.
    + right. right. left. exists key, zd1.
      split; [destruct (is_wildcard _); reflexivity | assumption].
  - injection H as <-. apply (well_formed_step z); [assumption | reflexivity | now left].
Qed.

Lemma well_formed_RemoveName z s now z' :
  well_formed E z -> RemoveName E z s now = Ok z' -> well_formed E z'.
Proof.
  intros Hw H. unfold RemoveName in H.
  destruct (toRadixName s) as [key | | |] eqn:Hkey; cbn [bind] in H;
    try discriminate H.
  injection H as <-. apply (well_formed_step z);
    [assumption | destruct (is_wildcard _); reflexivity |].
  right. left. exists key. destruct (is_wildcard _); reflexivity.
Qed.

Lemma well_formed_RemoveRRset z s t now z' :
  well_formed E z -> RemoveRRset E z s t now = Ok z' -> well_formed E z'.
Proof.
  intros Hw H. unfold RemoveRRset in H.
  destruct (toRadixName s) as [key | | |] eqn:Hkey; cbn [bind] in H;
    try discriminate H.
  destruct (radix_Find (Radix (set_ModTime z now)) key) as [[[k zd] |] []] eqn:Hf;
    try (injection H as <-; apply (well_formed_step z);
         [assumption | reflexivity | now left]).
  apply radix_Find_exact in Hf. cbv zeta in H. injection H as <-.
  apply (well_formed_step z); [assumption | reflexivity |].
  right. right. left. eexists key, _. split; [reflexivity |].
  pose proof (well_formed_lookup z key zd Hw Hf) as Hzd.
  rewrite !delete_all_keys.
  destruct (t =? TypeRRSIG).
  - apply node_ok_set_Signatures; [assumption |].
    intros t' l. rewrite lookup_empty. discriminate.
  - apply node_ok_set_RR; [assumption | apply lookup_empty |].
    intros t' l. rewrite lookup_empty. discriminate.
Qed.

(** X18: Whatever the operations, the tree stays in order: its keys increase,
    every node is filed under the key of its name, which is a name of the
    zone, and every record and signature of the node is filed under its own
    type and the key of its own owner name. *)
Theorem well_formed_kept os : forall z now z',
  well_formed E z -> apply_ops E z os now = Ok z' -> well_formed E z'.
Proof.
  induction os as [| o os IH]; intros z now z' Hw H; cbn [apply_ops] in H.
  - now injection H as <-.
  - destruct (apply_op E z o now) as [z1 | e | |] eqn:Ho; try discriminate H.
    + eapply IH; [| exact H].
      destruct o; cbn [apply_op] in Ho;
        eauto using well_formed_Insert, well_formed_Remove,
                    well_formed_RemoveName, well_formed_RemoveRRset.
    + eapply IH; eauto.
Qed.

(** *** Names of the zone *)

(** The loop counts the labels that agree, from the last ones down: it
    reaches [x1 + 1] exactly when the labels of [l1] up to [x1] all agree
    with those of [l2] up to [x2]. *)
Lemma compareLabels_loop_full l1 l2 : forall fuel x1 x2 n,
  -1 <= x1 -> -1 <= x2 -> x1 + 1 < Z.of_nat fuel ->
  compareLabels_loop fuel l1 l2 x1 x2 n <= n + x1 + 1 /\
  (compareLabels_loop fuel l1 l2 x1 x2 n = n + x1 + 1 <->
   x1 <= x2 /\
   forall i, 0 <= i <= x1 ->
     nth (Z.to_nat (x1 - i)) l1 "" = nth (Z.to_nat (x2 - i)) l2 "").
Proof.
  induction fuel as [| fuel IH]; intros x1 x2 n H1 H2 Hf; [lia |].
  cbn [compareLabels_loop].
  destruct (Z.ltb_spec x1 0) as [Hx1 | Hx1]; cbn [orb].
  { split; [lia |]. split; [intros _; split; [lia | intros i Hi; lia] | lia]. }
  destruct (Z.ltb_spec x2 0) as [Hx2 | Hx2].
  { split; [lia |]. split; [lia | intros [? _]; lia]. }
  destruct (String.eqb_spec (nth (Z.to_nat x1) l1 "") (nth (Z.to_nat x2) l2 ""))
    as [Heq | Hne].
  - destruct (IH (x1 - 1) (x2 - 1) (n + 1) ltac:(lia) ltac:(lia) ltac:(lia))
      as [Hle Hiff].
    split; [lia |].
    replace (n + x1 + 1) with (n + 1 + (x1 - 1) + 1) by lia.
    rewrite Hiff. split; intros [Hx Hall]; (split; [lia |]); intros i Hi.
    + destruct (Z.eq_dec i 0) as [-> | Hi0]; [now rewrite !Z.sub_0_r |].
      specialize (Hall (i - 1) ltac:(lia)).
      replace (x1 - 1 - (i - 1)) with (x1 - i) in Hall by lia.
      replace (x2 - 1 - (i - 1)) with (x2 - i) in Hall by lia. exact Hall.
    + specialize (Hall (i + 1) ltac:(lia)).
      replace (x1 - (i + 1)) with (x1 - 1 - i) in Hall by lia.
      replace (x2 - (i + 1)) with (x2 - 1 - i) in Hall by lia. exact Hall.
  - split; [lia |]. split; [lia |]. intros [_ Hall]. exfalso. apply Hne.
    specialize (Hall 0 ltac:(lia)). now rewrite !Z.sub_0_r in Hall.
Qed.

(** X19: A name is of the zone exactly when the labels of the origin end the
    labels of the name in lower case. *)
Theorem isSubDomain_suffix z child :
  isSubDomain E z child = true <->
  exists pre, SplitLabels E (ToLower child) = pre ++ olabels z.
Proof.
  unfold isSubDomain, compareLabelsSlice.
  set (l1 := olabels z). set (l2 := SplitLabels E (ToLower child)).
  destruct (compareLabels_loop_full l1 l2 (S (length l1)) (len l1 - 1) (len l2 - 1) 0)
    as [_ Hiff]; unfold len; try lia.
  unfold len in *. rewrite Z.eqb_eq.
  replace (Z.of_nat (length l1)) with (0 + (Z.of_nat (length l1) - 1) + 1) at 2 by lia.
  rewrite Hiff. clear Hiff. split.
  - intros [Hle Hall]. exists (take (length l2 - length l1) l2).
    rewrite <- (take_drop (length l2 - length l1) l2) at 1. f_equal.
    apply (nth_ext _ _ "" "").
    + rewrite length_drop. lia.
    + intros j Hj. rewrite length_drop in Hj.
      specialize (Hall (Z.of_nat (length l1) - 1 - Z.of_nat j) ltac:(lia)).
      replace (Z.to_nat (Z.of_nat (length l1) - 1
                         - (Z.of_nat (length l1) - 1 - Z.of_nat j)))
        with j in Hall by lia.
      replace (Z.to_nat (Z.of_nat (length l2) - 1
                         - (Z.of_nat (length l1) - 1 - Z.of_nat j)))
        with (length l2 - length l1 + j)%nat in Hall by lia.
      rewrite Hall, !nth_lookup, lookup_drop. reflexivity.
  - intros [pre Hpre]. rewrite Hpre, length_app. split; [lia |].
    intros i Hi.
    replace (Z.to_nat (Z.of_nat (length pre + length l1) - 1 - i))
      with (length pre + Z.to_nat (Z.of_nat (length l1) - 1 - i))%nat by lia.
    rewrite !nth_lookup, lookup_app_r by lia.
    do 2 f_equal. lia.
Qed.

End StoreLaws.




(** ** The signer *)

Section SignerLaws.
Import Names Zone Store Signing.

Context (E : Env).

(** *** Time stamps *)

Lemma int64_small v : - 2 ^ 63 <= v < 2 ^ 63 -> int64 v = v.
Proof.
  intros H. unfold int64. change (2 ^ 63) with 9223372036854775808 in *.
  change (2 ^ 64) with 18446744073709551616.
  rewrite Z.mod_small by lia. lia.
Qed.


(** *** The jitter *)

(** X22: [rand.Intn(1)] is 0, so the jitter is never added: the duration
    returned is negative or 0, above [-d]. On a duration that is not
    positive, [rand.Intn] panics. *)
Theorem jitterDuration_never_positive w d :
  (forall i n, 0 < n -> 0 <= Intn E i n < n) ->
  (d <= 0 -> jitterDuration E w d = Panic) /\
  (0 < d < 2 ^ 63 ->
   exists j,
     jitterDuration E w d
     = Ok (j, mkWorld (next_ptr w) (S (S (rand_calls w)))) /\
     - d < j <= 0).
Proof.
  intros Hrand. unfold jitterDuration. split; intros Hd.
  - destruct (Z.leb_spec d 0); [reflexivity | lia].
  - destruct (Z.leb_spec d 0); [lia |].
    pose proof (Hrand (rand_calls w) d ltac:(lia)) as Hj.
    pose proof (Hrand (S (rand_calls w)) 1 ltac:(lia)) as Hc.
    destruct (Z.eqb_spec (Intn E (S (rand_calls w)) 1) 1); [lia |].
    eexists. split; [reflexivity |].
    rewrite int64_small by lia. lia.
Qed.

(** *** Looking for the signature of a key *)

Lemma signatures_from_spec tag : forall l i,
  match signatures_from l tag i with
  | (j, Some s) =>
      (i <= j)%nat /\ l !! (j - i)%nat = Some s /\ KeyTag s = tag /\
      forall k s', (k < j - i)%nat -> l !! k = Some s' -> KeyTag s' <> tag
  | (j, None) =>
      j = 0%nat /\ Forall (fun s => KeyTag s <> tag) l
  end.
Proof.
  induction l as [| s l IH]; intros i; cbn [signatures_from].
  - split; [reflexivity | constructor].
  - destruct (Z.eqb_spec (KeyTag s) tag) as [Heq | Hne].
    + rewrite Nat.sub_diag. repeat split; try assumption; lia.
    + specialize (IH (S i)).
      destruct (signatures_from l tag (S i)) as [j [s0 |]].
      * destruct IH as (Hle & Hj & Htag & Hbefore).
        replace (j - i)%nat with (S (j - S i)) by lia.
        repeat split; try assumption; try lia.
        intros [| k] s' Hk; cbn [lookup]; [intros [= <-]; assumption |].
        apply Hbefore. lia.
      * destruct IH as [-> Hall]. split; [reflexivity | now constructor].
Qed.

(** X23: [signatures] returns the first signature of the RRset made with the
    key tag, and its place; when there is none it returns no signature, and
    the place 0. *)
Theorem signatures_first l tag :
  match signatures l tag with
  | (j, Some s) =>
      l !! j = Some s /\ KeyTag s = tag /\
      forall k s', (k < j)%nat -> l !! k = Some s' -> KeyTag s' <> tag
  | (j, None) =>
      j = 0%nat /\ Forall (fun s => KeyTag s <> tag) l
  end.
Proof.
  unfold signatures. pose proof (signatures_from_spec tag l 0) as H.
  destruct (signatures_from l tag 0) as [j [s |]]; [| exact H].
  rewrite Nat.sub_0_r in H. tauto.
Qed.

(** *** The type bitmap *)

(** X24: The bitmap computed for a node is in increasing order and lists NSEC,
    RRSIG and the types of the RR map, and nothing else. *)
Theorem computed_bitmap_sorted types :
  Sorted Z.le (computed_bitmap types) /\
  forall t, t ∈ computed_bitmap types <->
            t = TypeNSEC \/ t = TypeRRSIG \/ t ∈ types.
Proof.
  unfold computed_bitmap. split; [apply Sorted_merge_sort; apply _ |].
  intros t. rewrite merge_sort_Permutation.
  rewrite elem_of_app, !elem_of_cons, elem_of_nil, list_elem_of_In, filter_In,
    <- list_elem_of_In, negb_true_iff, orb_false_iff, !Z.eqb_neq.
  destruct (Z.eq_dec t TypeNSEC), (Z.eq_dec t TypeRRSIG); tauto.
Qed.

(** *** Signing a node *)

Lemma update_NSEC_post node next config w node1 w1 :
  update_NSEC node next config w = Ok (node1, w1) ->
  (exists p h bm rest,
     zd_RR node1 !! TypeNSEC = Some (RR_NSEC p h next bm :: rest) /\
     (zd_RR node !! TypeNSEC = Some (RR_NSEC p h next bm :: rest) /\ node1 = node \/
      bm = computed_bitmap (map fst (map_to_list (zd_RR node))) /\
      zd_Signatures node1 !! TypeNSEC = Some [])) /\
  (forall t, t <> TypeNSEC -> zd_RR node1 !! t = zd_RR node !! t) /\
  (forall t, t <> TypeNSEC -> zd_Signatures node1 !! t = zd_Signatures node !! t) /\
  zd_Name node1 = zd_Name node /\
  zd_NonAuth node1 = zd_NonAuth node.
Proof.
  unfold update_NSEC. cbv zeta.
  destruct (zd_RR node !! TypeNSEC) as [n |] eqn:Hn.
  - destruct n as [| [| p h nd bm | | | |] rest]; try discriminate.
    destruct (negb (String.eqb nd next) || negb _) eqn:Hc; intros [= <- <-].
    + cbn [zd_RR zd_Signatures zd_Name zd_NonAuth map write_NSEC].
      rewrite Nat.eqb_refl, !lookup_insert_eq.
      split; [eexists _, _, _, _; split; [reflexivity | right; split; reflexivity] |].
      repeat split; try reflexivity; intros t Ht; now rewrite lookup_insert_ne.
    + apply orb_false_elim in Hc as [Hc _]. apply negb_false_iff in Hc.
      apply String.eqb_eq in Hc. subst nd.
      split; [eexists _, _, _, _; split; [exact Hn | left; split; reflexivity] |].
      repeat split; reflexivity.
  - intros [= <- <-].
    cbn [zd_RR zd_Signatures zd_Name zd_NonAuth]. rewrite !lookup_insert_eq.
    split; [eexists _, _, _, _; split; [reflexivity | right; split; reflexivity] |].
    repeat split; try reflexivity; intros t Ht; now rewrite lookup_insert_ne.
Qed.

Lemma ZoneData_Sign_inv node next keys keytags config now w node' w' :
  ZoneData_Sign E node next keys keytags config now w = Ok (node', w') ->
  exists node1 w1 sigs w2 sigs',
    update_NSEC node next config w = Ok (node1, w1) /\
    foldM (fun st kp =>
             foldM (sign_rrset E (zd_NonAuth node1) keytags config now (fst kp) (snd kp))
                   (map_to_list (zd_RR node1)) st)
          keys (zd_Signatures node1, w1) = Ok (sigs, w2) /\
    foldM (drop_due config now) (map_to_list sigs) sigs = Ok sigs' /\
    node' = set_Signatures node1 sigs' /\ w' = w2.
Proof.
  unfold ZoneData_Sign. intros H.
  destruct (update_NSEC node next config w) as [[node1 w1] | | |] eqn:H1;
    cbn [bind] in H; try discriminate H.
  match type of H with
  | bind ?m _ = _ => destruct m as [[sigs w2] | | |] eqn:H2
  end; cbn [bind] in H; try discriminate H.
  match type of H with
  | bind ?m _ = _ => destruct m as [sigs' | | |] eqn:H3
  end; cbn [bind] in H; try discriminate H.
  injection H as <- <-. eexists _, _, _, _, _. repeat split; eassumption.
Qed.

(** X25: After [ZoneData.Sign] the node holds an NSEC that points to [next]; its
    bitmap is the computed one, unless the NSEC was there and is left as it
    was. The other RRsets, the name and the authority flag of the node are
    untouched. *)
Theorem ZoneData_Sign_NSEC node next keys keytags config now w node' w' :
  ZoneData_Sign E node next keys keytags config now w = Ok (node', w') ->
  (exists p h bm rest,
     zd_RR node' !! TypeNSEC = Some (RR_NSEC p h next bm :: rest) /\
     (zd_RR node !! TypeNSEC = Some (RR_NSEC p h next bm :: rest) \/
      bm = computed_bitmap (map fst (map_to_list (zd_RR node))))) /\
  (forall t, t <> TypeNSEC -> zd_RR node' !! t = zd_RR node !! t) /\
  zd_Name node' = zd_Name node /\
  zd_NonAuth node' = zd_NonAuth node.
Proof.
  intros H. apply ZoneData_Sign_inv in H
    as (node1 & w1 & sigs & w2 & sigs' & H1 & _ & _ & -> & _).
  apply update_NSEC_post in H1
    as ((p & h & bm & rest & Hn & Hb) & Hrr & _ & Hname & Hna).
  cbn [zd_RR zd_Name zd_NonAuth set_Signatures].
  split; [| repeat split; assumption].
  exists p, h, bm, rest. split; [assumption |]. tauto.
Qed.

Lemma foldM_invariant {A S} (f : S -> A -> outcome S) (I : S -> Prop) l :
  (forall s a s', In a l -> I s -> f s a = Ok s' -> I s') ->
  forall s s', I s -> foldM f l s = Ok s' -> I s'.
Proof.
  induction l as [| a l IH]; intros Hstep s s' Hs H; cbn [foldM] in H.
  - now injection H as <-.
  - destruct (f s a) as [s1 | | |] eqn:Hf; cbn [bind] in H; try discriminate H.
    eapply IH; [| | exact H].
    + intros s0 b s0' Hb. apply Hstep. now right.
    + eapply Hstep; [now left | exact Hs | exact Hf].
Qed.

Lemma foldM_each {A S} (f : S -> A -> outcome S) (Q : A -> S -> Prop) l :
  (forall s a s', f s a = Ok s' -> Q a s') ->
  (forall s a b s', f s a = Ok s' -> Q b s -> Q b s') ->
  forall s s', foldM f l s = Ok s' -> forall a, In a l -> Q a s'.
Proof.
  intros Hmake Hkeep.
  induction l as [| a l IH]; intros s s' H b Hb; cbn [foldM] in H; [contradiction |].
  destruct (f s a) as [s1 | | |] eqn:Hf; cbn [bind] in H; try discriminate H.
  destruct Hb as [<- | Hb]; [| eapply IH; eauto].
  eapply (foldM_invariant f (Q a)); [| | exact H].
  - intros s0 c s0' _ Hq Hc. eapply Hkeep; eauto.
  - eapply Hmake; eauto.
Qed.

Lemma grown_refl sigs : grown sigs sigs.
Proof. intros t. exists []. now rewrite app_nil_r. Qed.

Lemma grown_trans a b c : grown a b -> grown b c -> grown a c.
Proof.
  intros H1 H2 t. destruct (H1 t) as [m1 E1], (H2 t) as [m2 E2].
  exists (m1 ++ m2). now rewrite E2, E1, app_assoc.
Qed.

Lemma grown_append sigs t s :
  grown sigs (<[t := slice_at sigs t ++ [s]]> sigs).
Proof.
  intros t'. unfold slice_at at 1. destruct (decide (t = t')) as [-> | Hne].
  - rewrite lookup_insert_eq. now exists [s].
  - rewrite lookup_insert_ne by assumption. exists []. now rewrite app_nil_r.
Qed.

Lemma signed_with_grown a b t tag :
  grown a b -> signed_with a t tag -> signed_with b t tag.
Proof.
  intros Hg (s & Hin & Htag). destruct (Hg t) as [more Hm].
  exists s. split; [| assumption]. rewrite Hm. apply in_or_app. now left.
Qed.

Lemma due_false config now s :
  0 <= now -> Unix now < 2 * year68 -> Refresh config <= now ->
  due config now s = false.
Proof.
  intros H0 Hu Hr. destruct (due_ignores_Expiration config now s H0 Hu) as [_ ->].
  destruct (Z.ltb_spec now (Refresh config)); [lia | reflexivity].
Qed.

(** What one pass of the inner loop of [ZoneData.Sign] does to the
    signatures when the clock is past [Refresh]: nothing, or one signature
    more at the end. *)
Lemma sign_rrset_cases nonauth keytags config now k p sigs w t rrset sigs' w' :
  0 <= now -> Unix now < 2 * year68 -> Refresh config <= now ->
  sign_rrset E nonauth keytags config now k p (sigs, w) (t, rrset) = Ok (sigs', w') ->
  (sigs' = sigs /\
   ((Z.land (Flags k) SEP =? SEP) = true \/ nonauth = true \/
    exists j q, signatures (slice_at sigs t) (keytag_of keytags k) = (j, Some q)))
  \/
  (exists s0 s,
     RRSIG_Sign E s0 p rrset = Ok s /\ KeyTag s0 = keytag_of keytags k /\
     sigs' = <[t := slice_at sigs t ++ [s]]> sigs).
Proof.
  intros H0 Hu Hr H. unfold sign_rrset in H.
  assert (Hbody :
    (let '(j, q) := signatures (slice_at sigs t) (keytag_of keytags k) in
     let stale := match q with None => true | Some q => due config now q end in
     if stale then
       let inception := timeToUint32 (Add now (int64 (- InceptionOffset config))) in
       do (jitter, w) <- jitterDuration E w (Jitter config);
       let expiration := timeToUint32 (Add (Add now jitter) (Validity config)) in
       let s := mkRRSIG (next_ptr w)
                  (mkHdr "" 0 ClassINET (Ttl (key_Hdr k)) 0)
                  0 (Algorithm k) 0 0 expiration inception
                  (keytag_of keytags k) (Name (key_Hdr k)) "" in
       let w := mkWorld (S (next_ptr w)) (rand_calls w) in
       do s <- RRSIG_Sign E s p rrset;
       match q with
       | Some _ => Ok (<[t := <[j := s]> (slice_at sigs t)]> sigs, w)
       | None => Ok (<[t := slice_at sigs t ++ [s]]> sigs, w)
       end
     else Ok (sigs, w)) = Ok (sigs', w') ->
    (sigs' = sigs /\
     exists j q, signatures (slice_at sigs t) (keytag_of keytags k) = (j, Some q))
    \/
    (exists s0 s,
       RRSIG_Sign E s0 p rrset = Ok s /\ KeyTag s0 = keytag_of keytags k /\
       sigs' = <[t := slice_at sigs t ++ [s]]> sigs)).
  { clear H. intros H.
    destruct (signatures (slice_at sigs t) (keytag_of keytags k)) as [j [q |]] eqn:Hq.
    - cbv zeta in H. rewrite due_false in H by assumption.
      injection H as <- _. left. split; [reflexivity | eauto].
    - cbv zeta in H.
      destruct (jitterDuration E w (Jitter config)) as [[jit w1] | | |];
        cbn [bind] in H; try discriminate H.
      match type of H with
      | bind (RRSIG_Sign E ?s0 p rrset) _ = _ =>
          destruct (RRSIG_Sign E s0 p rrset) as [s | | |] eqn:Hs;
          cbn [bind] in H; try discriminate H;
          injection H as <- _; right; exists s0, s
      end.
      split; [exact Hs | split; reflexivity]. }
  destruct (Z.land (Flags k) SEP =? SEP) eqn:Hsep.
  - destruct rrset as [| r0 rrset0]; cbn [first_rr bind] in H; [discriminate H |].
    destruct (negb (is_DNSKEY r0)).
    { injection H as <- _. left. split; [reflexivity | now left]. }
    destruct nonauth; cbn [bind] in H.
    + destruct (negb (is_DS r0) && negb (is_NSEC r0)).
      { injection H as <- _. left. split; [reflexivity | now left]. }
      destruct (Hbody H) as [[-> Hf] | Ha]; [left; split; [reflexivity | auto] | now right].
    + destruct (Hbody H) as [[-> Hf] | Ha]; [left; split; [reflexivity | auto] | now right].
  - cbn [bind] in H. destruct nonauth; cbn [bind] in H.
    + destruct rrset as [| r0 rrset0]; cbn [first_rr bind] in H; [discriminate H |].
      destruct (negb (is_DS r0) && negb (is_NSEC r0)).
      { injection H as <- _. left. split; [reflexivity | auto]. }
      destruct (Hbody H) as [[-> Hf] | Ha]; [left; split; [reflexivity | auto] | now right].
    + destruct (Hbody H) as [[-> Hf] | Ha]; [left; split; [reflexivity | auto] | now right].
Qed.

Lemma sign_rrset_grown nonauth keytags config now k p st entry st' :
  0 <= now -> Unix now < 2 * year68 -> Refresh config <= now ->
  sign_rrset E nonauth keytags config now k p st entry = Ok st' ->
  grown (fst st) (fst st').
Proof.
  destruct st as [sigs w], entry as [t rrset], st' as [sigs' w'].
  intros H0 Hu Hr H. cbn [fst].
  destruct (sign_rrset_cases _ _ _ _ _ _ _ _ _ _ _ _ H0 Hu Hr H)
    as [[-> _] | (s0 & s & _ & _ & ->)];
    [apply grown_refl | apply grown_append].
Qed.

Lemma drop_due_none config now :
  0 <= now -> Unix now < 2 * year68 -> Refresh config <= now ->
  forall l sigs, foldM (drop_due config now) l sigs = Ok sigs.
Proof.
  intros H0 Hu Hr. induction l as [| [i s] l IH]; intros sigs; cbn [foldM];
    [reflexivity |].
  unfold drop_due. rewrite delete_matching_none.
  - cbn [bind]. apply IH.
  - apply Forall_forall. intros x _. now apply due_false.
Qed.

Lemma Sign_signatures_grown node next keys keytags config now w node' w' :
  0 <= now -> Unix now < 2 * year68 -> Refresh config <= now ->
  ZoneData_Sign E node next keys keytags config now w = Ok (node', w') ->
  exists node1 w1,
    update_NSEC node next config w = Ok (node1, w1) /\
    zd_RR node' = zd_RR node1 /\
    grown (zd_Signatures node1) (zd_Signatures node').
Proof.
  intros H0 Hu Hr H. apply ZoneData_Sign_inv in H
    as (node1 & w1 & sigs & w2 & sigs' & H1 & H2 & H3 & -> & _).
  exists node1, w1. split; [assumption |]. split; [reflexivity |].
  rewrite drop_due_none in H3 by assumption. injection H3 as <-.
  cbn [zd_Signatures set_Signatures].
  apply (foldM_invariant _ (fun st => grown (zd_Signatures node1) (fst st))) in H2;
    [exact H2 | | apply grown_refl].
  intros st kp st' _ Hst Hin.
  apply (foldM_invariant _ (fun st => grown (zd_Signatures node1) (fst st))) in Hin;
    [exact Hin | | exact Hst].
  intros st0 entry st0' _ Hst0 Hstep.
  eapply grown_trans; [exact Hst0 |].
  eapply sign_rrset_grown; eauto.
Qed.

(** X26: Once the clock is past [Refresh], and until 2106, [ZoneData.Sign]
    takes no signature away and replaces none: the signatures of every type
    other than NSEC are the ones the node had, in their order, with those it
    made after them. *)
Theorem Sign_only_adds_signatures node next keys keytags config now w node' w' t :
  0 <= now -> Unix now < 2 * year68 -> Refresh config <= now ->
  ZoneData_Sign E node next keys keytags config now w = Ok (node', w') ->
  t <> TypeNSEC ->
  exists more,
    slice_at (zd_Signatures node') t = slice_at (zd_Signatures node) t ++ more.
Proof.
  intros H0 Hu Hr H Ht.
  destruct (Sign_signatures_grown _ _ _ _ _ _ _ _ _ H0 Hu Hr H)
    as (node1 & w1 & H1 & _ & Hg).
  apply update_NSEC_post in H1 as (_ & _ & Hs & _).
  destruct (Hg t) as [more Hm]. exists more. rewrite Hm.
  unfold slice_at. now rewrite Hs.
Qed.

(** X27: In the same years, on a node with authority, a key without the SEP flag
    signs every RRset: after [ZoneData.Sign] every RRset of the node, the
    NSEC among them, has a signature with the tag of the key, provided
    signing keeps the key tag it is given. *)
Theorem Sign_covers node next keys keytags config now w node' w' k p t rrset :
  (forall s0 p0 rrset0 s, RRSIG_Sign E s0 p0 rrset0 = Ok s -> KeyTag s = KeyTag s0) ->
  0 <= now -> Unix now < 2 * year68 -> Refresh config <= now ->
  ZoneData_Sign E node next keys keytags config now w = Ok (node', w') ->
  zd_NonAuth node = false ->
  In (k, p) keys -> Z.land (Flags k) SEP <> SEP ->
  zd_RR node' !! t = Some rrset ->
  signed_with (zd_Signatures node') t (keytag_of keytags k).
Proof.
  intros Htag H0 Hu Hr H Hauth Hk Hsep Hrr.
  apply ZoneData_Sign_inv in H
    as (node1 & w1 & sigs & w2 & sigs' & H1 & H2 & H3 & -> & _).
  rewrite drop_due_none in H3 by assumption. injection H3 as <-.
  cbn [zd_Signatures zd_RR set_Signatures] in *.
  apply update_NSEC_post in H1 as (_ & _ & _ & _ & Hna). rewrite Hauth in Hna.
  rewrite Hna in H2.
  assert (Hinner : forall k0 p0 st st',
            foldM (sign_rrset E false keytags config now k0 p0)
                  (map_to_list (zd_RR node1)) st = Ok st' ->
            grown (fst st) (fst st')).
  { intros k0 p0 st st' Hf.
    apply (foldM_invariant _ (fun s => grown (fst st) (fst s))) in Hf;
      [exact Hf | | apply grown_refl].
    intros s0 entry s0' _ Hs0 Hstep. eapply grown_trans; [exact Hs0 |].
    eapply sign_rrset_grown; eauto. }
  assert (Hkeep1 : forall k0 p0 sa (a b : Z * list RR) sa',
            sign_rrset E false keytags config now k0 p0 sa a = Ok sa' ->
            signed_with (fst sa) (fst b) (keytag_of keytags k0) ->
            signed_with (fst sa') (fst b) (keytag_of keytags k0)).
  { intros k0 p0 sa a b sa' Hstep Hb. eapply signed_with_grown; [| exact Hb].
    eapply sign_rrset_grown; eauto. }
  assert (Hmake1 : forall k0 p0 sa (a : Z * list RR) sa',
            Z.land (Flags k0) SEP <> SEP ->
            sign_rrset E false keytags config now k0 p0 sa a = Ok sa' ->
            signed_with (fst sa') (fst a) (keytag_of keytags k0)).
  { intros k0 p0 [sg wg] [t0 rs0] [sg' wg'] Hsep0 Hstep. cbn [fst].
    destruct (sign_rrset_cases _ _ _ _ _ _ _ _ _ _ _ _ H0 Hu Hr Hstep)
      as [[-> [Hc | [Hc | (j & q & Hq)]]] | (s0 & s & Hs & Hs0 & ->)].
    - apply Z.eqb_eq in Hc. contradiction.
    - discriminate Hc.
    - pose proof (signatures_from_spec (keytag_of keytags k0) (slice_at sg t0) 0)
        as Hf1.
      unfold signatures in Hq. rewrite Hq in Hf1. destruct Hf1 as (_ & Hj & Hkt & _).
      rewrite Nat.sub_0_r in Hj.
      exists q. split; [| assumption].
      apply list_elem_of_In. eapply list_elem_of_lookup_2; eauto.
    - exists s. split.
      + unfold slice_at at 1. rewrite lookup_insert_eq. cbn [default].
        apply in_or_app. right. now left.
      + rewrite (Htag _ _ _ _ Hs). exact Hs0. }
  set (f := fun (st : gmap Z (list RRSIG) * World) (kp : DNSKEY * PrivateKey) =>
              foldM (sign_rrset E false keytags config now (fst kp) (snd kp))
                    (map_to_list (zd_RR node1)) st) in H2.
  set (Q := fun (kp : DNSKEY * PrivateKey) (st : gmap Z (list RRSIG) * World) =>
              Z.land (Flags (fst kp)) SEP <> SEP ->
              signed_with (fst st) t (keytag_of keytags (fst kp))).
  assert (Hmake : forall st kp st', f st kp = Ok st' -> Q kp st').
  { intros st [k0 p0] st' Hf Hsep0. subst f. cbn [fst snd] in *.
    exact (foldM_each (sign_rrset E false keytags config now k0 p0)
             (fun entry st => signed_with (fst st) (fst entry) (keytag_of keytags k0))
             (map_to_list (zd_RR node1))
             (fun sa a sa' => Hmake1 k0 p0 sa a sa' Hsep0)
             (Hkeep1 k0 p0) st st' Hf (t, rrset)
             (proj1 (list_elem_of_In _ _)
                (proj2 (elem_of_map_to_list _ _ _) Hrr))). }
  assert (Hkeep : forall st a b st', f st a = Ok st' -> Q b st -> Q b st').
  { intros st [k0 p0] b st' Hf Hb Hsepb. subst f.
    cbv beta in Hf. cbn [fst snd] in Hf.
    eapply signed_with_grown; [| now apply Hb]. exact (Hinner _ _ _ _ Hf). }
  exact (foldM_each f Q keys Hmake Hkeep _ _ H2 (k, p) Hk Hsep).
Qed.

(** *** Signing the zone *)

Lemma same_records_refl a : same_records a a.
Proof. repeat split. Qed.

Lemma same_records_trans a b c :
  same_records a b -> same_records b c -> same_records a c.
Proof.
  intros (H1 & H2 & H3 & H4) (G1 & G2 & G3 & G4).
  repeat split; try congruence. intros t Ht. now rewrite H4, G4.
Qed.

Lemma Forall2_radix_store (R : string * ZoneData -> string * ZoneData -> Prop) t key v v' :
  (forall x, R x x) ->
  radix_lookup t key = Some v -> R (key, v) (key, v') ->
  Forall2 R t (radix_store t key v').
Proof.
  intros Hrefl.
  induction t as [| [k v0] t IH]; cbn [radix_lookup radix_store]; [discriminate |].
  destruct (String.eqb_spec k key) as [-> | Hk].
  - intros [= ->] Hr. constructor; [assumption |]. now apply Forall_Forall2_diag, Forall_forall.
  - intros Hl Hr. constructor; auto.
Qed.

Lemma sign_node_frame keys keytags config now st key st' :
  sign_node E keys keytags config now st key = Ok st' ->
  Forall2 same_records (fst st) (fst st').
Proof.
  destruct st as [t w], st' as [t' w']. unfold sign_node. cbn [fst].
  destruct (radix_lookup t key) as [data |] eqn:Hl; [| discriminate].
  destruct (radix_Next t key) as [[k next] |]; [| discriminate].
  destruct (ZoneData_Sign E data (zd_Name next) keys keytags config now w)
    as [[data' w1] | | |] eqn:Hs; cbn [bind]; try discriminate.
  intros [= <- _].
  apply (Forall2_radix_store _ t key data data'); [apply same_records_refl | exact Hl |].
  apply ZoneData_Sign_inv in Hs
    as (node1 & w2 & sigs & w3 & sigs' & H1 & _ & _ & -> & _).
  apply update_NSEC_post in H1 as (_ & Hrr & _ & Hname & Hna).
  repeat split; cbn [fst snd zd_Name zd_NonAuth zd_RR set_Signatures];
    try congruence.
  intros ty Hty. now rewrite Hrr.
Qed.

Lemma foldM_sign_node_frame keys keytags config now l : forall st st',
  foldM (sign_node E keys keytags config now) l st = Ok st' ->
  Forall2 same_records (fst st) (fst st').
Proof.
  intros st st' Hf.
  apply (foldM_invariant _ (fun s => Forall2 same_records (fst st) (fst s))) in Hf;
    [exact Hf | |].
  - intros s a s' _ Hs Hstep.
    eapply Forall2_trans; [| exact Hs | eapply sign_node_frame; exact Hstep].
    intros x y z0. apply same_records_trans.
  - now apply Forall_Forall2_diag, Forall_forall.
Qed.

(** What a run of [Sign] that returns has done: it has found the apex, and
    signed the apex and the nodes [rest] that follow it. *)
Lemma Zone_Sign_inv z keys config now w z' w' :
  Zone_Sign E z keys config now w = Ok (z', w') ->
  exists key apex rest config' t,
    toRadixName (Origin z) = Ok key /\
    radix_lookup (Radix z) key = Some apex /\
    walk_until (Origin z) (split_at (Radix z) key []) = Some rest /\
    foldM (sign_node E keys
             (map (fun kp => (key_ptr (fst kp), DNSKEY_KeyTag E (fst kp))) keys)
             config' now)
          (key :: rest) (Radix z, w) = Ok (t, w') /\
    z' = set_Radix (set_ModTime z now) t.
Proof.
  unfold Zone_Sign. cbv zeta.
  destruct (SignerRoutines _ <? 0); [discriminate |].
  cbn [Origin set_ModTime Radix].
  destruct (toRadixName (Origin z)) as [key | | |]; cbn [bind]; try discriminate.
  unfold radix_Find.
  destruct (radix_lookup (Radix z) key) as [apex |] eqn:Hl.
  2:{ destruct (radix_ancestor (Radix z) key None) as [[? ?] |]; discriminate. }
  destruct (first_rr (slice_at (zd_RR apex) TypeSOA)) as [soa | | |];
    cbn [bind]; try discriminate.
  destruct soa as [p h minttl | | | | |]; try discriminate.
  destruct (SignerRoutines _ =? 0); [discriminate |].
  destruct (walk_until _ _) as [rest |] eqn:Hw; [| discriminate].
  match goal with
  | |- bind ?m _ = _ -> _ => destruct m as [[t w1] | | |] eqn:Hf
  end; cbn [bind]; try discriminate.
  intros [= <- <-]. eexists key, apex, rest, _, t.
  repeat split; try reflexivity; eassumption.
Qed.


(** *** The chain *)

Lemma keys_increasing_NoDup t : keys_increasing t -> NoDup (map fst t).
Proof.
  unfold keys_increasing. induction t as [| [k v] t IH]; intros Hs; cbn [map fst].
  - constructor.
  - apply StronglySorted_inv in Hs as [Hs Hall]. constructor; [| auto].
    intros Hin. apply list_elem_of_In, in_map_iff in Hin as ([k' v'] & Hk & Hin).
    cbn [fst] in Hk. subst k'. rewrite Forall_forall in Hall.
    apply list_elem_of_In, Hall in Hin. cbn [fst] in Hin.
    now apply (compare_Lt_irrefl k).
Qed.

Lemma radix_lookup_split t key v :
  radix_lookup t key = Some v ->
  exists before after,
    t = before ++ (key, v) :: after /\
    forall acc, split_at t key acc = after ++ rev acc ++ before ++ [(key, v)].
Proof.
  induction t as [| [k v0] t IH]; cbn [radix_lookup split_at]; [discriminate |].
  destruct (String.eqb_spec k key) as [-> | Hk].
  - intros [= ->]. exists [], t. split; [reflexivity |]. intros acc. reflexivity.
  - intros Hl. destruct (IH Hl) as (before & after & -> & Hsplit).
    exists ((k, v0) :: before), after. split; [reflexivity |].
    intros acc. rewrite Hsplit. cbn [rev]. now rewrite <- !app_assoc.
Qed.

Lemma walk_until_all origin key v L :
  Forall (fun kv => zd_Name (snd kv) <> origin) L -> zd_Name v = origin ->
  walk_until origin (L ++ [(key, v)]) = Some (map fst L).
Proof.
  intros HL Hv. induction HL as [| [k zd] L Hne _ IH]; cbn [app walk_until map fst].
  - rewrite Hv, String.eqb_refl. reflexivity.
  - cbn [snd] in Hne. destruct (String.eqb_spec (zd_Name zd) origin); [contradiction |].
    now rewrite IH.
Qed.

Lemma radix_after_same t t' k kn next :
  Forall2 same_records t t' ->
  radix_after t k = Some (kn, next) ->
  exists next', radix_after t' k = Some (kn, next') /\ zd_Name next' = zd_Name next.
Proof.
  induction 1 as [| [k1 v1] [k2 v2] t t' (Hk & Hn & _) _ IH]; cbn [radix_after];
    [discriminate |].
  cbn [fst snd] in Hk, Hn. subst k2.
  destruct (String.compare k1 k); try exact IH.
  intros [= <- <-]. eauto.
Qed.

Lemma radix_after_None t t' k :
  Forall2 same_records t t' ->
  radix_after t k = None -> radix_after t' k = None.
Proof.
  induction 1 as [| [k1 v1] [k2 v2] t t' (Hk & Hn & _) _ IH]; cbn [radix_after];
    [reflexivity |].
  cbn [fst snd] in Hk. subst k2.
  destruct (String.compare k1 k); try exact IH. discriminate.
Qed.

Lemma radix_Next_same t t' k kn next :
  Forall2 same_records t t' ->
  radix_Next t k = Some (kn, next) ->
  exists next', radix_Next t' k = Some (kn, next') /\ zd_Name next' = zd_Name next.
Proof.
  intros HF. unfold radix_Next.
  destruct (radix_after t k) as [[k1 n1] |] eqn:Ha.
  - intros [= <- <-].
    destruct (radix_after_same _ _ _ _ _ HF Ha) as (next' & -> & Hn). eauto.
  - rewrite (radix_after_None _ _ _ HF Ha).
    destruct HF as [| [k1 v1] [k2 v2] t t' (Hk & Hn & _) _]; cbn [head];
      [discriminate |].
    cbn [fst snd] in Hk, Hn. subst k2. intros [= <- <-]. eauto.
Qed.

Lemma same_records_keys t t' :
  Forall2 same_records t t' -> map fst t = map fst t'.
Proof.
  induction 1 as [| a b t t' (Hk & _) _ IH]; cbn [map]; [reflexivity |].
  now rewrite Hk, IH.
Qed.

Lemma sign_node_chain keys keytags config now st k st' :
  sign_node E keys keytags config now st k = Ok st' ->
  exists node k' next p h bm rest,
    radix_lookup (fst st') k = Some node /\
    radix_Next (fst st') k = Some (k', next) /\
    zd_RR node !! TypeNSEC = Some (RR_NSEC p h (zd_Name next) bm :: rest).
Proof.
  intros Hstep. pose proof (sign_node_frame _ _ _ _ _ _ _ Hstep) as HF.
  destruct st as [t w], st' as [t' w']. unfold sign_node in Hstep. cbn [fst] in *.
  destruct (radix_lookup t k) as [data |] eqn:Hl; [| discriminate Hstep].
  destruct (radix_Next t k) as [[kn next] |] eqn:Hn; [| discriminate Hstep].
  destruct (ZoneData_Sign E data (zd_Name next) keys keytags config now w)
    as [[data' w1] | | |] eqn:Hs; cbn [bind] in Hstep; try discriminate Hstep.
  injection Hstep as <- _.
  destruct (radix_Next_same _ _ _ _ _ HF Hn) as (next' & Hn' & Hname).
  apply ZoneData_Sign_inv in Hs
    as (node1 & w2 & sigs & w3 & sigs' & H1 & _ & _ & -> & _).
  apply update_NSEC_post in H1 as ((p & h & bm & rest & Hnsec & _) & _).
  exists (set_Signatures node1 sigs'), kn, next', p, h, bm, rest.
  split; [| split; [exact Hn' |]].
  - now rewrite radix_lookup_store, String.eqb_refl, Hl.
  - cbn [zd_RR set_Signatures]. now rewrite Hname.
Qed.

Lemma sign_node_other keys keytags config now st a st' k :
  sign_node E keys keytags config now st a = Ok st' -> a <> k ->
  radix_lookup (fst st') k = radix_lookup (fst st) k.
Proof.
  destruct st as [t w], st' as [t' w']. unfold sign_node. cbn [fst].
  destruct (radix_lookup t a) as [data |]; [| discriminate].
  destruct (radix_Next t a) as [[kn next] |]; [| discriminate].
  destruct (ZoneData_Sign _ _ _ _ _ _ _ _) as [[data' w1] | | |]; cbn [bind];
    try discriminate.
  intros [= <- _] Hne. rewrite radix_lookup_store.
  destruct (String.eqb_spec a k); [contradiction | reflexivity].
Qed.

(** X30: On a zone whose tree is in order and whose apex node carries the origin
    as its name, [Sign] closes the NSEC chain: when it returns, the NSEC of
    every node points to the name of the next node of the tree, and that of
    the last node to the name of the first. *)
Theorem Zone_Sign_chain z keys config now w z' w' key apex :
  well_formed E z ->
  toRadixName (Origin z) = Ok key ->
  radix_lookup (Radix z) key = Some apex ->
  zd_Name apex = Origin z ->
  Zone_Sign E z keys config now w = Ok (z', w') ->
  chained (Radix z').
Proof.
  intros [Hinc Hok] Hkey Hl Hname HS.
  apply Zone_Sign_inv in HS
    as (key0 & apex0 & rest & config' & t & Hkey0 & Hl0 & Hw & Hf & ->).
  rewrite Hkey in Hkey0. injection Hkey0 as <-.
  rewrite Hl in Hl0. injection Hl0 as <-.
  pose proof (foldM_sign_node_frame _ _ _ _ _ _ _ Hf) as HF. cbn [fst] in HF.
  destruct (radix_lookup_split _ _ _ Hl) as (before & after & Ht & Hsplit).
  rewrite (Hsplit []) in Hw. cbn [rev app] in Hw.
  assert (Hothers : Forall (fun kv => zd_Name (snd kv) <> Origin z) (after ++ before)).
  { apply keys_increasing_NoDup in Hinc. rewrite Ht in Hinc, Hok.
    rewrite map_app in Hinc. cbn [map fst] in Hinc.
    apply NoDup_app in Hinc as (_ & Hcross & Ha). apply NoDup_cons in Ha as [Ha _].
    apply Forall_forall. intros [k0 zd0] Hin Heq. cbn [snd] in Heq.
    assert (Hk0 : k0 = key).
    { rewrite Forall_forall in Hok.
      assert (Hin' : (k0, zd0) ∈ before ++ (key, apex) :: after).
      { apply elem_of_app in Hin as [Hin | Hin]; apply elem_of_app;
          [right; apply elem_of_cons; now right | now left]. }
      destruct (Hok _ Hin') as (Hnk & _). cbn [fst snd] in Hnk.
      rewrite Heq, Hkey in Hnk. now injection Hnk. }
    subst k0. apply elem_of_app in Hin as [Hin | Hin].
    - apply Ha. apply list_elem_of_In, in_map_iff. exists (key, zd0).
      split; [reflexivity | now apply list_elem_of_In].
    - apply (Hcross key); [| apply elem_of_cons; now left].
      apply list_elem_of_In, in_map_iff. exists (key, zd0).
      split; [reflexivity | now apply list_elem_of_In]. }
  rewrite app_assoc, (walk_until_all _ key apex (after ++ before) Hothers Hname) in Hw.
  injection Hw as <-. cbn [Radix set_Radix].
  intros k node Hlk.
  assert (Hin : In k (key :: map fst (after ++ before))).
  { apply radix_lookup_Some, (in_map fst) in Hlk. cbn [fst] in Hlk.
    rewrite <- (same_records_keys _ _ HF), Ht, map_app in Hlk.
    apply in_app_or in Hlk as [Hlk | [Hlk | Hlk]].
    - right. rewrite map_app. apply in_or_app. now right.
    - now left.
    - right. rewrite map_app. apply in_or_app. now left. }
  set (Q := fun (k : string) (st : RadixTree * World) =>
              exists node k' next p h bm rest,
                radix_lookup (fst st) k = Some node /\
                radix_Next (fst st) k = Some (k', next) /\
                zd_RR node !! TypeNSEC
                = Some (RR_NSEC p h (zd_Name next) bm :: rest)).
  match type of Hf with
  | foldM ?f _ _ = _ =>
      assert (Hmake : forall st a st', f st a = Ok st' -> Q a st')
        by (intros st a st' Hstep; eapply sign_node_chain; exact Hstep);
      assert (Hkeep : forall st a b st', f st a = Ok st' -> Q b st -> Q b st')
  end.
  { intros st a b st' Hstep Hb. destruct (decide (a = b)) as [-> | Hne].
    - eapply sign_node_chain; exact Hstep.
    - destruct Hb as (node0 & k' & next & p0 & h0 & bm & rest & Hl0 & Hn0 & Hnsec).
      pose proof (sign_node_frame _ _ _ _ _ _ _ Hstep) as HF'.
      destruct (radix_Next_same _ _ _ _ _ HF' Hn0) as (next' & Hn' & Hname').
      exists node0, k', next', p0, h0, bm, rest.
      split; [| split; [exact Hn' | now rewrite Hname']].
      rewrite (sign_node_other _ _ _ _ _ _ _ _ Hstep Hne). exact Hl0. }
  destruct (foldM_each _ Q _ Hmake Hkeep _ _ Hf k Hin)
    as (node0 & k' & next & p0 & h0 & bm & rest & Hl0 & Hn0 & Hnsec).
  cbn [fst] in Hl0, Hn0. rewrite Hlk in Hl0. injection Hl0 as <-.
  exists k', next, p0, h0, bm, rest. split; assumption.
Qed.


End SignerLaws.




(** ** Instances *)

Section Instances.
Import Names Zone Store Signing.


Lemma well_formed_root : well_formed env0 root_zone.
Proof. split; constructor. Qed.




Lemma Remove_panics_on_duplicate_witness :
  exists z,
    apply_ops env0 root_zone [OpInsert wild_A; OpInsert wild_A] 1 = Ok z /\
    Remove env0 z wild_A 3 = Panic.
Proof.
  eexists. split; [vm_compute; reflexivity |].
  eapply (Remove_panics_on_duplicate env0 _ wild_A 3 ".com.example.*" _
            [wild_A] wild_A);
    [reflexivity | discriminate | reflexivity | reflexivity | reflexivity
    | constructor; reflexivity].
Defined.

Lemma Insert_Remove_round_trip_witness :
  exists z1,
    Insert env0 root_zone wild_A 1 = Ok z1 /\
    Remove env0 z1 wild_A 2 = Ok (set_ModTime root_zone 2).
Proof.
  apply (Insert_Remove_round_trip env0 root_zone wild_A 1 2 ".com.example.*");
    [reflexivity | reflexivity | discriminate | reflexivity | reflexivity].
Defined.


Lemma well_formed_kept_witness :
  exists z',
    apply_ops env0 root_zone
      [OpInsert wild_A; OpInsert host_A; OpRemove wild_A;
       OpRemoveRRset "a.example.com." 1] 1 = Ok z' /\
    well_formed env0 z'.
Proof.
  eexists. split; [vm_compute; reflexivity |].
  eapply (well_formed_kept env0
            [OpInsert wild_A; OpInsert host_A; OpRemove wild_A;
             OpRemoveRRset "a.example.com." 1] root_zone 1);
    [apply well_formed_root | vm_compute; reflexivity].
Defined.




Lemma jitterDuration_never_positive_witness :
  (12 * Hour <= 0 -> jitterDuration env0 w0 (12 * Hour) = Panic) /\
  (0 < 12 * Hour < 2 ^ 63 ->
   exists j,
     jitterDuration env0 w0 (12 * Hour)
     = Ok (j, mkWorld (next_ptr w0) (S (S (rand_calls w0)))) /\
     - (12 * Hour) < j <= 0).
Proof.
  apply (jitterDuration_never_positive env0 w0 (12 * Hour)).
  intros i n Hn. cbn [Intn env0]. lia.
Defined.

Lemma ZoneData_Sign_NSEC_witness :
  exists node' w',
    ZoneData_Sign env0 node_A
      "b.example.com." [] [] config0 now0 w0 = Ok (node', w') /\
    (exists p h bm rest,
       zd_RR node' !! TypeNSEC = Some (RR_NSEC p h "b.example.com." bm :: rest)) /\
    zd_RR node' !! 1 = Some [host_A].
Proof.
  eexists _, _. split; [vm_compute; reflexivity |].
  destruct (ZoneData_Sign_NSEC env0
              node_A
              "b.example.com." [] [] config0 now0 w0 _ _
              ltac:(vm_compute; reflexivity))
    as ((p & h & bm & rest & H1 & _) & H2 & _).
  split; [exists p, h, bm, rest; exact H1 |].
  rewrite H2 by discriminate. reflexivity.
Defined.

Lemma Sign_only_adds_signatures_witness :
  exists more,
    slice_at (zd_Signatures node_expired_sig) 1
    = slice_at (zd_Signatures node_expired_sig) 1 ++ more.
Proof.
  apply (Sign_only_adds_signatures env0 node_expired_sig "b.example.com."
           [(zsk, [])] [(key_ptr zsk, 7)] config0 now0 w0 node_expired_sig w0 1);
    [vm_compute; discriminate | vm_compute; reflexivity | vm_compute; discriminate
    | reflexivity | discriminate].
Defined.

Lemma Sign_covers_witness :
  exists node' w',
    ZoneData_Sign env0 node_A
      "b.example.com." [(zsk, [])] [(key_ptr zsk, 7)] config0 now0 w0
    = Ok (node', w') /\
    signed_with (zd_Signatures node') 1 7.
Proof.
  eexists _, _. split; [vm_compute; reflexivity |].
  eapply (Sign_covers env0
            node_A
            "b.example.com." [(zsk, [])] [(key_ptr zsk, 7)] config0 now0 w0
            _ _ zsk [] 1 [host_A]);
    [ intros s0 p0 rrset0 s H; now injection H as <-
    | vm_compute; discriminate | vm_compute; reflexivity | vm_compute; discriminate
    | vm_compute; reflexivity | reflexivity | left; reflexivity
    | vm_compute; discriminate | vm_compute; reflexivity ].
Defined.


Ltac filed :=
  let H := fresh "H" in
  intros ? ? H;
  repeat (apply lookup_insert_Some in H as [[<- <-] | [_ H]];
          [repeat constructor |]);
  rewrite lookup_empty in H; discriminate H.

Lemma well_formed_S4 : well_formed env0 zone_S4.
Proof.
  split.
  - repeat constructor.
  - repeat constructor; cbn [fst snd zd_RR zd_Signatures]; filed.
Qed.

Lemma Zone_Sign_chain_witness :
  exists z' w',
    Zone_Sign env0 zone_S4 [] (Some config0) now0 w0 = Ok (z', w') /\
    chained (Radix z').
Proof.
  eexists _, _. split; [vm_compute; reflexivity |].
  eapply (Zone_Sign_chain env0 zone_S4 [] (Some config0) now0 w0 _ _
            ".com.example" _);
    [apply well_formed_S4 | reflexivity | reflexivity | reflexivity
    | vm_compute; reflexivity].
Defined.

End Instances.
